(** * Real-time conversation delivery: client store, completion service, message router

    A shallow embedding of
      - frontend/src/stores/ChatStore.js        (module [ChatStore]),
      - backend/services/openaiService.js       (module [OpenAIService]),
      - backend/controllers/chatController.js   (module [ChatController]),
      - backend/models/Conversation.js and the listing of conversations
                                                (module [ConversationQueries]),
      - frontend/src/services/apiService.js     (module [ApiService]),
    followed by the properties of the delivery subsystem.

    Conventions.  Objects are records and [null]/[undefined] is [None].
    Instants ([new Date()], [Date.now()]) are natural numbers of
    milliseconds read from the environment.  JavaScript strings are
    [string]s that hold the text in UTF-8, a surrogate without its partner
    in three bytes of its own; [JsString.length] and
    [JsString.substring0] count UTF-16 code units as JavaScript does, and
    [JsString.trim] removes the white space of [String.prototype.trim].

    An event handler, and each half of an [async] function around its
    [await], is a transition of an explicit state; what it asks of the
    outside world (socket emissions, HTTP requests, timers, database calls)
    is returned as a list of effects or logged in order.  What the outside
    world answers (clock readings, lookups, whether a database call
    resolves, the provider's reply) is an input of the transition.  Logging
    and toasts are left out. *)

From Stdlib Require Import String Ascii List Arith NArith ZArith Lia Bool.
From Stdlib Require Import DecimalString.
Import ListNotations.
Open Scope string_scope.
Open Scope list_scope.
Open Scope nat_scope.

(* ===================================================================== *)
(** ** JavaScript string primitives used by the sources                   *)
(* ===================================================================== *)

Module JsString.

(** The value of a byte. *)
Definition byte (c : ascii) : N := N_of_ascii c.

(** A byte that goes on a character begun before it. *)
Definition continues (c : ascii) : bool :=
  (0x80 <=? byte c)%N && (byte c <? 0xC0)%N.

(** The first byte of a character of four bytes: one beyond U+FFFF, which
    JavaScript holds as a pair of surrogates. *)
Definition starts_pair (c : ascii) : bool := (0xF0 <=? byte c)%N.

(** [s.length]: the number of UTF-16 code units. *)
Fixpoint length (s : string) : nat :=
  match s with
  | EmptyString => 0
  | String c r =>
      (if continues c then 0 else if starts_pair c then 2 else 1) + length r
  end.

(** The high surrogate of the character whose four bytes are [c] and the
    first three of [r], in the three bytes a lone surrogate takes. *)
Definition high_surrogate (c : ascii) (r : string) : string :=
  let low6 k := match get k r with
                | Some x => N.land (byte x) 0x3F
                | None => 0
                end%N in
  let hi := (0xD7C0 + (N.land (byte c) 7 * 256 + low6 0%nat * 4
                       + low6 1%nat / 16))%N in
  String (ascii_of_N 0xED)
    (String (ascii_of_N (0x80 + N.land (hi / 64) 0x3F))
       (String (ascii_of_N (0x80 + N.land hi 0x3F)) EmptyString)).

(** [s.substring(0, n)]: the first [n] code units.  When the cut falls
    inside a pair of surrogates the first of them is kept alone. *)
Fixpoint substring0 (n : nat) (s : string) : string :=
  match s with
  | EmptyString => EmptyString
  | String c r =>
      if continues c then String c (substring0 n r)
      else
        match n with
        | 0 => EmptyString
        | 1 => if starts_pair c then high_surrogate c r
               else String c (substring0 0 r)
        | S (S k as n') =>
            String c (substring0 (if starts_pair c then k else n') r)
        end
  end.

(** White space and line terminators, which [trim] removes, by their
    bytes: TAB, LF, VT, FF, CR and SP; U+00A0; U+1680, U+2000 to U+200A,
    U+2028, U+2029, U+202F, U+205F, U+3000 and U+FEFF. *)
Definition space1 (a : N) : bool :=
  ((9 <=? a) && (a <=? 13) || (a =? 32))%N.

Definition space2 (a b : N) : bool :=
  ((a =? 0xC2) && (b =? 0xA0))%N.

Definition space3 (a b c : N) : bool :=
  ((a =? 0xE1) && (b =? 0x9A) && (c =? 0x80)
   || (a =? 0xE2) && (b =? 0x80)
      && ((0x80 <=? c) && (c <=? 0x8A) || (c =? 0xA8) || (c =? 0xA9)
          || (c =? 0xAF))
   || (a =? 0xE2) && (b =? 0x81) && (c =? 0x9F)
   || (a =? 0xE3) && (b =? 0x80) && (c =? 0x80)
   || (a =? 0xEF) && (b =? 0xBB) && (c =? 0xBF))%N.

(** The string without the white space it starts with; [sp2] and [sp3]
    recognise the white space of two and of three bytes. *)
Fixpoint strip (sp2 : N -> N -> bool) (sp3 : N -> N -> N -> bool)
         (s : string) : string :=
  match s with
  | EmptyString => EmptyString
  | String a r1 =>
      if space1 (byte a) then strip sp2 sp3 r1
      else
        match r1 with
        | EmptyString => s
        | String b r2 =>
            if sp2 (byte a) (byte b) then strip sp2 sp3 r2
            else
              match r2 with
              | EmptyString => s
              | String c r3 =>
                  if sp3 (byte a) (byte b) (byte c) then strip sp2 sp3 r3
                  else s
              end
        end
  end.

(** A string that starts with no white space, by its first bytes. *)
Definition settled (sp2 : N -> N -> bool) (sp3 : N -> N -> N -> bool)
           (s : string) : bool :=
  match s with
  | EmptyString => true
  | String a r1 =>
      negb (space1 (byte a))
      && match r1 with
         | EmptyString => true
         | String b r2 =>
             negb (sp2 (byte a) (byte b))
             && match r2 with
                | EmptyString => true
                | String c _ => negb (sp3 (byte a) (byte b) (byte c))
                end
         end
  end.

Fixpoint rev_onto (s acc : string) : string :=
  match s with
  | EmptyString => acc
  | String c r => rev_onto r (String c acc)
  end.

Definition rev (s : string) : string := rev_onto s EmptyString.

(** [s.trimStart()] *)
Definition trimStart (s : string) : string := strip space2 space3 s.

(** [s.trimEnd()]: read from its end, white space has its bytes in the
    opposite order. *)
Definition trimEnd (s : string) : string :=
  rev (strip (fun a b => space2 b a) (fun a b c => space3 c b a) (rev s)).

(** [s.trim()] *)
Definition trim (s : string) : string := trimEnd (trimStart s).

(** Truthiness of a string: non-empty. *)
Definition truthy (s : string) : bool :=
  match s with EmptyString => false | _ => true end.

(** [!message?.trim()] on an optional argument. *)
Definition blank (m : option string) : bool :=
  match m with
  | None => true
  | Some s => negb (truthy (trim s))
  end.

Definition lower_char (c : ascii) : ascii :=
  let n := nat_of_ascii c in
  if (65 <=? n) && (n <=? 90) then ascii_of_nat (n + 32) else c.

(** The two characters outside ASCII whose lower case has an ASCII
    letter: U+0130, which becomes [i] and U+0307, and U+212A, the Kelvin
    sign, which becomes [k]. *)
Definition dotted_I (a b : N) : bool := ((a =? 0xC4) && (b =? 0xB0))%N.

Definition kelvin (a b c : N) : bool :=
  ((a =? 0xE2) && (b =? 0x84) && (c =? 0xAA))%N.

(** [s.toLowerCase()], as far as a search for ASCII text can tell: the
    ASCII letters and the two characters above are lowered; any other
    character outside ASCII becomes one outside ASCII and is left as it
    is.  The sources only ever look for ASCII keywords in the result. *)
Fixpoint toLowerCase (s : string) : string :=
  match s with
  | EmptyString => EmptyString
  | String a r =>
      match r with
      | String b r2 =>
          if dotted_I (byte a) (byte b)
          then String "i" (String (ascii_of_N 0xCC)
                             (String (ascii_of_N 0x87) (toLowerCase r2)))
          else
            match r2 with
            | String c r3 =>
                if kelvin (byte a) (byte b) (byte c)
                then String "k" (toLowerCase r3)
                else String (lower_char a) (toLowerCase r)
            | EmptyString => String (lower_char a) (toLowerCase r)
            end
      | EmptyString => String (lower_char a) (toLowerCase r)
      end
  end.

(** [s.includes(p)] *)
Fixpoint includes (s p : string) : bool :=
  prefix p s ||
  match s with
  | EmptyString => false
  | String _ r => includes r p
  end.

(** [n.toString()] for a non-negative integer. *)
Definition of_nat (n : nat) : string := NilZero.string_of_uint (Nat.to_uint n).

End JsString.

(* ===================================================================== *)
(** ** Messages, as both sides exchange them                              *)
(* ===================================================================== *)

Definition Time := nat.
Definition ConvId := string.
Definition UserId := string.

Inductive Sender := user | bot.

Inductive MessageType := text | file | image.

(** The [metadata] object of a reply.  Every key is optional; [confidence]
    is kept in tenths (0.8 is [8]). *)
Record Metadata := mkMetadata {
  md_model       : option string;
  md_tokens      : option nat;
  md_confidence  : option nat;
  md_contextUsed : option bool;
  md_isMock      : option bool;
  md_errorType   : option string;
  md_error       : option bool;
  md_aiError     : option bool
}.

Definition no_metadata : Metadata :=
  mkMetadata None None None None None None None None.

(** [{ error: true }] *)
Definition error_metadata : Metadata :=
  mkMetadata None None None None None None (Some true) None.

(** [{ aiError: true }] *)
Definition aiError_metadata : Metadata :=
  mkMetadata None None None None None None None (Some true).

(** A chat message.  [_temp] and [_id] are the transient marker and the
    temporary identifier that only the client's optimistic messages carry. *)
Record Message := mkMessage {
  sender      : Sender;
  content     : string;
  timestamp   : Time;
  messageType : MessageType;
  _temp       : bool;
  _id         : option string;
  metadata    : option Metadata
}.

Definition sender_eqb (a b : Sender) : bool :=
  match a, b with user, user | bot, bot => true | _, _ => false end.

Definition messageType_eqb (a b : MessageType) : bool :=
  match a, b with
  | text, text | file, file | image, image => true
  | _, _ => false
  end.

Definition option_eqb {A} (eqb : A -> A -> bool) (x y : option A) : bool :=
  match x, y with
  | None, None => true
  | Some a, Some b => eqb a b
  | _, _ => false
  end.

Definition metadata_eqb (a b : Metadata) : bool :=
  option_eqb String.eqb (md_model a) (md_model b)
  && option_eqb Nat.eqb (md_tokens a) (md_tokens b)
  && option_eqb Nat.eqb (md_confidence a) (md_confidence b)
  && option_eqb Bool.eqb (md_contextUsed a) (md_contextUsed b)
  && option_eqb Bool.eqb (md_isMock a) (md_isMock b)
  && option_eqb String.eqb (md_errorType a) (md_errorType b)
  && option_eqb Bool.eqb (md_error a) (md_error b)
  && option_eqb Bool.eqb (md_aiError a) (md_aiError b).

(** Structural equality of messages, used to count the copies of a message
    in a list. *)
Definition message_eqb (a b : Message) : bool :=
  sender_eqb (sender a) (sender b)
  && String.eqb (content a) (content b)
  && Nat.eqb (timestamp a) (timestamp b)
  && messageType_eqb (messageType a) (messageType b)
  && Bool.eqb (_temp a) (_temp b)
  && option_eqb String.eqb (_id a) (_id b)
  && option_eqb metadata_eqb (metadata a) (metadata b).

(** Number of copies of [m] in [l]. *)
Definition copies (m : Message) (l : list Message) : nat :=
  length (filter (message_eqb m) l).

(** Number of pending (optimistic, not yet reconciled) messages in [l]. *)
Definition pending (l : list Message) : nat :=
  length (filter _temp l).

(** [messages.filter(msg => !msg._temp)] *)
Definition drop_temp (l : list Message) : list Message :=
  filter (fun msg => negb (_temp msg)) l.

(* ===================================================================== *)
(** ** frontend/src/stores/ChatStore.js                                   *)
(* ===================================================================== *)

Module ChatStore.

(** A conversation object as the server returns it to the client.  An
    absent [title] is the empty string, an absent [messages] the empty
    list (the store reads both only through truthiness tests). *)
Record Conversation := mkConversation {
  conv_id           : ConvId;
  conv_title        : string;
  conv_lastActivity : Time;
  conv_messages     : list Message
}.

(** What the store keeps of [currentConversation]: the fields it reads or
    writes.  The conversation's own [messages] array is read by the store
    only through [this.messages]. *)
Record Current := mkCurrent {
  id           : ConvId;
  title        : string;
  lastActivity : Time
}.

(** Timers created with [setTimeout]/[setInterval], by the closure they
    run. *)
Inductive Timer :=
| ReconnectTimer                                   (* scheduleReconnection *)
| SocketTimeout (message : string) (conversationId : option ConvId)
                                                   (* sendMessageViaSocket *)
| HeartbeatTimer.                                  (* setupHeartbeat *)

(** The socket.io client object [this.socket]: the library's [connected]
    flag, whether the store's listeners are still attached
    ([removeAllListeners] detaches them), and the timers that the
    [once('messageSent')] listeners will clear, oldest first. *)
Record Socket := mkSocket {
  connected       : bool;
  listening       : bool;
  onceMessageSent : list nat
}.

(** The fields of the store.  [conversations] and [isLoading] are read only
    by the user interface and are left out. *)
Record Store := mkStore {
  currentConversation : option Current;
  messages            : list Message;
  isConnected         : bool;
  isTyping            : bool;
  error               : option string;
  socket              : option Socket;
  connectionRetries   : nat;
  maxRetries          : nat;
  reconnectTimeout    : option nat;
  heartbeatInterval   : option nat
}.

(** The local variables an [await apiService.sendMessage(...)] resumes
    with. *)
Record SendFrame := mkSendFrame {
  frame_message        : string;
  frame_conversationId : option ConvId
}.

(** The store together with the browser state its closures live in:
    pending timers, the next timer id, and in-flight HTTP requests. *)
Record Client := mkClient {
  store     : Store;
  timers    : list (nat * Timer);
  nextTimer : nat;
  inflight  : list (nat * SendFrame);
  nextReq   : nat
}.

(** Readings of [apiService] and of the clock taken while a handler runs. *)
Record Env := mkEnv {
  now             : Time;
  isAuthenticated : bool;
  token           : option string;
  currentUserId   : option UserId
}.

(** Outcome of [await apiService.sendMessage(...)]. *)
Inductive ApiResult :=
| ApiOk (conversation : Conversation) (userMessage : option Message)
                      (* res.data.success && res.data.data *)
| ApiInvalid          (* a response without success/data *)
| ApiError (serverError : option string).  (* the request rejected *)

(** Payloads of [socket.emit]. *)
Inductive Emission :=
| joinConversation (conversationId : ConvId)
| newMessage (message : string) (conversationId : option ConvId)
             (userId : option UserId)
| ping (stamp : Time).

(** Value returned to the caller of a store method. *)
Record Result := mkResult {
  success      : bool;
  result_error : option string
}.

Inductive Effect :=
| Emit (e : Emission)                               (* socket.emit *)
| PostMessage (req : nat) (message : string) (conversationId : option ConvId)
                                                    (* apiService.sendMessage *)
| SetTimeout (timer : nat) (t : Timer) (delay : N)   (* milliseconds *)
| ClearTimeout (timer : nat)
| OpenSocket                                        (* io(url, options) *)
| ConnectSocket                                     (* socket.connect() *)
| CloseSocket                                       (* socket.disconnect() *)
| Return (r : Result).

(** What can happen to the store: socket events, a timer firing, an HTTP
    reply, and calls of its public methods. *)
Inductive Event :=
| on_connect
| on_disconnect (reason : string)
| on_connect_error (message : string)
| on_connected
| on_messageSent (message : option Message)
| on_botMessage (message : option Message)
| on_botTyping
| on_botStoppedTyping
| on_error (message : option string)
| timer_fires (timer : nat)
| api_replies (req : nat) (r : ApiResult)
| call_sendMessage (message : option string) (conversationId : option ConvId)
| call_sendMessageViaSocket (message : option string)
                            (conversationId : option ConvId)
| call_setCurrentConversation (conv : option Conversation)
| call_connectSocket
| call_reconnect
| call_disconnectSocket
| call_cleanup.

(** *** Field updates *)

Definition with_currentConversation v (s : Store) : Store :=
  mkStore v (messages s) (isConnected s) (isTyping s) (error s) (socket s)
          (connectionRetries s) (maxRetries s) (reconnectTimeout s)
          (heartbeatInterval s).
Definition with_messages v (s : Store) : Store :=
  mkStore (currentConversation s) v (isConnected s) (isTyping s) (error s)
          (socket s) (connectionRetries s) (maxRetries s)
          (reconnectTimeout s) (heartbeatInterval s).
Definition with_isConnected v (s : Store) : Store :=
  mkStore (currentConversation s) (messages s) v (isTyping s) (error s)
          (socket s) (connectionRetries s) (maxRetries s)
          (reconnectTimeout s) (heartbeatInterval s).
Definition with_isTyping v (s : Store) : Store :=
  mkStore (currentConversation s) (messages s) (isConnected s) v (error s)
          (socket s) (connectionRetries s) (maxRetries s)
          (reconnectTimeout s) (heartbeatInterval s).
Definition with_error v (s : Store) : Store :=
  mkStore (currentConversation s) (messages s) (isConnected s) (isTyping s)
          v (socket s) (connectionRetries s) (maxRetries s)
          (reconnectTimeout s) (heartbeatInterval s).
Definition with_socket v (s : Store) : Store :=
  mkStore (currentConversation s) (messages s) (isConnected s) (isTyping s)
          (error s) v (connectionRetries s) (maxRetries s)
          (reconnectTimeout s) (heartbeatInterval s).
Definition with_connectionRetries v (s : Store) : Store :=
  mkStore (currentConversation s) (messages s) (isConnected s) (isTyping s)
          (error s) (socket s) v (maxRetries s) (reconnectTimeout s)
          (heartbeatInterval s).
Definition with_reconnectTimeout v (s : Store) : Store :=
  mkStore (currentConversation s) (messages s) (isConnected s) (isTyping s)
          (error s) (socket s) (connectionRetries s) (maxRetries s) v
          (heartbeatInterval s).
Definition with_heartbeatInterval v (s : Store) : Store :=
  mkStore (currentConversation s) (messages s) (isConnected s) (isTyping s)
          (error s) (socket s) (connectionRetries s) (maxRetries s)
          (reconnectTimeout s) v.

Definition with_store (f : Store -> Store) (c : Client) : Client :=
  mkClient (f (store c)) (timers c) (nextTimer c) (inflight c) (nextReq c).

(** The class-field initialisers. *)
Definition initial_store : Store :=
  mkStore None [] false false None None 0 5 None None.

(** Timer ids are positive, as [setTimeout] returns them. *)
Definition initial : Client := mkClient initial_store [] 1 [] 1.

(** *** Setters (lines 33-87) *)

Definition setError (err : option string) : Store -> Store := with_error err.

Definition clearError : Store -> Store := with_error None.

Definition setConnected (val : bool) (s : Store) : Store :=
  let s := with_isConnected val s in
  if val then with_connectionRetries 0 s else s.

Definition setTyping (val : bool) : Store -> Store := with_isTyping val.

Definition setCurrentConversation (conv : option Conversation) (s : Store)
  : Store :=
  match conv with
  | Some c =>
      with_messages (conv_messages c)
        (with_currentConversation
           (Some (mkCurrent (conv_id c) (conv_title c) (conv_lastActivity c)))
           s)
  | None => with_messages [] (with_currentConversation None s)
  end.

(** [addMessage(msg)]: a no-op without a message or without a current
    conversation. *)
Definition addMessage (t : Time) (msg : option Message) (s : Store) : Store :=
  match msg, currentConversation s with
  | Some m, Some cur =>
      with_currentConversation (Some (mkCurrent (id cur) (title cur) t))
        (with_messages (messages s ++ [m]) s)
  | _, _ => s
  end.

Definition updateConversationTitle (t : string) (s : Store) : Store :=
  match currentConversation s with
  | Some cur =>
      if JsString.truthy t
      then with_currentConversation
             (Some (mkCurrent (id cur) (JsString.substring0 100 t)
                              (lastActivity cur)))
             s
      else s
  | None => s
  end.

(** [conversationId || this.currentConversation?.id] *)
Definition effective_conversation (conversationId : option ConvId)
           (s : Store) : option ConvId :=
  match conversationId with
  | Some i => if JsString.truthy i then Some i
              else option_map id (currentConversation s)
  | None => option_map id (currentConversation s)
  end.

(** The optimistic message both send paths build. *)
Definition tempUserMessage (t : Time) (message : string) : Message :=
  mkMessage user (JsString.trim message) t text true
            (Some (JsString.of_nat t)) None.

(** *** Handlers *)

(** A handler changes the client and lists the effects it asks for. *)
Definition Handler : Type := Client -> Client * list Effect.

Definition skip : Handler := fun c => (c, []).

(** [h] then [k]. *)
Definition seq (h k : Handler) : Handler :=
  fun c => (fst (k (fst (h c))), snd (h c) ++ snd (k (fst (h c)))).

Notation "h ;; k" := (seq h k) (at level 61, right associativity).

(** An assignment to fields of the store. *)
Definition update (f : Store -> Store) : Handler :=
  fun c => (with_store f c, []).

Definition effect (e : Effect) : Handler := fun c => (c, [e]).

(** *** Timers and the socket object *)

Fixpoint lookup {A} (k : nat) (l : list (nat * A)) : option A :=
  match l with
  | [] => None
  | (k', v) :: r => if k' =? k then Some v else lookup k r
  end.

Definition remove {A} (k : nat) (l : list (nat * A)) : list (nat * A) :=
  filter (fun p => negb (fst p =? k)) l.

(** [clearTimeout(timer)] / [clearInterval(timer)] *)
Definition clearTimeout (timer : nat) : Handler :=
  fun c =>
    (mkClient (store c) (remove timer (timers c)) (nextTimer c) (inflight c)
              (nextReq c),
     [ClearTimeout timer]).

(** [const t = setTimeout(closure, delay)] (or [setInterval]), then [k t]:
    the timer gets a fresh positive id. *)
Definition setTimeout (t : Timer) (delay : N) (k : nat -> Handler) : Handler :=
  fun c =>
    ((fun c' =>
        (mkClient (store c') (timers c' ++ [(nextTimer c', t)])
                  (S (nextTimer c')) (inflight c') (nextReq c'),
         [SetTimeout (nextTimer c') t delay]))
     ;; k (nextTimer c)) c.

(** [this.socket?.connected] *)
Definition socket_connected (s : Store) : bool :=
  match socket s with
  | Some k => connected k
  | None => false
  end.

(** Whether an event of the socket reaches the store's listeners. *)
Definition socket_listening (s : Store) : bool :=
  match socket s with
  | Some k => listening k
  | None => false
  end.

(** The library sets [socket.connected] before it emits [connect] or
    [disconnect]. *)
Definition library_sets_connected (v : bool) (s : Store) : Store :=
  match socket s with
  | Some k => with_socket (Some (mkSocket v (listening k) (onceMessageSent k))) s
  | None => s
  end.

(** *** Heartbeat (lines 534-549) *)

Definition clearHeartbeat : Handler :=
  fun c =>
    match heartbeatInterval (store c) with
    | Some h => (clearTimeout h ;; update (with_heartbeatInterval None)) c
    | None => skip c
    end.

Definition setupHeartbeat : Handler :=
  clearHeartbeat ;;
  setTimeout HeartbeatTimer 30000
    (fun h => update (with_heartbeatInterval (Some h))).

(** *** Reconnection (lines 508-531) *)

(** Exponential backoff: 1s, 2s, 4s, 8s, 16s. *)
Definition backoff (retries : nat) : N :=
  N.min (1000 * 2 ^ N.of_nat (retries - 1)) 16000.

Definition scheduleReconnection : Handler :=
  (fun c =>
     match reconnectTimeout (store c) with
     | Some t => clearTimeout t c
     | None => skip c
     end) ;;
  (fun c =>
     if maxRetries (store c) <=? connectionRetries (store c)
     then skip c
     else
       (update (fun s => with_connectionRetries (S (connectionRetries s)) s) ;;
        (fun c' =>
           setTimeout ReconnectTimer (backoff (connectionRetries (store c')))
             (fun t => update (with_reconnectTimeout (Some t))) c')) c).

(** The closure that [scheduleReconnection] hands to [setTimeout]. *)
Definition reconnect_timer_fires (env : Env) : Handler :=
  fun c =>
    if isAuthenticated env && negb (socket_connected (store c))
    then match socket (store c) with
         | Some _ => effect ConnectSocket c
         | None => skip c
         end
    else skip c.

(** *** Sending through the HTTP API (lines 206-289) *)

Definition empty_message : Handler :=
  effect (Return (mkResult false (Some "Empty message"))).

(** [await apiService.sendMessage({ message, conversationId })]: the
    request leaves and the frame waits for the reply. *)
Definition post (m : string) (conversationId : option ConvId) : Handler :=
  fun c =>
    (mkClient (store c) (timers c) (nextTimer c)
              (inflight c ++ [(nextReq c, mkSendFrame m conversationId)])
              (S (nextReq c)),
     [PostMessage (nextReq c) (JsString.trim m)
                  (effective_conversation conversationId (store c))]).

(** [sendMessage] up to its [await]. *)
Definition sendMessage (env : Env) (message : option string)
           (conversationId : option ConvId) : Handler :=
  match message with
  | Some m =>
      if JsString.blank message then empty_message
      else
        update clearError ;;
        update (addMessage (now env) (Some (tempUserMessage (now env) m))) ;;
        post m conversationId
  | None => empty_message
  end.

(** [!conversationId] *)
Definition no_conversationId (conversationId : option ConvId) : bool :=
  match conversationId with
  | Some i => negb (JsString.truthy i)
  | None => true
  end.

(** The [catch] block of [sendMessage]. *)
Definition sendMessage_failed (serverError : option string) : Handler :=
  let errorMessage :=
    match serverError with
    | Some e => if JsString.truthy e then e else "Failed to send message"
    | None => "Failed to send message"
    end in
  update (fun s => with_messages (drop_temp (messages s)) s) ;;
  update (setError (Some errorMessage)) ;;
  effect (Return (mkResult false (Some errorMessage))).

(** The state change of a successful reply. *)
Definition accept_reply (f : SendFrame) (conversation : Conversation)
           (userMessage : option Message) (s : Store) : Store :=
  let s1 := with_messages (drop_temp (messages s)) s in
  let s2 :=
    match currentConversation s1 with
    | Some cur =>
        if String.eqb (id cur) (conv_id conversation)
        then with_messages (conv_messages conversation)
               (with_currentConversation
                  (Some (mkCurrent (id cur) (title cur)
                                   (conv_lastActivity conversation)))
                  s1)
        else setCurrentConversation (Some conversation) s1
    | None => setCurrentConversation (Some conversation) s1
    end in
  match userMessage with
  | Some _ =>
      if no_conversationId (frame_conversationId f)
         && JsString.truthy (conv_title conversation)
      then updateConversationTitle (conv_title conversation) s2
      else s2
  | None => s2
  end.

(** [sendMessage] from its [await] on. *)
Definition sendMessage_resume (f : SendFrame) (r : ApiResult) : Handler :=
  match r with
  | ApiOk conversation userMessage =>
      update (accept_reply f conversation userMessage) ;;
      effect (Return (mkResult true None))
  | ApiInvalid => sendMessage_failed None
  | ApiError e => sendMessage_failed e
  end.

(** The reply to request [req] has arrived: its frame is resumed once. *)
Definition settle (req : nat) : Handler :=
  fun c =>
    (mkClient (store c) (timers c) (nextTimer c) (remove req (inflight c))
              (nextReq c), []).

Definition api_reply (req : nat) (r : ApiResult) : Handler :=
  fun c =>
    match lookup req (inflight c) with
    | Some f => (settle req ;; sendMessage_resume f r) c
    | None => skip c
    end.

(** *** Sending through the socket (lines 552-615) *)

(** [this.socket.once('messageSent', () => clearTimeout(timer))] *)
Definition register_once (timer : nat) (s : Store) : Store :=
  match socket s with
  | Some k =>
      with_socket
        (Some (mkSocket (connected k) (listening k)
                        (onceMessageSent k ++ [timer]))) s
  | None => s
  end.

Definition sendMessageViaSocket (env : Env) (message : option string)
           (conversationId : option ConvId) : Handler :=
  match message with
  | Some m =>
      if JsString.blank message then empty_message
      else fun c =>
        if negb (socket_connected (store c))
        then sendMessage env message conversationId c
        else
          (update (addMessage (now env) (Some (tempUserMessage (now env) m))) ;;
           (fun c' =>
              effect (Emit (newMessage (JsString.trim m)
                              (effective_conversation conversationId (store c'))
                              (currentUserId env))) c') ;;
           setTimeout (SocketTimeout m conversationId) 10000
             (fun t => update (register_once t)) ;;
           effect (Return (mkResult true None))) c
  | None => empty_message
  end.

(** The closure of the 10 second [socketTimeout]. *)
Definition socket_timeout_fires (env : Env) (message : string)
           (conversationId : option ConvId) : Handler :=
  update (fun s => with_messages (drop_temp (messages s)) s) ;;
  sendMessage env (Some message) conversationId.

(** *** Connecting and disconnecting (lines 292-348, 618-639, 704-752) *)

Definition connectSocket (env : Env) : Handler :=
  fun c =>
    if negb (isAuthenticated env)
    then update (setError (Some "Login required for real-time chat")) c
    else if socket_connected (store c)
    then skip c
    else
      ((fun c' =>
          match socket (store c') with
          | Some _ =>
              (update (with_socket (Some (mkSocket false false []))) ;;
               effect CloseSocket) c'
          | None => skip c'
          end) ;;
       (if match token env with
           | Some tk => JsString.truthy tk
           | None => false
           end
        then update (with_socket (Some (mkSocket false true []))) ;;
             effect OpenSocket
        else update (setError (Some "No authentication token available")))) c.

Definition disconnectSocket : Handler :=
  clearHeartbeat ;;
  (fun c =>
     match reconnectTimeout (store c) with
     | Some t => (clearTimeout t ;; update (with_reconnectTimeout None)) c
     | None => skip c
     end) ;;
  (fun c =>
     match socket (store c) with
     | Some _ =>
         (effect CloseSocket ;;
          update (with_socket None) ;;
          update (setConnected false) ;;
          update (setTyping false) ;;
          update (with_connectionRetries 0)) c
     | None => skip c
     end).

Definition reconnect (env : Env) : Handler :=
  update (with_connectionRetries 0) ;;
  update clearError ;;
  connectSocket env.

Definition cleanup : Handler :=
  disconnectSocket ;;
  update (with_currentConversation None) ;;
  update (with_messages []) ;;
  update clearError ;;
  update (setTyping false).

(** *** Socket event handlers (lines 351-505) *)

(** Join the room of the current conversation, if there is one. *)
Definition rejoin : Handler :=
  fun c =>
    match currentConversation (store c) with
    | Some cur =>
        if JsString.truthy (id cur)
        then effect (Emit (joinConversation (id cur))) c
        else skip c
    | None => skip c
    end.

Definition handle_connect : Handler :=
  update (setConnected true) ;;
  update clearError ;;
  update (with_connectionRetries 0) ;;
  rejoin ;;
  setupHeartbeat.

Definition handle_disconnect (reason : string) : Handler :=
  update (setConnected false) ;;
  update (setTyping false) ;;
  clearHeartbeat ;;
  (if String.eqb reason "io server disconnect" then scheduleReconnection
   else if String.eqb reason "io client disconnect" then skip
   else scheduleReconnection).

Definition handle_connect_error (message : string) : Handler :=
  update (setConnected false) ;;
  update (setError
            (Some (if JsString.includes message "Authentication"
                   then "Authentication failed. Please login again."
                   else if JsString.includes message "timeout"
                   then "Connection timeout. Check your network."
                   else ("Connection failed: " ++ message)%string))) ;;
  (fun c =>
     if connectionRetries (store c) <? maxRetries (store c)
     then scheduleReconnection c
     else skip c).

Definition handle_connected : Handler :=
  update (setConnected true) ;; update clearError.

(** The store's own [messageSent] listener: the reconcile step. *)
Definition reconcile (t : Time) (message : option Message) (s : Store)
  : Store :=
  match message with
  | Some m =>
      addMessage t (Some m) (with_messages (drop_temp (messages s)) s)
  | None => s
  end.

(** The [once('messageSent')] listeners run after it, in registration
    order; each clears the timeout of its send and is gone. *)
Fixpoint clear_all (l : list nat) : Handler :=
  match l with
  | [] => skip
  | t :: r => clearTimeout t ;; clear_all r
  end.

Definition run_once_listeners : Handler :=
  fun c =>
    match socket (store c) with
    | Some k =>
        (clear_all (onceMessageSent k) ;;
         update (with_socket (Some (mkSocket (connected k) (listening k) []))))
          c
    | None => skip c
    end.

Definition handle_messageSent (env : Env) (message : option Message)
  : Handler :=
  update (reconcile (now env) message) ;; run_once_listeners.

Definition handle_botMessage (env : Env) (message : option Message)
  : Handler :=
  update (setTyping false) ;; update (addMessage (now env) message).

Definition handle_error (message : option string) : Handler :=
  update (setError
            (Some match message with
                  | Some m => if JsString.truthy m then m
                              else "Socket error occurred"
                  | None => "Socket error occurred"
                  end)) ;;
  update (setTyping false).

(** A timer that fires leaves the table unless it is an interval. *)
Definition expire (timer : nat) : Handler :=
  fun c =>
    (mkClient (store c) (remove timer (timers c)) (nextTimer c) (inflight c)
              (nextReq c), []).

Definition handle_timer (env : Env) (timer : nat) : Handler :=
  fun c =>
    match lookup timer (timers c) with
    | Some ReconnectTimer => (expire timer ;; reconnect_timer_fires env) c
    | Some (SocketTimeout message conversationId) =>
        (expire timer ;; socket_timeout_fires env message conversationId) c
    | Some HeartbeatTimer =>
        if socket_connected (store c) then effect (Emit (ping (now env))) c
        else skip c
    | None => skip c
    end.

(** *** One transition *)

(** A socket event reaches the handlers only while the store's listeners
    are attached to [this.socket]. *)
Definition socket_event (h : Handler) : Handler :=
  fun c => if socket_listening (store c) then h c else skip c.

Definition step (env : Env) (ev : Event) : Handler :=
  match ev with
  | on_connect =>
      socket_event (update (library_sets_connected true) ;; handle_connect)
  | on_disconnect reason =>
      socket_event (update (library_sets_connected false) ;;
                    handle_disconnect reason)
  | on_connect_error message => socket_event (handle_connect_error message)
  | on_connected => socket_event handle_connected
  | on_messageSent message => socket_event (handle_messageSent env message)
  | on_botMessage message => socket_event (handle_botMessage env message)
  | on_botTyping => socket_event (update (setTyping true))
  | on_botStoppedTyping => socket_event (update (setTyping false))
  | on_error message => socket_event (handle_error message)
  | timer_fires timer => handle_timer env timer
  | api_replies req r => api_reply req r
  | call_sendMessage message conversationId =>
      sendMessage env message conversationId
  | call_sendMessageViaSocket message conversationId =>
      sendMessageViaSocket env message conversationId
  | call_setCurrentConversation conv => update (setCurrentConversation conv)
  | call_connectSocket => connectSocket env
  | call_reconnect => reconnect env
  | call_disconnectSocket => disconnectSocket
  | call_cleanup => cleanup
  end.

(** A run: the events in order, each with the environment it sees. *)
Fixpoint run (trace : list (Env * Event)) : Handler :=
  match trace with
  | [] => skip
  | (env, ev) :: rest => step env ev ;; run rest
  end.

Definition reachable (c : Client) : Prop :=
  exists trace, fst (run trace initial) = c.

(** *** Getters (lines 755-764) *)

Inductive Status := st_connected | st_reconnecting | st_failed | st_disconnected.

Definition connectionStatus (s : Store) : Status :=
  if isConnected s && socket_connected s then st_connected
  else if (0 <? connectionRetries s) && (connectionRetries s <? maxRetries s)
  then st_reconnecting
  else if maxRetries s <=? connectionRetries s then st_failed
  else st_disconnected.

(** *** Observations on messages and effects *)

(** Reconnection timers that a list of effects schedules. *)
Definition is_retry (e : Effect) : bool :=
  match e with
  | SetTimeout _ ReconnectTimer _ => true
  | _ => false
  end.

Definition retries_scheduled (l : list Effect) : nat :=
  length (filter is_retry l).

(** Confirmed (not pending) user messages with the given content. *)
Definition confirmed_copies (body : string) (l : list Message) : nat :=
  length (filter (fun m => negb (_temp m) && sender_eqb (sender m) user
                           && String.eqb (content m) body) l).

(** An effect that reports a failure to the caller. *)
Definition is_rejection (e : Effect) : bool :=
  match e with
  | Return r => negb (success r)
  | _ => false
  end.

(** Events that put the retry counter back to zero. *)
Definition resets (ev : Event) : bool :=
  match ev with
  | on_connect | on_connected | call_reconnect | call_disconnectSocket
  | call_cleanup => true
  | _ => false
  end.

End ChatStore.

(* ===================================================================== *)
(** ** Exceptions and the result of a call that may throw                 *)
(* ===================================================================== *)

(** A thrown JavaScript error, with the properties the sources inspect. *)
Record JsError := mkJsError {
  err_name        : string;          (* error.name *)
  err_message     : string;          (* error.message *)
  err_status      : option nat;      (* error.status *)
  err_retry_after : option nat       (* error.headers?.['retry-after'] *)
}.

(** [new Error(message)] *)
Definition Error (message : string) : JsError :=
  mkJsError "Error" message None None.

(** How a call ends: it returns a value or it throws. *)
Inductive Outcome (A : Type) :=
| Returns (a : A)
| Throws (e : JsError).

Arguments Returns {A} a.
Arguments Throws {A} e.

(** What the completion step hands back: [{ response, metadata }]. *)
Record Completion := mkCompletion {
  response      : string;
  reply_metadata : Metadata
}.

(* ===================================================================== *)
(** ** backend/services/openaiService.js                                  *)
(* ===================================================================== *)

Module OpenAIService.

(** The mutable fields of the service singleton. *)
Record Service := mkService {
  useMockResponse  : bool;
  rateLimitedUntil : option Time;
  failureCount     : nat;
  maxFailures      : nat
}.

(** The constructor: mock mode exactly when no API key is configured. *)
Definition create (has_api_key : bool) : Service :=
  mkService (negb has_api_key) None 0 3.

(** One entry of the [messages] array sent to the provider. *)
Inductive Role := system | role_user | assistant.

Record ChatMessage := mkChatMessage {
  role         : Role;
  chat_content : string
}.

(** What [client.chat.completions.create] resolves to. *)
Record ApiResponse := mkApiResponse {
  api_model    : string;
  api_choice   : option string;     (* response.choices[0]?.message content *)
  total_tokens : option nat         (* response.usage?.total_tokens *)
}.

(** The outside world of one call: the clock and the provider's answer to
    a request. *)
Record Env := mkEnv {
  now                : Time;        (* Date.now(), milliseconds *)
  completions_create : list ChatMessage -> Outcome ApiResponse
}.

Definition systemPrompt : string :=
  "You are a helpful customer support assistant. Provide accurate, polite, and concise responses based on the available company information. If you don't have specific information about a topic, politely direct the user to contact support directly.".

Definition nl : string := String (ascii_of_nat 10) EmptyString.

(** The double-quote character. *)
Definition dq : string := String (ascii_of_nat 34) EmptyString.

(** *** getMockResponse (lines 129-171) *)

Definition any_included (s : string) (keys : list string) : bool :=
  existsb (JsString.includes s) keys.

Definition mock_text (userMessage : string) (errorType : option string)
  : string :=
  let lowerMessage := JsString.toLowerCase userMessage in
  let response : option string :=
    match errorType with
    | Some t =>
        if JsString.truthy t
        then Some ("I apologize, but our AI service is currently experiencing issues ("
                   ++ t ++ "). However, I'm here to help with some basic information!")%string
        else None
    | None => None
    end in
  if any_included lowerMessage ["hello"; "hi"; "hey"] then
    "👋 Hello! Welcome to our customer support. How can I assist you today?"
  else if any_included lowerMessage ["help"; "support"] then
    ("I'm here to help! You can ask me about:" ++ nl
     ++ "• Account issues and login problems" ++ nl
     ++ "• Product information and pricing" ++ nl
     ++ "• Technical support and troubleshooting" ++ nl
     ++ "• Billing and subscription questions" ++ nl ++ nl
     ++ "What can I help you with?")%string
  else if any_included lowerMessage ["price"; "cost"; "billing"] then
    "💰 For detailed pricing information, please visit our pricing page or contact our sales team at sales@company.com. We offer flexible plans to suit different needs!"
  else if any_included lowerMessage ["account"; "login"; "password"] then
    ("🔐 For account-related issues:" ++ nl
     ++ "• Reset password: Use " ++ dq ++ "Forgot Password" ++ dq ++ " on the login page" ++ nl
     ++ "• Account locked: Contact support" ++ nl
     ++ "• Profile updates: Check your account settings" ++ nl ++ nl
     ++ "Need more help? Contact our support team!")%string
  else if any_included lowerMessage ["bug"; "error"; "problem"] then
    ("🐛 I understand you're experiencing technical difficulties. To help resolve this:" ++ nl
     ++ "1. Try refreshing the page" ++ nl
     ++ "2. Clear your browser cache" ++ nl
     ++ "3. Check your internet connection" ++ nl
     ++ "4. Contact our tech team with specific error details" ++ nl ++ nl
     ++ "What specific issue are you encountering?")%string
  else if any_included lowerMessage ["cancel"; "unsubscribe"] then
    ("❌ To cancel your subscription:" ++ nl
     ++ "1. Go to Account Settings" ++ nl
     ++ "2. Select " ++ dq ++ "Subscription" ++ dq ++ nl
     ++ "3. Click " ++ dq ++ "Cancel Subscription" ++ dq ++ nl ++ nl
     ++ "Or contact our support team for assistance. We'd love to know how we can improve!")%string
  else if any_included lowerMessage ["contact"; "phone"; "email"] then
    ("📞 You can reach us:" ++ nl
     ++ "• Chat: Right here with me!" ++ nl
     ++ "• Email: support@company.com" ++ nl
     ++ "• Phone: 1-800-SUPPORT (Mon-Fri, 9 AM - 6 PM EST)" ++ nl
     ++ "• Help Center: Visit our FAQ section" ++ nl ++ nl
     ++ "I'm available 24/7 for immediate assistance!")%string
  else if any_included lowerMessage ["hours"; "time"; "available"] then
    ("🕒 Our support hours:" ++ nl
     ++ "• Chat Support: 24/7 (that's me!)" ++ nl
     ++ "• Phone Support: Monday-Friday, 9 AM - 6 PM EST" ++ nl
     ++ "• Email Support: We respond within 24 hours" ++ nl ++ nl
     ++ "How can I help you right now?")%string
  else if any_included lowerMessage ["thank"; "thanks"] then
    "😊 You're very welcome! I'm glad I could help. Is there anything else you need assistance with today?"
  else
    match response with
    | Some r => r
    | None =>
        ("Thank you for your question! While I don't have specific information about "
         ++ dq ++ userMessage ++ dq ++ " right now, I'd be happy to connect you with our support team who can provide more detailed assistance."
         ++ nl ++ nl ++ "📧 Email: support@company.com" ++ nl
         ++ "💬 Or continue chatting here - I might be able to help with other questions!")%string
    end.

Definition getMockResponse (userMessage : string) (errorType : option string)
  : Completion :=
  let response := mock_text userMessage errorType in
  mkCompletion response
    (mkMetadata (Some "mock-response") (Some (JsString.length response))
                (Some 7) (Some true) (Some true) errorType None None).

(** *** getRelevantContext (lines 173-232) *)

Record Entry := mkEntry {
  question : string;
  answer   : string;
  keywords : list string
}.

Definition knowledgeBase : list Entry :=
  [ mkEntry "What are your support hours?"
      "Our chat support is available 24/7. Phone support is Monday-Friday, 9 AM to 6 PM EST."
      ["support"; "hours"; "availability"; "time"; "phone"; "chat"];
    mkEntry "How can I reset my password?"
      "You can reset your password by clicking 'Forgot Password' on the login page, or contact support for assistance."
      ["password"; "reset"; "forgot"; "login"; "account"];
    mkEntry "How do I contact support?"
      "You can contact support through this chat system, email support@company.com, or call us at 1-800-SUPPORT."
      ["contact"; "support"; "email"; "help"; "phone"; "call"];
    mkEntry "What payment methods do you accept?"
      "We accept major credit cards (Visa, MasterCard, American Express), PayPal, and bank transfers."
      ["payment"; "credit card"; "paypal"; "billing"; "pay"];
    mkEntry "How do I cancel my subscription?"
      "You can cancel your subscription from your account settings or contact our support team for assistance."
      ["cancel"; "subscription"; "account"; "unsubscribe"];
    mkEntry "Is there a mobile app available?"
      "Yes, our mobile app is available for iOS and Android devices. You can download it from the App Store or Google Play."
      ["mobile"; "app"; "ios"; "android"; "download"] ].

(** [relevantEntries.forEach((entry, index) => context += ...)] *)
Fixpoint numbered (index : nat) (entries : list Entry) : string :=
  match entries with
  | [] => EmptyString
  | e :: r =>
      (JsString.of_nat (index + 1) ++ ". Q: " ++ question e ++ nl
       ++ "   A: " ++ answer e ++ nl ++ nl ++ numbered (S index) r)%string
  end.

Definition getRelevantContext (userMessage : string) : option string :=
  let searchTerms := JsString.toLowerCase userMessage in
  let relevantEntries :=
    firstn 3
      (filter (fun entry =>
                 existsb (fun keyword =>
                            JsString.includes searchTerms
                                              (JsString.toLowerCase keyword))
                         (keywords entry))
              knowledgeBase) in
  match relevantEntries with
  | [] => None
  | _ => Some ("Relevant company information:" ++ nl
               ++ numbered 0 relevantEntries)%string
  end.

(** *** generateResponse (lines 27-127) *)

(** [array.slice(-n)]: the last [n] elements. *)
Definition last_n {A} (n : nat) (l : list A) : list A :=
  skipn (length l - n) l.

(** The request: system prompt, recent history, the current message. *)
Definition request (userMessage : string) (conversationHistory : list Message)
           (relevantContext : option string) : list ChatMessage :=
  let prompt :=
    match relevantContext with
    | Some ctx =>
        if JsString.truthy ctx
        then (systemPrompt ++ nl ++ nl ++ "Relevant information:" ++ nl ++ ctx)%string
        else systemPrompt
    | None => systemPrompt
    end in
  let recentHistory := last_n 10 conversationHistory in
  [mkChatMessage system prompt]
    ++ map (fun msg =>
              mkChatMessage
                (match sender msg with user => role_user | bot => assistant end)
                (content msg))
           (filter (fun msg => JsString.truthy (content msg)) recentHistory)
    ++ [mkChatMessage role_user userMessage].

(** The [try] block.  It ends by returning a completion or by throwing. *)
Definition attempt (env : Env) (userMessage : string)
           (conversationHistory : list Message) (svc : Service)
  : Outcome Completion * Service :=
  let rate_limited :=
    match rateLimitedUntil svc with
    | Some t => (0 <? t) && (now env <? t)
    | None => false
    end in
  if rate_limited
  then (Returns (getMockResponse userMessage (Some "Rate limited")), svc)
  else if useMockResponse svc || (maxFailures svc <=? failureCount svc)
  then (Returns (getMockResponse userMessage None), svc)
  else
    let relevantContext := getRelevantContext userMessage in
    let has_context :=
      match relevantContext with
      | Some ctx => JsString.truthy ctx
      | None => false
      end in
    match completions_create env
            (request userMessage conversationHistory relevantContext) with
    | Throws e => (Throws e, svc)
    | Returns r =>
        match api_choice r with
        | None => (Throws (Error "No response from OpenAI"), svc)
        | Some reply =>
            (Returns
               (mkCompletion reply
                  (mkMetadata (Some (api_model r))
                     (Some (match total_tokens r with
                            | Some n => n
                            | None => 0
                            end))
                     (Some (if has_context then 8 else 5))
                     (Some has_context) (Some false) None None None)),
             mkService (useMockResponse svc) None 0 (maxFailures svc))
        end
    end.

Definition status_is (e : JsError) (codes : list nat) : bool :=
  match err_status e with
  | Some n => existsb (Nat.eqb n) codes
  | None => false
  end.

(** The [catch] block. *)
Definition recover (env : Env) (userMessage : string) (e : JsError)
           (svc : Service) : Outcome Completion * Service :=
  if status_is e [401] then
    (Returns (getMockResponse userMessage (Some "Invalid API key")),
     mkService true (rateLimitedUntil svc) (failureCount svc)
               (maxFailures svc))
  else if status_is e [429] then
    let retryAfter :=
      match err_retry_after e with
      | Some n => n
      | None => 60
      end in
    (Returns (getMockResponse userMessage (Some "Rate limit exceeded")),
     mkService (useMockResponse svc) (Some (now env + retryAfter * 1000))
               (failureCount svc) (maxFailures svc))
  else if status_is e [500; 502; 503] then
    (Returns (getMockResponse userMessage (Some "Service unavailable")),
     mkService (useMockResponse svc) (rateLimitedUntil svc)
               (S (failureCount svc)) (maxFailures svc))
  else if String.eqb (err_name e) "AbortError" then
    (Returns (getMockResponse userMessage (Some "Request timeout")), svc)
  else
    (Returns (getMockResponse userMessage (Some "Service error")),
     mkService (useMockResponse svc) (rateLimitedUntil svc)
               (S (failureCount svc)) (maxFailures svc)).

Definition generateResponse (env : Env) (userMessage : string)
           (conversationHistory : list Message) (svc : Service)
  : Outcome Completion * Service :=
  match attempt env userMessage conversationHistory svc with
  | (Returns r, svc') => (Returns r, svc')
  | (Throws e, svc') => recover env userMessage e svc'
  end.

End OpenAIService.

(* ===================================================================== *)
(** ** backend/controllers/chatController.js                              *)
(* ===================================================================== *)

Module ChatController.

Inductive Status := active | closed | archived.

(** A conversation document (models/Conversation.js), with the fields the
    controller sets. *)
Record Conversation := mkConversation {
  doc_id           : ConvId;
  doc_userId       : option UserId;
  doc_sessionId    : string;
  doc_title        : string;
  doc_messages     : list Message;
  doc_status       : Status;
  doc_lastActivity : Time
}.

(** Events the server emits on a socket. *)
Inductive ServerEvent :=
| botTyping (conversationId : option ConvId)
| botStoppedTyping (conversationId : option ConvId)
| messageSent (message : Message)
| botMessage (message : Message) (meta : Metadata)
| error (message : string).

(** JSON bodies of the HTTP replies of [sendMessage]. *)
Inductive Body :=
| Failure (error code : string)
| Sent (note : string) (conversation : Conversation)
       (userMessage botMessage : Message) (meta : Metadata).

(** What a handler does to the outside world, in the order it does it.
    A database call is logged with whether it resolved ([true]) or
    rejected.  A [Save] records the document as it is handed to the
    database: the messages pushed onto it have been cast by the schema. *)
Inductive Action :=
| ToRoom (room : option UserId) (e : ServerEvent)  (* socket.to(userId).emit *)
| ToSender (e : ServerEvent)                       (* socket.emit *)
| FindOne (ok : bool)                              (* Conversation.findOne *)
| Save (doc : Conversation) (ok : bool)            (* conversation.save() *)
| Populate (ok : bool)                             (* conversation.populate *)
| Respond (status : nat) (body : Body).            (* res.status(..).json(..) *)

(** What one handler run reads from outside: the clock (the k-th
    [new Date()] of the run), the identifiers given to a new document, and
    the document [Conversation.findOne] resolves to. *)
Record Env := mkEnv {
  clock    : nat -> Time;
  objectId : ConvId;
  uuidv4   : string;
  findOne  : option Conversation
}.

Record Request := mkRequest {
  body_message        : option string;
  body_conversationId : option ConvId;
  req_userId          : UserId
}.

(** The [data] of a [newMessage] socket event. *)
Record Data := mkData {
  data_message        : option string;
  data_conversationId : option ConvId;
  data_userId         : option UserId
}.

Definition apology : string :=
  "I apologize, but I'm currently experiencing technical difficulties. Please try again in a moment.".

(** [message.substring(0, 50) + (message.length > 50 ? '...' : '')] *)
Definition auto_title (message : string) : string :=
  (JsString.substring0 50 message
   ++ (if (50 <? JsString.length message)%nat then "..." else ""))%string.

Definition plain (s : Sender) (c : string) (t : Time) (md : option Metadata)
  : Message :=
  mkMessage s c t text false None md.

(** What the message schema (models/Conversation.js, lines 3-37) makes of
    an object pushed onto [messages]: the content is trimmed, and of
    [metadata] only [confidence], [model] and [tokens] are kept; metadata
    with none of them is not kept at all.  Keys outside the schema are
    dropped.  The [_id] that Mongoose gives a stored message is left
    out: the sources use it only as a key for display. *)
Definition cast_metadata (md : option Metadata) : option Metadata :=
  match md with
  | Some m =>
      match md_model m, md_tokens m, md_confidence m with
      | None, None, None => None
      | model, tokens, confidence =>
          Some (mkMetadata model tokens confidence None None None None None)
      end
  | None => None
  end.

Definition cast (m : Message) : Message :=
  mkMessage (sender m) (JsString.trim (content m)) (timestamp m)
            (messageType m) false None (cast_metadata (metadata m)).

Section Router.

(** The completion step the router calls, with the state it keeps
    between calls. *)
Variable Provider : Type.
Variable generateResponse :
  string -> list Message -> Provider -> Outcome Completion * Provider.

Variable env : Env.

(** The state a handler run threads: the provider, the log of actions so
    far, the number of clock readings, the results of the database calls
    still to come (none listed: the call resolves), and the handler's
    local [conversation]. *)
Record World := mkWorld {
  provider     : Provider;
  log          : list Action;
  reads        : nat;
  db_results   : list bool;
  conversation : option Conversation
}.

(** A computation that reads and writes the world and may throw; what it
    did before throwing stays done. *)
Definition M (A : Type) : Type := World -> Outcome A * World.

Definition ret {A} (a : A) : M A := fun w => (Returns a, w).

Definition bind {A B} (m : M A) (k : A -> M B) : M B :=
  fun w =>
    match m w with
    | (Returns a, w') => k a w'
    | (Throws e, w') => (Throws e, w')
    end.

Definition throw {A} (e : JsError) : M A := fun w => (Throws e, w).

(** [try { body } catch (e) { handler(e) }] *)
Definition try_catch {A} (body : M A) (handler : JsError -> M A) : M A :=
  fun w =>
    match body w with
    | (Returns a, w') => (Returns a, w')
    | (Throws e, w') => handler e w'
    end.

Notation "x <- m ;; k" := (bind m (fun x => k))
  (at level 61, m at next level, right associativity).
Notation "m ;;; k" := (bind m (fun _ => k))
  (at level 61, right associativity).

Definition act (a : Action) : M unit :=
  fun w => (Returns tt,
            mkWorld (provider w) (log w ++ [a]) (reads w) (db_results w)
                    (conversation w)).

(** [new Date()] *)
Definition new_Date : M Time :=
  fun w => (Returns (clock env (reads w)),
            mkWorld (provider w) (log w) (S (reads w)) (db_results w)
                    (conversation w)).

(** An awaited database call: it resolves or rejects as the world
    decides. *)
Definition await_db (a : bool -> Action) : M unit :=
  fun w =>
    let ok := match db_results w with [] => true | b :: _ => b end in
    let w' := mkWorld (provider w) (log w ++ [a ok]) (reads w)
                      (tl (db_results w)) (conversation w) in
    if ok then (Returns tt, w')
    else (Throws (mkJsError "MongoError" "database call rejected" None None),
          w').

Definition set_conversation (c : Conversation) : M unit :=
  fun w => (Returns tt,
            mkWorld (provider w) (log w) (reads w) (db_results w) (Some c)).

(** Reading the local [conversation]; it is always set before use. *)
Definition the_conversation : M Conversation :=
  fun w =>
    match conversation w with
    | Some c => (Returns c, w)
    | None => (Throws (mkJsError "TypeError" "conversation is null" None None), w)
    end.

(** [conversation.messages.push(m)]: the array holds the object as the
    schema casts it. *)
Definition push (m : Message) : M unit :=
  c <- the_conversation ;;
  set_conversation
    (mkConversation (doc_id c) (doc_userId c) (doc_sessionId c)
       (doc_title c) (doc_messages c ++ [cast m]) (doc_status c)
       (doc_lastActivity c)).

(** [conversation.lastActivity = new Date()] *)
Definition touch : M unit :=
  t <- new_Date ;;
  c <- the_conversation ;;
  set_conversation
    (mkConversation (doc_id c) (doc_userId c) (doc_sessionId c)
       (doc_title c) (doc_messages c) (doc_status c) t).

(** [await conversation.save()] *)
Definition save : M unit :=
  c <- the_conversation ;;
  await_db (Save c).

(** [new Conversation({ userId, sessionId: uuidv4(), title, messages: [],
    status: 'active' })]; [lastActivity] defaults to [Date.now]. *)
Definition new_Conversation (userId : option UserId) (message : string)
  : M unit :=
  t <- new_Date ;;
  set_conversation
    (mkConversation (objectId env) userId (uuidv4 env) (auto_title message)
                    [] active t).

Definition generate (message : string) (history : list Message)
  : M Completion :=
  fun w =>
    let (o, p) := generateResponse message history (provider w) in
    (o, mkWorld p (log w) (reads w) (db_results w) (conversation w)).

Definition respond (status : nat) (b : Body) : M unit :=
  act (Respond status b).

(** *** sendMessage (lines 66-199): the HTTP path *)

(** The inner [try] of [sendMessage]. *)
Definition sendMessage_reply (message : string) (userMessage : Message)
  : M unit :=
  c <- the_conversation ;;
  aiResponse <- generate message
                  (OpenAIService.last_n 10 (doc_messages c)) ;;
  t <- new_Date ;;
  let botMessage :=
    plain bot (response aiResponse) t (Some (reply_metadata aiResponse)) in
  push botMessage ;;;
  touch ;;;
  save ;;;
  await_db Populate ;;;
  c' <- the_conversation ;;
  respond 200
    (Sent "Message sent successfully" c' userMessage botMessage
          (reply_metadata aiResponse)).

(** Its [catch (aiError)]. *)
Definition sendMessage_aiError (userMessage : Message) (aiError : JsError)
  : M unit :=
  touch ;;;
  save ;;;
  t <- new_Date ;;
  let errorMessage := plain bot apology t (Some error_metadata) in
  push errorMessage ;;;
  save ;;;
  c' <- the_conversation ;;
  respond 200
    (Sent "Message sent, but AI response failed" c' userMessage
          errorMessage aiError_metadata).

Definition has_id (conversationId : option ConvId) : bool :=
  match conversationId with
  | Some i => JsString.truthy i
  | None => false
  end.

Definition sendMessage_body (req : Request) : M unit :=
  match body_message req with
  | None =>
      respond 400 (Failure "Message content is required" "EMPTY_MESSAGE")
  | Some message =>
      if negb (JsString.truthy message)
         || negb (JsString.truthy (JsString.trim message))
      then respond 400
             (Failure "Message content is required" "EMPTY_MESSAGE")
      else if 4000 <? JsString.length message
      then respond 400
             (Failure "Message too long. Maximum 4000 characters allowed."
                      "MESSAGE_TOO_LONG")
      else
        let continue : M unit :=
          t <- new_Date ;;
          let userMessage := plain user (JsString.trim message) t None in
          push userMessage ;;;
          try_catch (sendMessage_reply message userMessage)
                    (sendMessage_aiError userMessage) in
        if has_id (body_conversationId req)
        then
          await_db FindOne ;;;
          match findOne env with
          | Some c => set_conversation c ;;; continue
          | None =>
              respond 404
                (Failure "Conversation not found" "CONVERSATION_NOT_FOUND")
          end
        else
          new_Conversation (Some (req_userId req)) message ;;; continue
  end.

Definition sendMessage (req : Request) : M unit :=
  try_catch (sendMessage_body req)
    (fun _ => respond 500
                (Failure "Failed to send message" "SEND_MESSAGE_ERROR")).

(** *** socketHandlers.handleNewMessage (lines 452-523): the socket path *)

(** Calling a string method on [message]: a [TypeError] when it is
    missing. *)
Definition the_string (message : option string) : M string :=
  match message with
  | Some m => ret m
  | None =>
      throw (mkJsError "TypeError" "Cannot read properties of undefined"
                       None None)
  end.

(** The inner [try] of [handleNewMessage]. *)
Definition handleNewMessage_reply (data : Data) (message : string) : M unit :=
  c <- the_conversation ;;
  aiResponse <- generate message (doc_messages c) ;;
  t <- new_Date ;;
  let botMsg :=
    plain bot (response aiResponse) t (Some (reply_metadata aiResponse)) in
  push botMsg ;;;
  touch ;;;
  save ;;;
  act (ToRoom (data_userId data)
              (botStoppedTyping (data_conversationId data))) ;;;
  act (ToSender (botMessage botMsg (reply_metadata aiResponse))).

(** Its [catch (aiError)]. *)
Definition handleNewMessage_aiError (data : Data) (aiError : JsError)
  : M unit :=
  act (ToRoom (data_userId data)
              (botStoppedTyping (data_conversationId data))) ;;;
  t <- new_Date ;;
  let errorMessage := plain bot apology t (Some error_metadata) in
  push errorMessage ;;;
  save ;;;
  act (ToSender (botMessage errorMessage error_metadata)).

Definition handleNewMessage_body (data : Data) : M unit :=
  act (ToRoom (data_userId data) (botTyping (data_conversationId data))) ;;;
  await_db FindOne ;;;
  match findOne env with
  | Some c => set_conversation c
  | None =>
      message <- the_string (data_message data) ;;
      new_Conversation (data_userId data) message
  end ;;;
  message <- the_string (data_message data) ;;
  t <- new_Date ;;
  let userMessage := plain user (JsString.trim message) t None in
  push userMessage ;;;
  act (ToSender (messageSent userMessage)) ;;;
  try_catch (handleNewMessage_reply data message)
            (handleNewMessage_aiError data).

Definition handleNewMessage (data : Data) : M unit :=
  try_catch (handleNewMessage_body data)
    (fun _ => act (ToSender (error "Failed to process message"))).

(** The world a handler starts in. *)
Definition start (p : Provider) (results : list bool) : World :=
  mkWorld p [] 0 results None.

End Router.

Arguments mkWorld {Provider}.
Arguments provider {Provider}.
Arguments log {Provider}.
Arguments reads {Provider}.
Arguments db_results {Provider}.
Arguments conversation {Provider}.
Arguments start {Provider}.
Arguments sendMessage {Provider}.
Arguments handleNewMessage {Provider}.

(** *** Observations on a log *)

(** The apologetic reply of a [catch (aiError)] block, as it is sent. *)
Definition is_fallback_reply (a : Action) : bool :=
  match a with
  | ToSender (botMessage _ md) => option_eqb Bool.eqb (md_error md) (Some true)
  | Respond _ (Sent _ _ _ _ md) => option_eqb Bool.eqb (md_aiError md) (Some true)
  | _ => false
  end.

(** A failure reported to the caller: an [error] event or an HTTP status
    other than 200. *)
Definition is_send_failure (a : Action) : bool :=
  match a with
  | ToSender (error _) => true
  | Respond status _ => negb (status =? 200)
  | _ => false
  end.

(** Whether every [messageSent] in the log confirms a message that a
    successful [save] had already written when it was emitted; [saved]
    holds the documents written so far. *)
Fixpoint confirmations_persisted (saved : list Conversation)
         (l : list Action) : bool :=
  match l with
  | [] => true
  | Save doc true :: r => confirmations_persisted (doc :: saved) r
  | ToSender (messageSent m) :: r =>
      existsb (fun d => existsb (message_eqb m) (doc_messages d)) saved
      && confirmations_persisted saved r
  | _ :: r => confirmations_persisted saved r
  end.

(** The document as the last successful [save] left it. *)
Fixpoint stored (l : list Action) : option Conversation :=
  match l with
  | [] => None
  | Save doc true :: r =>
      match stored r with
      | Some d => Some d
      | None => Some doc
      end
  | _ :: r => stored r
  end.

(** All database calls of a run resolve. *)
Definition all_resolve (results : list bool) : Prop :=
  forallb (fun b => b) results = true.

(** The stored shape of a message: everything but the instant. *)
Definition shape (m : Message)
  : Sender * string * MessageType * option Metadata :=
  (sender m, content m, messageType m, metadata m).

(** What [sendMessage] accepts: [message] is not blank and its [length]
    is at most 4000. *)
Definition acceptable (message : string) : Prop :=
  JsString.truthy message = true
  /\ JsString.truthy (JsString.trim message) = true
  /\ JsString.length message <= 4000.

(** The messages already in the conversation a run works on. *)
Definition prior (env : Env) : list Message :=
  match findOne env with
  | Some c => doc_messages c
  | None => []
  end.

(** The messages already in the conversation the HTTP path works on:
    those of the conversation found when an id is given. *)
Definition prior_http (env : Env) (cid : option ConvId) : list Message :=
  if has_id cid then prior env else [].

End ChatController.

(* ===================================================================== *)
(** ** Invariants and handler classes of the client store                 *)
(* ===================================================================== *)

Module ChatStoreInvariants.
Import ChatStore.

(** The fields the reconnection logic reads and writes. *)
Definition retry_view (s : Store) : nat * nat * bool :=
  (maxRetries s, connectionRetries s, isConnected s).

(** A store update that does not touch them. *)
Definition neutral (f : Store -> Store) : Prop :=
  forall s, retry_view (f s) = retry_view s.

(** A handler that does not touch them and schedules no retry. *)
Definition plain (h : Handler) : Prop :=
  forall c, retry_view (store (fst (h c))) = retry_view (store c)
            /\ retries_scheduled (snd (h c)) = 0.

Definition quiet (h : Handler) : Prop :=
  forall c, retries_scheduled (snd (h c)) = 0.

(** One step, seen through the retry bookkeeping: [n] retries are
    scheduled; either the counter grows by [n] (and a retry is scheduled
    only below the ceiling, by a store that is not connected), or the
    event resets the counter and schedules nothing. *)
Definition step_effect (ev : Event) (before after : Store) (n : nat) : Prop :=
  maxRetries after = maxRetries before
  /\ ((connectionRetries after = connectionRetries before + n
       /\ (n = 0 \/ n = 1 /\ connectionRetries before < maxRetries before
                           /\ isConnected after = false)
       /\ (isConnected after = true -> isConnected before = true))
      \/ (resets ev = true /\ connectionRetries after = 0 /\ n = 0)).

(** Timers and requests created so far have identifiers below the next
    one to be handed out. *)
Definition fresh_inv (c : Client) : Prop :=
  (forall k t, In (k, t) (timers c) -> k < nextTimer c)
  /\ (forall k f, In (k, f) (inflight c) -> k < nextReq c).

Definition keeps_fresh (h : Handler) : Prop :=
  forall c, fresh_inv c -> fresh_inv (fst (h c)).

Definition retry_inv (s : Store) : Prop :=
  maxRetries s = 5 /\ connectionRetries s <= maxRetries s
  /\ (isConnected s = true -> connectionRetries s = 0).


End ChatStoreInvariants.

(* ===================================================================== *)
(** ** Concrete runs                                                      *)
(* ===================================================================== *)

Module ClientScenarios.
Import ChatStore.

(** A logged-in user; the clock is not advanced. *)
Definition an_env : Env := mkEnv 0 true (Some "token") (Some "u1").

(** The store opens a socket and five connection attempts fail in a row. *)
Definition five_errors : list (Env * Event) :=
  (an_env, call_connectSocket)
    :: repeat (an_env, on_connect_error "xhr poll error") 5.

(** The user message "Hello" as the socket path confirms it. *)
Definition hello_confirmed : Message :=
  mkMessage user "Hello" 7 text false None None.

(** The user connects and opens the conversation "c1". *)
Definition connected_with_conversation : list (Env * Event) :=
  [ (an_env, call_connectSocket);
    (an_env, on_connect);
    (an_env, call_setCurrentConversation
               (Some (mkConversation "c1" "Support" 5 []))) ].

(** Then "Hello" is sent through the socket and the server's confirmation
    is delivered twice. *)
Definition confirmed_twice : list (Env * Event) :=
  connected_with_conversation ++
  [ (an_env, call_sendMessageViaSocket (Some "Hello") None);
    (an_env, on_messageSent (Some hello_confirmed));
    (an_env, on_messageSent (Some hello_confirmed)) ].

(** The client after [connected_with_conversation]. *)
Definition ready : Client :=
  Eval vm_compute in fst (run connected_with_conversation initial).

(** The client of [confirmed_twice] just before the first confirmation:
    one optimistic message is pending. *)
Definition awaiting_confirmation : Client :=
  Eval vm_compute in fst (run (firstn 4 confirmed_twice) initial).

(** The same user message and the bot's reply as the HTTP path returns
    them, and the reply as the returned conversation holds it. *)
Definition hello_via_api : Message :=
  mkMessage user "Hello" 8 text false None None.

Definition reply_via_api : Message :=
  mkMessage bot
    "👋 Hello! Welcome to our customer support. How can I assist you today?"
    9 text false None
    (Some (mkMetadata (Some "mock-response") (Some 70) (Some 7) (Some true)
                      (Some true) None None None)).

Definition reply_stored : Message :=
  mkMessage bot
    "👋 Hello! Welcome to our customer support. How can I assist you today?"
    9 text false None
    (Some (mkMetadata (Some "mock-response") (Some 70) (Some 7) None None
                      None None None)).

(** Scenario D with a late confirmation: "Hello" is sent through the
    socket (timer 1 is the heartbeat, timer 2 the send's timeout), the
    timeout fires, the HTTP fallback (request 1) is answered, and only then
    the socket's confirmation arrives. *)
Definition late_confirmation : list (Env * Event) :=
  connected_with_conversation ++
  [ (an_env, call_sendMessageViaSocket (Some "Hello") (Some "c1"));
    (an_env, timer_fires 2);
    (an_env, api_replies 1
               (ApiOk (mkConversation "c1" "Support" 10
                                      [hello_via_api; reply_stored])
                      (Some hello_via_api)));
    (an_env, on_messageSent (Some hello_confirmed)) ].

(** Another conversation of the same user, which the user opens while a
    send is waiting for its confirmation. *)
Definition other_conversation : Conversation :=
  mkConversation "c2" "Billing" 6 [].

Definition switched : list (Env * Event) :=
  [ (an_env, call_setCurrentConversation (Some other_conversation)) ].

(** The first connection attempt has failed and a retry is scheduled. *)
Definition retry_pending : Client :=
  Eval vm_compute in
    fst (run [ (an_env, call_connectSocket);
               (an_env, on_connect_error "xhr poll error") ] initial).

End ClientScenarios.

Module RouterScenarios.
Import ChatController.

(** A provider that is rate limited on every call. *)
Definition rate_limited : OpenAIService.Env :=
  OpenAIService.mkEnv 1000
    (fun _ => Throws (mkJsError "RateLimitError" "Rate limit reached"
                                (Some 429) (Some 30))).

(** The service with an API key configured, and without one. *)
Definition service : OpenAIService.Service := OpenAIService.create true.

Definition mock_service : OpenAIService.Service := OpenAIService.create false.

(** One run of the server for a user without conversations. *)
Definition first_contact : Env :=
  mkEnv (fun k => 100 + k) "64a0c1" "1b9d6bcd" None.

Definition hello : Data := mkData (Some "Hello") None (Some "u1").

Definition hello_request : Request := mkRequest (Some "Hello") None "u1".

(** The socket path with the real service; the save after the completion
    is rejected, the one in the [catch] block resolves. *)
Definition save_rejected_once : list Action :=
  log (snd (handleNewMessage (OpenAIService.generateResponse rate_limited)
              first_contact hello (start service [true; false; true]))).

(** The socket path with the real service; every save is rejected. *)
Definition saves_rejected : list Action :=
  log (snd (handleNewMessage (OpenAIService.generateResponse rate_limited)
              first_contact hello (start service [true; false; false]))).

(** The socket path with the real service and a healthy database. *)
Definition healthy : list Action :=
  log (snd (handleNewMessage (OpenAIService.generateResponse rate_limited)
              first_contact hello (start service []))).

(** The server side of [ClientScenarios.late_confirmation]: the stored
    conversation "c1", the run of the socket path for "Hello" at instant 7,
    and the run of the HTTP path for the fallback at instant 8, both
    finding the conversation still empty. *)
Definition c1 : Conversation :=
  mkConversation "c1" (Some "u1") "0e37df36" "Support" [] active 5.

Definition socket_attempt : list Action :=
  log (snd (handleNewMessage (OpenAIService.generateResponse rate_limited)
              (mkEnv (fun k => 7 + k) "64a0c2" "9c5b94b1" (Some c1))
              (mkData (Some "Hello") (Some "c1") (Some "u1"))
              (start mock_service []))).

Definition http_fallback : list Action :=
  log (snd (sendMessage (OpenAIService.generateResponse rate_limited)
              (mkEnv (fun k => 8 + k) "64a0c3" "6ec0bd7f" (Some c1))
              (mkRequest (Some "Hello") (Some "c1") "u1")
              (start mock_service []))).

(** The [conversation] object of the HTTP reply, as the client reads it. *)
Definition to_client (doc : Conversation) : ChatStore.Conversation :=
  ChatStore.mkConversation (doc_id doc) (doc_title doc) (doc_lastActivity doc)
                           (doc_messages doc).

End RouterScenarios.

(* ===================================================================== *)
(** ** Timers and the idle store: invariants of the client               *)
(* ===================================================================== *)

Module TimerInvariants.
Import ChatStore.

Definition is_heartbeat (p : nat * Timer) : bool :=
  match snd p with
  | HeartbeatTimer => true
  | _ => false
  end.

Definition is_reconnect (p : nat * Timer) : bool :=
  match snd p with
  | ReconnectTimer => true
  | _ => false
  end.

(** Heartbeat intervals and reconnection timers that are pending. *)
Definition heartbeats (c : Client) : nat :=
  length (filter is_heartbeat (timers c)).

Definition reconnections (c : Client) : nat :=
  length (filter is_reconnect (timers c)).

(** The timer table is well formed (identifiers below the next one, no
    identifier twice), every pending heartbeat interval is [hb] and every
    pending reconnection timer is [rc]. *)
Definition tracked (hb rc : option nat) (c : Client) : Prop :=
  (forall k t, In (k, t) (timers c) -> k < nextTimer c)
  /\ NoDup (map fst (timers c))
  /\ (forall k, In (k, HeartbeatTimer) (timers c) -> hb = Some k)
  /\ (forall k, In (k, ReconnectTimer) (timers c) -> rc = Some k).

(** The identifiers the store holds were handed out by [setTimeout]. *)
Definition known (c : Client) : Prop :=
  (forall k, heartbeatInterval (store c) = Some k -> k < nextTimer c)
  /\ (forall k, reconnectTimeout (store c) = Some k -> k < nextTimer c).

(** The store knows the timers it has to clear. *)
Definition timers_inv (c : Client) : Prop :=
  tracked (heartbeatInterval (store c)) (reconnectTimeout (store c)) c
  /\ known c.

(** The two fields that hold timer identifiers. *)
Definition timer_fields (s : Store) : option nat * option nat :=
  (heartbeatInterval s, reconnectTimeout s).

Definition timer_neutral (f : Store -> Store) : Prop :=
  forall s, timer_fields (f s) = timer_fields s.

(** A handler that keeps the table tracked by the same identifiers and
    does not write the two fields. *)
Definition timer_plain (h : Handler) : Prop :=
  forall hb rc c,
    tracked hb rc c ->
    tracked hb rc (fst (h c))
    /\ timer_fields (store (fst (h c))) = timer_fields (store c)
    /\ nextTimer c <= nextTimer (fst (h c)).

Definition keeps_timers (h : Handler) : Prop :=
  forall c, timers_inv c -> timers_inv (fst (h c)).

(** The table after [setTimeout] has handed out the next identifier. *)
Definition armed (t : Timer) (c : Client) : Client :=
  mkClient (store c) (timers c ++ [(nextTimer c, t)]) (S (nextTimer c))
           (inflight c) (nextReq c).

(** What a store without a socket looks like. *)
Definition idle (s : Store) : Prop :=
  isConnected s = false /\ isTyping s = false /\ connectionRetries s = 0
  /\ heartbeatInterval s = None /\ reconnectTimeout s = None.

Definition idle_inv (s : Store) : Prop := socket s = None -> idle s.

Definition has_socket (s : Store) : bool :=
  match socket s with
  | Some _ => true
  | None => false
  end.

(** The fields [idle] reads, and whether there is a socket. *)
Definition idle_view (s : Store)
  : bool * bool * bool * nat * option nat * option nat :=
  (has_socket s, isConnected s, isTyping s, connectionRetries s,
   heartbeatInterval s, reconnectTimeout s).

(** A handler, and a store update, that keeps a socket once there is
    one. *)
Definition keeps_socket (h : Handler) : Prop :=
  forall c, has_socket (store c) = true ->
            has_socket (store (fst (h c))) = true.

Definition socket_safe (f : Store -> Store) : Prop :=
  forall s, has_socket s = true -> has_socket (f s) = true.

Definition keeps_idle (h : Handler) : Prop :=
  forall c, idle_inv (store c) -> idle_inv (store (fst (h c))).

(** Handlers and store updates that leave a view of the store as it is. *)
Section Views.

Context {V : Type} (view : Store -> V).

Definition unseen (f : Store -> Store) : Prop :=
  forall s, view (f s) = view s.

Definition preserves (h : Handler) : Prop :=
  forall c, view (store (fst (h c))) = view (store c).

End Views.

(** The delays of the reconnection timers that a list of effects sets. *)
Fixpoint retry_delays (l : list Effect) : list N :=
  match l with
  | [] => []
  | SetTimeout _ ReconnectTimer d :: r => d :: retry_delays r
  | _ :: r => retry_delays r
  end.

(** The delays the source's comment lists: 1s, 2s, 4s, 8s, 16s. *)
Definition standard_delay (d : N) : Prop :=
  In d [1000; 2000; 4000; 8000; 16000]%N.

(** A handler that sets reconnection timers with these delays only, as
    long as the ceiling is 5. *)
Definition paced (h : Handler) : Prop :=
  forall c, maxRetries (store c) = 5 ->
            Forall standard_delay (retry_delays (snd (h c)))
            /\ maxRetries (store (fst (h c))) = 5.

Definition keeps_ceiling (f : Store -> Store) : Prop :=
  forall s, maxRetries (f s) = maxRetries s.

(** The error message a failed send shows. *)
Definition send_error (serverError : option string) : string :=
  match serverError with
  | Some e => if JsString.truthy e then e else "Failed to send message"
  | None => "Failed to send message"
  end.

End TimerInvariants.

Module TimerScenarios.
Import ChatStore ClientScenarios.

(** Two messages are sent through the socket and neither is confirmed
    yet: timers 2 and 3 are their timeouts. *)
Definition two_pending : Client :=
  Eval vm_compute in
    fst (run (connected_with_conversation ++
              [ (an_env, call_sendMessageViaSocket (Some "Hello") None);
                (an_env, call_sendMessageViaSocket (Some "Are you there?") None) ])
             initial).

End TimerScenarios.

(* ===================================================================== *)
(** ** Observations on a run of the router                                *)
(* ===================================================================== *)

Module RouterObservations.
Import ChatController.

(** An HTTP reply. *)
Definition is_response (a : Action) : bool :=
  match a with
  | Respond _ _ => true
  | _ => false
  end.

(** What ends a socket exchange for the sender: the bot's message or an
    [error] event. *)
Definition is_terminal (a : Action) : bool :=
  match a with
  | ToSender (botMessage _ _) | ToSender (error _) => true
  | _ => false
  end.

Definition is_confirmation (a : Action) : bool :=
  match a with
  | ToSender (messageSent _) => true
  | _ => false
  end.

(** The documents handed to [save], in order, whether or not the call
    resolved. *)
Fixpoint saves (l : list Action) : list Conversation :=
  match l with
  | [] => []
  | Save doc _ :: r => doc :: saves r
  | _ :: r => saves r
  end.

Definition count (f : Action -> bool) (l : list Action) : nat :=
  length (filter f l).

(** The fields of a document that identify it. *)
Definition identity (c : Conversation)
  : ConvId * option UserId * string * string * Status :=
  (doc_id c, doc_userId c, doc_sessionId c, doc_title c, doc_status c).

(** [!message || !message.trim()] on the request body. *)
Definition empty_body (message : option string) : bool :=
  match message with
  | None => true
  | Some m => negb (JsString.truthy m) || negb (JsString.truthy (JsString.trim m))
  end.

End RouterObservations.

(* ===================================================================== *)
(** ** The completion service over several calls                          *)
(* ===================================================================== *)

Module ServiceRuns.
Import OpenAIService.

(** *** isMockMode, resetRateLimit, getStatus (lines 265-286) *)

Definition isMockMode (svc : Service) : bool := useMockResponse svc.

Definition resetRateLimit (svc : Service) : Service :=
  mkService (useMockResponse svc) None 0 (maxFailures svc).

(** The object [getStatus] returns.  [isRateLimited] is the value of
    [this.rateLimitedUntil && Date.now() < this.rateLimitedUntil]: the
    falsy [rateLimitedUntil] itself ([None] here) or a boolean. *)
Record ServiceStatus := mkServiceStatus {
  status_isMockMode       : bool;
  status_isRateLimited    : option bool;
  status_rateLimitedUntil : option Time;
  status_failureCount     : nat;
  status_maxFailures      : nat
}.

Definition getStatus (t : Time) (svc : Service) : ServiceStatus :=
  mkServiceStatus
    (useMockResponse svc)
    (match rateLimitedUntil svc with
     | Some u => if 0 <? u then Some (t <? u) else None
     | None => None
     end)
    (rateLimitedUntil svc) (failureCount svc) (maxFailures svc).

(** *** Calls one after the other *)

(** One call of [generateResponse]: the world it sees and its arguments. *)
Record Call := mkCall {
  call_env     : Env;
  call_message : string;
  call_history : list Message
}.

(** The calls in order on the singleton service; what each one returned
    and the service afterwards. *)
Fixpoint serve (calls : list Call) (svc : Service)
  : list (Outcome Completion) * Service :=
  match calls with
  | [] => ([], svc)
  | c :: rest =>
      let (o, svc1) :=
        generateResponse (call_env c) (call_message c) (call_history c) svc in
      let (os, svc2) := serve rest svc1 in
      (o :: os, svc2)
  end.

(** *** Observations *)

(** The service answers without calling the provider: no API key, an
    invalid one, or too many failures. *)
Definition breaker_open (svc : Service) : bool :=
  useMockResponse svc || (maxFailures svc <=? failureCount svc).

(** The service is inside a rate-limit window at instant [t]. *)
Definition limited (t : Time) (svc : Service) : bool :=
  match rateLimitedUntil svc with
  | Some u => (0 <? u) && (t <? u)
  | None => false
  end.

(** Errors of the provider that count as failures: a 500, 502 or 503, and
    anything that is not a 401, a 429 or an abort. *)
Definition counted (e : JsError) : bool :=
  negb (status_is e [401]) && negb (status_is e [429])
  && (status_is e [500; 502; 503]
      || negb (String.eqb (err_name e) "AbortError")).

(** A call whose request to the provider fails with a counted error. *)
Definition failing (c : Call) : Prop :=
  exists e, counted e = true
            /\ forall req, completions_create (call_env c) req = Throws e.

(** The provider fails every request with the error [e]: its call throws
    [e], or it answers without a choice, which the [try] block turns into
    an error of its own. *)
Definition provider_fails (env : Env) (e : JsError) : Prop :=
  forall req,
    match completions_create env req with
    | Throws e' => e' = e
    | Returns r => api_choice r = None /\ e = Error "No response from OpenAI"
    end.

(** The label the [catch] block gives to an error of the provider. *)
Definition failure_label (e : JsError) : string :=
  if status_is e [401] then "Invalid API key"
  else if status_is e [429] then "Rate limit exceeded"
  else if status_is e [500; 502; 503] then "Service unavailable"
  else if String.eqb (err_name e) "AbortError" then "Request timeout"
  else "Service error".

(** Whether a message finds anything in the knowledge base. *)
Definition has_context (userMessage : string) : bool :=
  match getRelevantContext userMessage with
  | Some _ => true
  | None => false
  end.

(** The completion built from an answer of the provider. *)
Definition completion_of (userMessage : string) (r : ApiResponse)
           (reply : string) : Completion :=
  mkCompletion reply
    (mkMetadata (Some (api_model r))
       (Some (match total_tokens r with Some n => n | None => 0 end))
       (Some (if has_context userMessage then 8 else 5))
       (Some (has_context userMessage)) (Some false) None None None).

End ServiceRuns.

Module ServiceScenarios.
Import OpenAIService ServiceRuns.

(** A call at instant 1000 that the provider fails with a 503. *)
Definition outage : Call :=
  mkCall (mkEnv 1000
            (fun _ => Throws (mkJsError "APIError" "Service Unavailable"
                                        (Some 503) None)))
         "Hello" [].

(** A provider that answers a 429 asking to wait 30 seconds, at instant
    1000. *)
Definition throttled : Env :=
  mkEnv 1000
    (fun _ => Throws (mkJsError "RateLimitError" "Rate limit reached"
                                (Some 429) (Some 30))).

(** A provider that answers, at instant 2000. *)
Definition answering : Env :=
  mkEnv 2000
    (fun _ => Returns (mkApiResponse "gpt-3.5-turbo"
                         (Some "You can reset it from the login page.")
                         (Some 42))).

End ServiceScenarios.

(* ===================================================================== *)
(** ** JavaScript numbers, as the handlers below use them                 *)
(* ===================================================================== *)

Module JsNumber.

(** The number JavaScript has for the integer [x]: [x] itself while it
    fits in 53 bits, and otherwise the nearest integer of 53 significant
    bits, the even one of two that are equally near.  (From 2^1024 on
    JavaScript has [Infinity]; no number is that large here.) *)
Definition round53 (x : Z) : Z :=
  let a := Z.abs x in
  let e := (Z.log2 a - 52)%Z in
  if (e <=? 0)%Z then x
  else
    let q := Z.shiftr a e in
    let r := (a - Z.shiftl q e)%Z in
    let half := Z.shiftl 1 (e - 1) in
    let up := (half <? r)%Z || ((r =? half)%Z && Z.odd q) in
    (Z.sgn x * Z.shiftl (if up then q + 1 else q) e)%Z.

(** [parseInt(x)] of a parameter that spells the integer [x]; [None] is
    [NaN], what [parseInt] gives for a missing or unreadable parameter. *)
Definition parseInt (x : option Z) : option Z := option_map round53 x.

(** [x || d] for a number [x]. *)
Definition or_default (x : option Z) (d : Z) : Z :=
  match x with
  | Some v => if (v =? 0)%Z then d else v
  | None => d
  end.

(** [Math.ceil(a / b)] for integers, [b] not 0. *)
Definition ceil_div (a b : Z) : Z := (- ((- a) / b))%Z.

End JsNumber.

(* ===================================================================== *)
(** ** backend/models/Conversation.js and the listing of conversations    *)
(* ===================================================================== *)

Module ConversationQueries.
Import ChatController JsNumber.

(** A stored document: the fields the router sets, and those the schema
    adds that the methods below read. *)
Record Document := mkDocument {
  doc       : Conversation;
  createdAt : Time;             (* timestamps: true *)
  resolved  : bool
}.

(** *** Conversation.js: addMessage, getSummary, the toJSON transform *)

(** [msg.sender === s] *)
Definition is_from (s : Sender) (m : Message) : bool :=
  sender_eqb (sender m) s.

(** [this.messages.push(messageData); this.lastActivity = new Date()]:
    the document that [addMessage] hands to [save], with the message as
    the schema casts it. *)
Definition addMessage (t : Time) (messageData : Message) (d : Document)
  : Document :=
  mkDocument
    (mkConversation (doc_id (doc d)) (doc_userId (doc d))
       (doc_sessionId (doc d)) (doc_title (doc d))
       (doc_messages (doc d) ++ [cast messageData]) (doc_status (doc d)) t)
    (createdAt d) (resolved d).

(** What [getSummary] returns; [duration] is a difference of instants. *)
Record SummaryView := mkSummaryView {
  totalMessages    : nat;
  userMessages     : nat;
  botMessages      : nat;
  duration         : Z;
  summary_status   : Status;
  summary_resolved : bool
}.

Definition getSummary (d : Document) : SummaryView :=
  mkSummaryView
    (length (doc_messages (doc d)))
    (length (filter (is_from user) (doc_messages (doc d))))
    (length (filter (is_from bot) (doc_messages (doc d))))
    (Z.of_nat (doc_lastActivity (doc d)) - Z.of_nat (createdAt d))
    (doc_status (doc d)) (resolved d).

(** [ret.messageCount = ret.messages.length] of the toJSON transform. *)
Definition messageCount (d : Document) : nat :=
  length (doc_messages (doc d)).

(** *** chatController.js: getConversations (lines 247-291) *)

(** [req.query]: the integer each parameter spells, if any. *)
Record Query := mkQuery {
  query_page  : option Z;
  query_limit : option Z
}.

(** The database as the handler sees it: the conversations of the user,
    most recent activity first, from which [skip] and [limit] cut a page,
    and their number. *)
Record Db := mkDb {
  find           : Z -> Z -> Outcome (list Document);
                   (* find({userId}).sort(..).skip(skip).limit(limit) *)
  countDocuments : Outcome Z
}.

(** One entry of the list in the reply. *)
Record Summary := mkSummary {
  sum_id           : ConvId;
  sum_sessionId    : string;
  sum_title        : string;
  sum_status       : Status;
  sum_messageCount : nat;
  sum_lastActivity : Time;
  sum_createdAt    : Time
}.

Record Pagination := mkPagination {
  current : Z;
  pages   : Z;
  total   : Z;
  hasNext : bool;
  hasPrev : bool
}.

Inductive Reply :=
| Listed (conversations : list Summary) (pagination : Pagination)
                                        (* res.json({ success: true, ... }) *)
| Failed (status : nat) (error code details : string).

Definition summarize (conv : Document) : Summary :=
  mkSummary (doc_id (doc conv)) (doc_sessionId (doc conv))
            (doc_title (doc conv)) (doc_status (doc conv))
            (length (doc_messages (doc conv)))
            (doc_lastActivity (doc conv)) (createdAt conv).

(** [parseInt(req.query.page) || 1] *)
Definition page_of (q : Query) : Z := or_default (parseInt (query_page q)) 1.

(** [Math.min(parseInt(req.query.limit) || 10, 50)] *)
Definition limit_of (q : Query) : Z :=
  Z.min (or_default (parseInt (query_limit q)) 10) 50.

(** [(page - 1) * limit], each operation rounded as JavaScript does. *)
Definition skip_of (q : Query) : Z :=
  round53 (round53 (page_of q - 1) * limit_of q).

Definition getConversations (db : Db) (q : Query) : Reply :=
  let page := page_of q in
  let limit := limit_of q in
  let skip := skip_of q in
  match find db skip limit with
  | Returns conversations =>
      match countDocuments db with
      | Returns total =>
          Listed (map summarize conversations)
                 (mkPagination page (ceil_div total limit) total
                               (page <? ceil_div total limit)%Z
                               (1 <? page)%Z)
      | Throws e =>
          Failed 500 "Failed to get conversations" "GET_CONVERSATIONS_ERROR"
                 (err_message e)
      end
  | Throws e =>
      Failed 500 "Failed to get conversations" "GET_CONVERSATIONS_ERROR"
             (err_message e)
  end.

(** What the route's [paginationValidation] lets through (routes/chat.js,
    lines 88-98): a page of at least 1 and a limit from 1 to 50, each
    optional. *)
Definition validated (q : Query) : Prop :=
  (forall p, query_page q = Some p -> (1 <= p)%Z)
  /\ (forall l, query_limit q = Some l -> (1 <= l <= 50)%Z).

End ConversationQueries.

Module QueryScenarios.
Import ChatController ConversationQueries.

(** A database that holds [stored], most recent activity first, and cuts
    pages out of it. *)
Definition holding (stored : list Document) : Db :=
  mkDb (fun skip limit =>
          Returns (firstn (Z.to_nat limit) (skipn (Z.to_nat skip) stored)))
       (Returns (Z.of_nat (length stored))).

Definition stored_conversation : Document :=
  mkDocument RouterScenarios.c1 0 false.

(** Three conversations are stored and the second page of two is asked
    for. *)
Definition three_stored : Db :=
  holding [stored_conversation; stored_conversation; stored_conversation].

Definition second_page : Query := mkQuery (Some 2%Z) (Some 2%Z).

End QueryScenarios.

(* ===================================================================== *)
(** ** frontend/src/services/apiService.js: requests and their retries    *)
(* ===================================================================== *)

Module ApiService.
Import JsNumber.

(** An entry of the [details] array of a validation error: [null], or
    anything else (a string, or an object read through [msg] and
    [message]). *)
Inductive Detail := NullDetail | SomeDetail.

(** What the state of the pipeline depends on in a response body
    ([response.data]): the code, the [details] when they are an array, and
    [retryAfter].  The rest of the body only chooses the text of a
    toast. *)
Record Data := mkData {
  data_code       : option string;
  data_details    : option (list Detail);
  data_retryAfter : option nat
}.

(** A response; [data] is [None] for a body that is [null]. *)
Record Response := mkResponse {
  status : nat;
  data   : option Data
}.

(** The error a rejected request carries, as the handlers inspect it. *)
Record Failure := mkFailure {
  response : option Response;     (* error.response *)
  request  : bool;                (* error.request is set *)
  code     : option string;       (* error.code *)
  message  : string               (* error.message *)
}.

(** [new Error(message)] and a [TypeError]: neither has a response, a
    request or a code. *)
Definition Error (message : string) : Failure :=
  mkFailure None false None message.

(** How the network answers a request that has left: with a response, or
    not at all.  The library resolves on a status from 200 to 299 and
    rejects otherwise. *)
Inductive Answer :=
| Replied (r : Response) (code : option string) (message : string)
| Silent (code : option string) (message : string).

(** The fields of the singleton the request pipeline reads and writes,
    and the two entries of [localStorage]. *)
Record Service := mkService {
  isOnline          : bool;
  connectionRetries : nat;
  maxRetries        : nat;
  rateLimitedUntil  : option Time;
  token             : option string;
  user              : option string
}.

(** The constructor. *)
Definition create (token user : option string) : Service :=
  mkService true 0 3 None token user.

(** The method, by what [method.toLowerCase()] selects. *)
Inductive Method := GET | POST | PUT | DELETE | Other (name : string).

(** What a call does that the outside can see: a request leaves (with the
    instant put in its [_t] parameter), the retry loop waits before its
    next attempt, the server-error handler waits, the page is sent to the
    login form. *)
Inductive Event :=
| Sent (instant : Time)
| Backoff (ms : N)            (* executeWithRetry *)
| Pause (ms : N)              (* handleServerError *)
| ToLogin.                   (* handleTokenExpiration *)

(** What a call reads from outside: the clock (the k-th [Date.now()]),
    the network's answer to the k-th request that leaves, and whether the
    page shown is the login or the registration form.  A call is followed
    on its own: no other call and no [online] or [offline] event of the
    window comes in between its steps. *)
Record Env := mkEnv {
  clock        : nat -> Time;
  network      : nat -> Answer;
  on_auth_page : bool
}.

Record World := mkWorld {
  service  : Service;
  reads    : nat;
  requests : nat;
  events   : list Event
}.

(** How an [await] ends. *)
Inductive Result (A : Type) :=
| Ok (a : A)
| Err (e : Failure).

Arguments Ok {A} a.
Arguments Err {A} e.

(** The statuses the library resolves on ([validateStatus]). *)
Definition fulfilled (r : Response) : bool :=
  (200 <=? status r) && (status r <? 300).

(** A number in a template string. *)
Definition show (z : Z) : string := NilZero.string_of_int (Z.to_int z).

(** The message of the error thrown while the service is rate limited. *)
Definition rateLimitMessage (remainingTime : Z) : string :=
  "Rate limited. Please wait " ++ show remainingTime ++ " more seconds.".

Section Pipeline.

Variable env : Env.

Definition M (A : Type) : Type := World -> Result A * World.

Definition ret {A} (a : A) : M A := fun w => (Ok a, w).

Definition bind {A B} (m : M A) (k : A -> M B) : M B :=
  fun w =>
    match m w with
    | (Ok a, w') => k a w'
    | (Err e, w') => (Err e, w')
    end.

Definition throw {A} (e : Failure) : M A := fun w => (Err e, w).

Notation "x <- m ;; k" := (bind m (fun x => k))
  (at level 61, m at next level, right associativity).
Notation "m ;;; k" := (bind m (fun _ => k))
  (at level 61, right associativity).

Definition get : M Service := fun w => (Ok (service w), w).

Definition modify (f : Service -> Service) : M unit :=
  fun w => (Ok tt, mkWorld (f (service w)) (reads w) (requests w) (events w)).

Definition emit (e : Event) : M unit :=
  fun w => (Ok tt, mkWorld (service w) (reads w) (requests w) (events w ++ [e])).

(** [Date.now()] *)
Definition Date_now : M Time :=
  fun w => (Ok (clock env (reads w)),
            mkWorld (service w) (S (reads w)) (requests w) (events w)).

(** The answer to the request that leaves now. *)
Definition exchange : M Answer :=
  fun w => (Ok (network env (requests w)),
            mkWorld (service w) (reads w) (S (requests w)) (events w)).

(** *** The rate-limit guard (lines 34-38 and 421-424) *)

Definition guard : M unit :=
  s <- get ;;
  match rateLimitedUntil s with
  | Some u =>
      if 0 <? u then
        now1 <- Date_now ;;
        if now1 <? u then
          now2 <- Date_now ;;
          throw (Error (rateLimitMessage
                          (ceil_div (Z.of_nat u - Z.of_nat now2) 1000)))
        else ret tt
      else ret tt
  | None => ret tt
  end.

(** *** The interceptors (lines 30-121) and the error handlers *)

(** The request interceptor: the guard, then the [_t] parameter. *)
Definition request_interceptor : M unit :=
  guard ;;;
  t <- Date_now ;;
  emit (Sent t).

(** The response interceptor of a fulfilled request. *)
Definition on_fulfilled (r : Response) : M Response :=
  modify (fun s => mkService true 0 (maxRetries s) None (token s) (user s)) ;;;
  ret r.

Definition clearAuthToken : M unit :=
  modify (fun s => mkService (isOnline s) (connectionRetries s) (maxRetries s)
                             None None None).

Definition handleTokenExpiration : M unit :=
  clearAuthToken ;;;
  if on_auth_page env then ret tt else emit ToLogin.

(** [data.retryAfter || 60] *)
Definition retryAfter (d : Data) : nat :=
  match data_retryAfter d with
  | Some n => if n =? 0 then 60 else n
  | None => 60
  end.

(** Reading [retryAfter] of a [null] body throws. *)
Definition handleRateLimitError (d : option Data) : M unit :=
  match d with
  | Some d =>
      now <- Date_now ;;
      modify (fun s => mkService (isOnline s) (connectionRetries s)
                                 (maxRetries s)
                                 (Some (now + retryAfter d * 1000))
                                 (token s) (user s))
  | None =>
      throw (Error "Cannot read properties of null (reading 'retryAfter')")
  end.

Definition handleServerError : M unit :=
  s <- get ;;
  if connectionRetries s <? maxRetries s then
    modify (fun s => mkService (isOnline s) (S (connectionRetries s))
                               (maxRetries s) (rateLimitedUntil s)
                               (token s) (user s)) ;;;
    emit (Pause (2000 * N.of_nat (S (connectionRetries s))))
  else ret tt.

(** The 400 case: the details of a validation error are read entry by
    entry, and reading [msg] of a [null] entry throws. *)
Definition is_null (d : Detail) : bool :=
  match d with
  | NullDetail => true
  | SomeDetail => false
  end.

Definition unreadable (d : option Data) : bool :=
  match d with
  | Some d =>
      match data_code d, data_details d with
      | Some c, Some details =>
          String.eqb c "VALIDATION_ERROR" && existsb is_null details
      | _, _ => false
      end
  | None => false
  end.

Definition handleBadRequest (d : option Data) : M unit :=
  if unreadable d
  then throw (Error "Cannot read properties of null (reading 'msg')")
  else ret tt.

(** The [switch] on the status; the other cases only show a toast. *)
Definition handleHttpError (r : Response) : M unit :=
  if status r =? 400 then handleBadRequest (data r)
  else if status r =? 401 then handleTokenExpiration
  else if status r =? 429 then handleRateLimitError (data r)
  else if existsb (Nat.eqb (status r)) [500; 502; 503; 504]
       then handleServerError
  else ret tt.

Definition handleNetworkError : M unit :=
  modify (fun s => mkService false (connectionRetries s) (maxRetries s)
                             (rateLimitedUntil s) (token s) (user s)).

(** The response interceptor of a rejected request. *)
Definition on_rejected (e : Failure) : M Response :=
  match response e with
  | Some r => handleHttpError r
  | None => if request e then handleNetworkError else ret tt
  end ;;;
  throw e.

(** What the network's answer makes of the request. *)
Definition dispatchRequest : M Response :=
  a <- exchange ;;
  match a with
  | Replied r c m =>
      if fulfilled r then ret r
      else throw (mkFailure (Some r) true c m)
  | Silent c m => throw (mkFailure None true c m)
  end.

(** [this.api.get(...)] and the like: the request interceptor, the
    request, then one of the response interceptors. *)
Definition api_call : M Response :=
  fun w =>
    match (request_interceptor ;;; dispatchRequest) w with
    | (Ok r, w') => on_fulfilled r w'
    | (Err e, w') => on_rejected e w'
    end.

(** *** executeWithRetry and shouldRetryRequest (lines 418-492) *)

Definition code_is (e : Failure) (names : list string) : bool :=
  match code e with
  | Some c => existsb (String.eqb c) names
  | None => false
  end.

Definition shouldRetryRequest (s : Service) (error : Failure)
           (retryCount : nat) : bool :=
  if maxRetries s <=? retryCount then false
  else
    match response error with
    | Some r =>
        if (400 <=? status r) && (status r <? 500) then false
        else (500 <=? status r)
             || code_is error ["ECONNABORTED"; "NETWORK_ERROR"; "ERR_NETWORK"]
    | None => true
    end.

(** [error.response?.status === 429] *)
Definition is_429 (e : Failure) : bool :=
  match response e with
  | Some r => status r =? 429
  | None => false
  end.

(** The [try] block. *)
Definition attempt (method : Method) : M Response :=
  guard ;;;
  match method with
  | Other name => throw (Error ("Unsupported HTTP method: " ++ name))
  | _ => api_call
  end.

(** [Math.min(1000 * Math.pow(2, retryCount), 5000)] *)
Definition delay (retryCount : nat) : N :=
  N.min (1000 * 2 ^ N.of_nat retryCount) 5000.

(** The call and its retries; [None] when [fuel] calls were not enough. *)
Fixpoint executeWithRetry (fuel : nat) (method : Method) (retryCount : nat)
         (w : World) : option (Result Response * World) :=
  match fuel with
  | 0 => None
  | S fuel' =>
      match attempt method w with
      | (Ok r, w1) => Some (Ok r, w1)
      | (Err error, w1) =>
          if is_429 error then Some (Err error, w1)
          else if shouldRetryRequest (service w1) error retryCount
          then
            match emit (Backoff (delay retryCount)) w1 with
            | (_, w2) => executeWithRetry fuel' method (S retryCount) w2
            end
          else Some (Err error, w1)
      end
  end.

End Pipeline.

(** The world a call starts in. *)
Definition start (s : Service) : World := mkWorld s 0 0 [].

(** *** Observations on the events of a call *)

Definition supported (method : Method) : bool :=
  match method with
  | Other _ => false
  | _ => true
  end.

(** The pauses of the server-error handler that are still to come when
    the ceiling is 3. *)
Definition budget (s : Service) : N :=
  match connectionRetries s with
  | 0 => 12000%N
  | 1 => 10000%N
  | 2 => 6000%N
  | _ => 0%N
  end.


Fixpoint backoffs (l : list Event) : list N :=
  match l with
  | [] => []
  | Backoff ms :: r => ms :: backoffs r
  | _ :: r => backoffs r
  end.

(** The time a call spends waiting, in milliseconds. *)
Fixpoint waited (l : list Event) : N :=
  match l with
  | [] => 0
  | Backoff ms :: r => ms + waited r
  | Pause ms :: r => ms + waited r
  | _ :: r => waited r
  end%N.

(** The instants at which requests left. *)
Fixpoint departures (l : list Event) : list Time :=
  match l with
  | [] => []
  | Sent t :: r => t :: departures r
  | _ :: r => departures r
  end.

(** *** What the steps of a call may do *)

(** What one step of a call may do to the world around it: it adds
    events, keeps the ceiling and counts the requests that left. *)
Definition extends (w w1 : World) (added : list Event) : Prop :=
  events w1 = events w ++ added
  /\ maxRetries (service w1) = maxRetries (service w)
  /\ requests w1 = requests w + length (departures added).

(** What a handler of a rejected request may do: no request, no wait of
    the retry loop, and pauses within the budget. *)
Definition handled (w : World) (res : Result unit) (w1 : World) : Prop :=
  exists added,
    extends w w1 added
    /\ departures added = []
    /\ backoffs added = []
    /\ (maxRetries (service w) = 3 ->
        (waited added + budget (service w1) <= budget (service w))%N)
    /\ match res with
       | Ok _ => True
       | Err e => response e = None
       end.

(** What one attempt may do. *)
Definition attempted (w : World) (res : Result Response) (w1 : World)
  : Prop :=
  exists added,
    extends w w1 added
    /\ backoffs added = []
    /\ length (departures added) <= 1
    /\ match res with
       | Ok r =>
           fulfilled r = true
           /\ isOnline (service w1) = true
           /\ connectionRetries (service w1) = 0
           /\ rateLimitedUntil (service w1) = None
           /\ length (departures added) = 1
           /\ waited added = 0%N
       | Err e =>
           maxRetries (service w) = 3 ->
           (waited added + budget (service w1) <= budget (service w))%N
       end.

(** The delays of the retry loop from attempt [retryCount] on. *)
Definition delays (retryCount n : nat) : list N :=
  map delay (seq retryCount n).

Definition total (l : list N) : N := fold_right N.add 0%N l.

End ApiService.

Module ApiScenarios.
Import ApiService.

(** A signed-in client whose clock advances by one at each reading. *)
Definition signed_in : Service := create (Some "token") (Some "user").

(** No answer ever comes. *)
Definition offline : Env :=
  mkEnv (fun k => k)
        (fun _ => Silent (Some "ERR_NETWORK") "Network Error")
        false.

(** The server answers the first request with 429 and asks for 30
    seconds. *)
Definition too_many : Response :=
  mkResponse 429 (Some (mkData (Some "RATE_LIMIT_EXCEEDED") None (Some 30))).

Definition throttling : Env :=
  mkEnv (fun k => k)
        (fun _ => Replied too_many (Some "ERR_BAD_REQUEST")
                          "Request failed with status code 429")
        false.

(** The service 31 milliseconds into a rate limit of 30 seconds, with a
    clock that stands still. *)
Definition limited : Service :=
  mkService true 0 3 (Some (1 + 30 * 1000)) (Some "token") (Some "user").

Definition standing : Env :=
  mkEnv (fun _ => 32)
        (fun _ => Replied (mkResponse 200 None) None "")
        false.

(** The second request is answered after the first got no answer. *)
Definition recovering : Env :=
  mkEnv (fun k => k)
        (fun k => match k with
                  | 0 => Silent (Some "ECONNABORTED") "timeout of 30000ms exceeded"
                  | _ => Replied (mkResponse 200 None) None ""
                  end)
        false.

End ApiScenarios.

(* ===================================================================== *)
(** * Properties of the string primitives                                 *)
(* ===================================================================== *)

Module JsStringFacts.
Import JsString.

Lemma append_assoc a b c : ((a ++ b) ++ c)%string = (a ++ b ++ c)%string.
Proof. induction a as [|x a IH]; cbn; [reflexivity | now rewrite IH]. Qed.

Lemma rev_onto_append s acc : rev_onto s acc = (rev s ++ acc)%string.
Proof.
  unfold rev. revert acc.
  induction s as [|c s IH]; intros acc; [reflexivity|].
  cbn [rev_onto]. rewrite IH, (IH (String c EmptyString)).
  now rewrite append_assoc.
Qed.

Lemma append_empty s : (s ++ "")%string = s.
Proof. induction s as [|c s IH]; cbn; [reflexivity | now rewrite IH]. Qed.

Lemma rev_append a b : rev (a ++ b) = (rev b ++ rev a)%string.
Proof.
  induction a as [|c a IH]; cbn [append].
  - now rewrite append_empty.
  - unfold rev at 1 3. cbn [rev_onto]. rewrite !rev_onto_append, IH.
    now rewrite append_assoc.
Qed.

Lemma rev_involutive s : rev (rev s) = s.
Proof.
  induction s as [|c s IH]; [reflexivity|].
  unfold rev at 2. cbn [rev_onto]. rewrite rev_onto_append, rev_append, IH.
  reflexivity.
Qed.

Section Strip.

Variables (sp2 : N -> N -> bool) (sp3 : N -> N -> N -> bool).

(** What is stripped is taken from the front. *)
Lemma strip_suffix s : exists u, s = (u ++ strip sp2 sp3 s)%string.
Proof.
  assert (H : forall n s, String.length s <= n ->
                          exists u, s = (u ++ strip sp2 sp3 s)%string).
  { clear s. induction n as [|n IH]; intros s Hn.
    - destruct s; [exists ""; reflexivity | cbn in Hn; lia].
    - destruct s as [|a r1]; [exists ""; reflexivity|].
      cbn [strip]. destruct (space1 (byte a)).
      { destruct (IH r1) as [u Hu]; [cbn in Hn; lia|].
        exists (String a u). cbn. now rewrite <- Hu. }
      destruct r1 as [|b r2]; [exists ""; reflexivity|].
      destruct (sp2 (byte a) (byte b)).
      { destruct (IH r2) as [u Hu]; [cbn in Hn; lia|].
        exists (String a (String b u)). cbn. now rewrite <- Hu. }
      destruct r2 as [|c r3]; [exists ""; reflexivity|].
      destruct (sp3 (byte a) (byte b) (byte c)); [|exists ""; reflexivity].
      destruct (IH r3) as [u Hu]; [cbn in Hn; lia|].
      exists (String a (String b (String c u))). cbn. now rewrite <- Hu. }
  exact (H (String.length s) s (le_n _)).
Qed.

Lemma settled_strip s : settled sp2 sp3 s = true -> strip sp2 sp3 s = s.
Proof.
  destruct s as [|a [|b [|c r]]]; cbn; intros H;
    repeat (apply andb_prop in H; destruct H as [? H]);
    repeat match goal with
           | H : negb ?x = true |- _ =>
               apply negb_true_iff in H; rewrite H
           end; reflexivity.
Qed.

Lemma strip_settled s : settled sp2 sp3 (strip sp2 sp3 s) = true.
Proof.
  assert (H : forall n s, String.length s <= n ->
                          settled sp2 sp3 (strip sp2 sp3 s) = true).
  { clear s. induction n as [|n IH]; intros s Hn.
    - destruct s; [reflexivity | cbn in Hn; lia].
    - destruct s as [|a r1]; [reflexivity|].
      cbn [strip]. destruct (space1 (byte a)) eqn:E1.
      { apply IH. cbn in Hn; lia. }
      destruct r1 as [|b r2]; [cbn; now rewrite E1|].
      destruct (sp2 (byte a) (byte b)) eqn:E2.
      { apply IH. cbn in Hn; lia. }
      destruct r2 as [|c r3]; [cbn; now rewrite E1, E2|].
      destruct (sp3 (byte a) (byte b) (byte c)) eqn:E3.
      { apply IH. cbn in Hn; lia. }
      cbn. now rewrite E1, E2, E3. }
  exact (H (String.length s) s (le_n _)).
Qed.

(** A string that starts with no white space has no beginning that
    does. *)
Lemma settled_prefix t v :
  settled sp2 sp3 (t ++ v) = true -> settled sp2 sp3 t = true.
Proof.
  destruct t as [|a [|b [|c r]]]; cbn; try reflexivity; intros H.
  - apply andb_prop in H. destruct H as [H _]. now rewrite H.
  - apply andb_prop in H. destruct H as [H1 H].
    apply andb_prop in H. destruct H as [H2 _]. now rewrite H1, H2.
  - exact H.
Qed.

End Strip.

(** [trim] gives a string that [trim] leaves as it is. *)
Lemma trim_idempotent s : trim (trim s) = trim s.
Proof.
  unfold trim, trimEnd, trimStart.
  set (sp2' := fun a b => space2 b a). set (sp3' := fun a b c => space3 c b a).
  set (a := strip space2 space3 s).
  remember (strip sp2' sp3' (rev a)) as w eqn:Ew.
  destruct (strip_suffix sp2' sp3' (rev a)) as [u Hu]. rewrite <- Ew in Hu.
  assert (Ea : a = (rev w ++ rev u)%string)
    by (rewrite <- rev_append, <- Hu, rev_involutive; reflexivity).
  assert (Ht : strip space2 space3 (rev w) = rev w).
  { apply settled_strip, (settled_prefix _ _ (rev w) (rev u)).
    rewrite <- Ea. apply strip_settled. }
  rewrite Ht, rev_involutive.
  assert (Hw : strip sp2' sp3' w = w)
    by (rewrite Ew; apply settled_strip, strip_settled).
  now rewrite Hw.
Qed.

(** *** Lower case *)

Lemma lower_char_idem c : lower_char (lower_char c) = lower_char c.
Proof. destruct c as [[] [] [] [] [] [] [] []]; reflexivity. Qed.

Lemma lower_char_high a :
  (0x80 <=? byte (lower_char a))%N = true -> lower_char a = a.
Proof. destruct a as [[] [] [] [] [] [] [] []]; cbv; congruence. Qed.

(** A byte that starts neither of the two special characters. *)
Lemma lower_plain a r :
  (byte a =? 0xC4)%N = false -> (byte a =? 0xE2)%N = false ->
  toLowerCase (String a r) = String (lower_char a) (toLowerCase r).
Proof.
  intros H1 H2. destruct r as [|b [|c r3]]; cbn [toLowerCase];
    unfold dotted_I, kelvin; rewrite ?H1, ?H2; reflexivity.
Qed.

(** What a byte outside ASCII at the head of a lowered string comes
    from. *)
Lemma lowered_head x t r :
  (0x80 <=? byte x)%N = true ->
  toLowerCase r = String x t ->
  exists r', r = String x r' /\ t = toLowerCase r'.
Proof.
  intros Hx H.
  assert (Hi : x <> "i"%char) by (intros ->; discriminate).
  assert (Hk : x <> "k"%char) by (intros ->; discriminate).
  destruct r as [|a r1]; [discriminate|].
  assert (G : String (lower_char a) (toLowerCase r1) = String x t ->
              exists r', String a r1 = String x r' /\ t = toLowerCase r').
  { intros [= E <-]. exists r1. split; [|reflexivity].
    f_equal. rewrite <- E in Hx |- *. symmetry. now apply lower_char_high. }
  destruct r1 as [|b r2]; [exact (G H)|].
  cbn [toLowerCase] in H.
  destruct (dotted_I (byte a) (byte b)); [injection H; congruence|].
  destruct r2 as [|c r3]; [exact (G H)|].
  destruct (kelvin (byte a) (byte b) (byte c)); [injection H; congruence|].
  exact (G H).
Qed.

Lemma lowered_step a r :
  toLowerCase (String a r) = String (lower_char a) (toLowerCase r) ->
  toLowerCase (String (lower_char a) (toLowerCase r))
  = String (lower_char a) (toLowerCase (toLowerCase r)).
Proof.
  intros H.
  destruct (byte (lower_char a) =? 0xC4)%N eqn:P1;
    [|destruct (byte (lower_char a) =? 0xE2)%N eqn:P2];
    [| |rewrite (lower_plain _ _ P1 P2); now rewrite lower_char_idem].
  all: assert (Ea : lower_char a = a)
         by (apply lower_char_high;
             first [apply N.eqb_eq in P1; now rewrite P1
                   |apply N.eqb_eq in P2; now rewrite P2]).
  all: rewrite Ea in *.
  all: destruct (toLowerCase r) as [|x t] eqn:E;
         [cbn [toLowerCase]; now rewrite Ea|].
  all: cbn [toLowerCase]; fold (toLowerCase (String x t)).
  all: destruct (dotted_I (byte a) (byte x)) eqn:D.
  1, 3: exfalso; unfold dotted_I in D; apply andb_prop in D;
        destruct D as [D1 D2]; apply N.eqb_eq in D2;
        destruct (lowered_head x t r) as (r' & -> & _);
          [now rewrite D2 | exact E |];
        cbn [toLowerCase] in H; unfold dotted_I in H; rewrite D1 in H;
        apply N.eqb_eq in D1; rewrite D2 in H; cbn in H;
        injection H as H _; apply (f_equal byte) in H; rewrite D1 in H;
        discriminate.
  all: destruct t as [|y t']; [now rewrite Ea|].
  all: destruct (kelvin (byte a) (byte x) (byte y)) eqn:K; [|now rewrite Ea].
  all: exfalso; unfold kelvin in K; apply andb_prop in K;
       destruct K as [K K3]; apply andb_prop in K; destruct K as [K1 K2];
       apply N.eqb_eq in K2, K3;
       destruct (lowered_head x (String y t') r) as (r' & -> & E');
         [now rewrite K2 | exact E |];
       symmetry in E';
       destruct (lowered_head y t' r') as (r'' & -> & _);
         [now rewrite K3 | exact E' |];
       cbn [toLowerCase] in H; unfold dotted_I, kelvin in H;
       rewrite K1, K2, K3 in H; cbn in H;
       destruct (byte a =? 196)%N eqn:D1;
         [apply N.eqb_eq in D1; apply N.eqb_eq in K1; congruence|];
       cbn in H; injection H as H _; apply (f_equal byte) in H;
       apply N.eqb_eq in K1; rewrite K1 in H; discriminate.
Qed.

Lemma toLowerCase_idem_upto n s :
  String.length s <= n -> toLowerCase (toLowerCase s) = toLowerCase s.
Proof.
  revert s. induction n as [|n IH]; intros s Hn.
  { destruct s; [reflexivity | cbn in Hn; lia]. }
  destruct s as [|a r]; [reflexivity|].
  assert (G : toLowerCase (String a r)
              = String (lower_char a) (toLowerCase r) ->
              toLowerCase (toLowerCase (String a r))
              = toLowerCase (String a r)).
  { intros H. rewrite H, (lowered_step a r H). f_equal. apply IH.
    cbn in Hn. lia. }
  destruct r as [|b r2]; [exact (G eq_refl)|].
  destruct (dotted_I (byte a) (byte b)) eqn:D.
  { cbn [toLowerCase]. rewrite D.
    rewrite !lower_plain by reflexivity. cbn [lower_char].
    do 3 f_equal. apply IH. cbn in Hn. lia. }
  destruct r2 as [|c r3].
  { apply G. cbn [toLowerCase]. now rewrite D. }
  destruct (kelvin (byte a) (byte b) (byte c)) eqn:K.
  { cbn [toLowerCase]. rewrite D, K.
    rewrite lower_plain by reflexivity. f_equal. apply IH. cbn in Hn. lia. }
  apply G. cbn [toLowerCase]. now rewrite D, K.
Qed.

Lemma toLowerCase_idem s : toLowerCase (toLowerCase s) = toLowerCase s.
Proof. now apply (toLowerCase_idem_upto (String.length s)). Qed.

(** The Kelvin sign and the dotted capital I are lowered to ASCII. *)
Example lower_beyond_ascii :
  let kelvin_sign :=
    String "226" (String "132" (String "170" EmptyString)) in
  let dotted := String "196" (String "176" EmptyString) in
  toLowerCase ("THAN" ++ kelvin_sign ++ "S")%string = "thanks"
  /\ includes (toLowerCase ("H" ++ dotted)%string) "hi" = true.
Proof. split; reflexivity. Qed.

(** The no-break space and the ideographic space are white space. *)
Example trim_unicode_spaces :
  let nbsp := String "194" (String "160" EmptyString) in
  let ideographic := String "227" (String "128" (String "128" EmptyString)) in
  trim (nbsp ++ " hi there" ++ ideographic ++ nbsp)%string = "hi there"
  /\ blank (Some (nbsp ++ ideographic)%string) = true.
Proof. split; reflexivity. Qed.

(** A character outside the basic plane counts for two code units, and a
    cut between them keeps the first surrogate. *)
Example pair_of_surrogates :
  length "👋 Hello!" = 9
  /\ substring0 2 "👋 Hello!" = "👋"
  /\ substring0 1 "👋 Hello!"
     = String "237" (String "160" (String "189" EmptyString)).
Proof. repeat split. Qed.

End JsStringFacts.

(* ===================================================================== *)
(** * Properties of the client store                                      *)
(* ===================================================================== *)

Module ChatStoreFacts.
Import ChatStore ChatStoreInvariants ClientScenarios.

(** ** Handlers that leave the retry bookkeeping alone *)

Lemma retries_scheduled_app l1 l2 :
  retries_scheduled (l1 ++ l2) = retries_scheduled l1 + retries_scheduled l2.
Proof. unfold retries_scheduled. now rewrite filter_app, length_app. Qed.

Lemma plain_skip : plain skip.
Proof. intros c. split; reflexivity. Qed.

Lemma plain_effect e : is_retry e = false -> plain (effect e).
Proof.
  intros He c. split; [reflexivity|].
  unfold retries_scheduled. simpl. now rewrite He.
Qed.

Lemma plain_seq h k : plain h -> plain k -> plain (h ;; k).
Proof.
  intros Hh Hk c. destruct (Hh c) as [H1 H2].
  destruct (Hk (fst (h c))) as [H3 H4]. simpl. split.
  - now rewrite H3.
  - rewrite retries_scheduled_app. lia.
Qed.

Lemma plain_update f : neutral f -> plain (update f).
Proof. intros Hf c. split; [apply Hf | reflexivity]. Qed.

Lemma plain_clearTimeout t : plain (clearTimeout t).
Proof. intros c. split; reflexivity. Qed.

Lemma plain_expire t : plain (expire t).
Proof. intros c. split; reflexivity. Qed.

Lemma plain_settle req : plain (settle req).
Proof. intros c. split; reflexivity. Qed.

Lemma plain_post m cid : plain (post m cid).
Proof. intros c. split; reflexivity. Qed.

Lemma plain_setTimeout t d k :
  t <> ReconnectTimer -> (forall i, plain (k i)) -> plain (setTimeout t d k).
Proof.
  intros Ht Hk c. unfold setTimeout.
  apply plain_seq; [|apply Hk].
  intros c'. split; [reflexivity|].
  unfold retries_scheduled. simpl. destruct t; simpl; congruence.
Qed.

(** A handler that at every state acts like some plain handler. *)
Lemma plain_pointwise (h : Handler) :
  (forall c, exists h', h c = h' c /\ plain h') -> plain h.
Proof. intros H c. destruct (H c) as (h' & E & Hp). rewrite E. apply Hp. Qed.

Lemma plain_clear_all l : plain (clear_all l).
Proof.
  induction l as [|t r IH]; simpl.
  - apply plain_skip.
  - apply plain_seq; [apply plain_clearTimeout | exact IH].
Qed.

(** Case analysis on what a handler reads from the state. *)
Ltac by_state lem :=
  apply lem; intros ?c; cbv beta;
  repeat match goal with
         | |- exists _, match ?x with _ => _ end = _ /\ _ => destruct x
         end;
  eexists; (split; [reflexivity|]).

Ltac neutrality :=
  intros ?s;
  unfold reconcile, accept_reply, addMessage, setCurrentConversation,
    updateConversationTitle, register_once, library_sets_connected,
    setTyping, setError, clearError;
  cbv zeta;
  repeat match goal with
         | |- context [match ?x with _ => _ end] => destruct x
         end;
  reflexivity.

Create HintDb plain discriminated.

#[local] Hint Resolve plain_skip plain_seq plain_update plain_clearTimeout
  plain_expire plain_post plain_settle plain_clear_all : plain.
#[local] Hint Extern 1 (plain (effect _)) =>
  apply plain_effect; reflexivity : plain.
#[local] Hint Extern 1 (plain (setTimeout _ _ _)) =>
  apply plain_setTimeout; [discriminate | intros ?i] : plain.
#[local] Hint Extern 1 (neutral _) => solve [neutrality] : plain.
#[local] Hint Extern 5 (plain (fun _ => _)) => by_state plain_pointwise : plain.

Lemma plain_clearHeartbeat : plain clearHeartbeat.
Proof. unfold clearHeartbeat. auto with plain. Qed.

#[local] Hint Resolve plain_clearHeartbeat : plain.

Lemma plain_setupHeartbeat : plain setupHeartbeat.
Proof. unfold setupHeartbeat. auto with plain. Qed.

Lemma plain_sendMessage env m cid : plain (sendMessage env m cid).
Proof.
  unfold sendMessage, empty_message.
  destruct m; [destruct (JsString.blank _)|]; auto 8 with plain.
Qed.

#[local] Hint Resolve plain_setupHeartbeat plain_sendMessage : plain.

Lemma plain_sendMessageViaSocket env m cid :
  plain (sendMessageViaSocket env m cid).
Proof.
  unfold sendMessageViaSocket, empty_message.
  destruct m; [destruct (JsString.blank _)|]; auto 10 with plain.
Qed.

Lemma plain_api_reply req r : plain (api_reply req r).
Proof.
  unfold api_reply. by_state plain_pointwise; auto with plain.
  apply plain_seq; [apply plain_settle|].
  unfold sendMessage_resume, sendMessage_failed.
  destruct r; auto 8 with plain.
Qed.

Lemma plain_handle_timer env t : plain (handle_timer env t).
Proof.
  unfold handle_timer, reconnect_timer_fires, socket_timeout_fires.
  by_state plain_pointwise; auto 8 with plain.
Qed.

Lemma plain_handle_messageSent env m : plain (handle_messageSent env m).
Proof.
  unfold handle_messageSent, run_once_listeners. auto 8 with plain.
Qed.

Lemma plain_connectSocket env : plain (connectSocket env).
Proof.
  unfold connectSocket. by_state plain_pointwise; auto with plain.
  apply plain_seq; [auto 8 with plain|].
  destruct (token env) as [tk|]; [destruct (JsString.truthy tk)|];
    auto 8 with plain.
Qed.

Lemma plain_socket_event h : plain h -> plain (socket_event h).
Proof. intros Hh. unfold socket_event. by_state plain_pointwise; auto with plain. Qed.

(** ** What the reconnection manager does to the retry bookkeeping *)

(** [scheduleReconnection] schedules one retry and counts it, unless the
    ceiling is reached. *)
Lemma scheduleReconnection_spec c :
  let r := scheduleReconnection c in
  maxRetries (store (fst r)) = maxRetries (store c)
  /\ isConnected (store (fst r)) = isConnected (store c)
  /\ if maxRetries (store c) <=? connectionRetries (store c)
     then connectionRetries (store (fst r)) = connectionRetries (store c)
          /\ retries_scheduled (snd r) = 0
     else connectionRetries (store (fst r)) = S (connectionRetries (store c))
          /\ retries_scheduled (snd r) = 1.
Proof.
  unfold scheduleReconnection. cbv zeta.
  set (h1 := fun c0 : Client =>
               match reconnectTimeout (store c0) with
               | Some t => clearTimeout t c0
               | None => skip c0
               end).
  assert (P1 : plain h1) by (subst h1; auto with plain).
  destruct (P1 c) as [V1 Q1].
  unfold retry_view in V1. injection V1 as Vm Vr Vc.
  cbn [seq fst snd]. rewrite retries_scheduled_app, Q1, Vm, Vr.
  destruct (maxRetries (store c) <=? connectionRetries (store c)).
  - cbn. auto.
  - cbn. rewrite Vm, Vr, Vc. auto.
Qed.

Lemma plain_step_effect ev h c :
  plain h -> step_effect ev (store c) (store (fst (h c)))
                         (retries_scheduled (snd (h c))).
Proof.
  intros Hp. destruct (Hp c) as [V Q]. rewrite Q.
  unfold retry_view in V. injection V as Vm Vr Vc.
  split; [exact Vm|]. left. rewrite Vr, Vc. repeat split; auto.
Qed.

Lemma step_effect_skip ev c : step_effect ev (store c) (store c) 0.
Proof. apply (plain_step_effect ev skip c plain_skip). Qed.

(** Reading the bookkeeping through a plain handler. *)
Lemma plain_maxRetries h c :
  plain h -> maxRetries (store (fst (h c))) = maxRetries (store c).
Proof. intros H. destruct (H c) as [V _]. now injection V. Qed.

Lemma plain_connectionRetries h c :
  plain h -> connectionRetries (store (fst (h c))) = connectionRetries (store c).
Proof. intros H. destruct (H c) as [V _]. now injection V. Qed.

Lemma plain_isConnected h c :
  plain h -> isConnected (store (fst (h c))) = isConnected (store c).
Proof. intros H. destruct (H c) as [V _]. now injection V. Qed.

Lemma plain_quiet h c : plain h -> retries_scheduled (snd (h c)) = 0.
Proof. intros H. apply H. Qed.

Lemma view_eq s s' :
  retry_view s' = retry_view s ->
  maxRetries s' = maxRetries s /\ connectionRetries s' = connectionRetries s
  /\ isConnected s' = isConnected s.
Proof. unfold retry_view. intros H. injection H as -> -> ->. auto. Qed.

Lemma fst_seq h k c : fst ((h ;; k) c) = fst (k (fst (h c))).
Proof. reflexivity. Qed.

Ltac through_plain :=
  rewrite ?fst_seq;
  repeat first
    [ rewrite plain_maxRetries by auto 8 with plain
    | rewrite plain_connectionRetries by auto 8 with plain
    | rewrite plain_isConnected by auto 8 with plain ].

(** ** Handlers that schedule no retry *)

Lemma quiet_plain h : plain h -> quiet h.
Proof. intros H c. apply H. Qed.

Lemma quiet_update f : quiet (update f).
Proof. intros c. reflexivity. Qed.

Lemma quiet_seq h k : quiet h -> quiet k -> quiet (h ;; k).
Proof.
  intros Hh Hk c. cbn [seq snd]. now rewrite retries_scheduled_app, Hh, Hk.
Qed.

Lemma quiet_pointwise (h : Handler) :
  (forall c, exists h', h c = h' c /\ quiet h') -> quiet h.
Proof. intros H c. destruct (H c) as (h' & E & Hq). rewrite E. apply Hq. Qed.

#[local] Hint Resolve quiet_update quiet_seq : plain.
#[local] Hint Extern 3 (quiet _) => apply quiet_plain : plain.
#[local] Hint Extern 6 (quiet (fun _ => _)) => by_state quiet_pointwise : plain.

Lemma scheduled_effect ev c :
  isConnected (store c) = false ->
  step_effect ev (store c) (store (fst (scheduleReconnection c)))
              (retries_scheduled (snd (scheduleReconnection c))).
Proof.
  intros Hc. destruct (scheduleReconnection_spec c) as (Hm & Hb & Hr).
  split; [exact Hm|]. left.
  destruct (Nat.leb_spec (maxRetries (store c)) (connectionRetries (store c)));
    destruct Hr as [-> ->]; rewrite Hb, Hc.
  - repeat split; auto; discriminate.
  - repeat split; auto; try lia; discriminate.
Qed.

(** The store may have dropped [isConnected] in between. *)
Lemma step_effect_after ev s0 s1 s2 n :
  maxRetries s1 = maxRetries s0 ->
  connectionRetries s1 = connectionRetries s0 ->
  (isConnected s1 = true -> isConnected s0 = true) ->
  step_effect ev s1 s2 n -> step_effect ev s0 s2 n.
Proof.
  intros Vm Vr Vc (Hm & H). split; [congruence|].
  destruct H as [(Hr & Hn & Hc)|H]; [left|right; exact H].
  rewrite <- Vr, <- Vm. repeat split; auto.
Qed.

Lemma handle_disconnect_effect reason c :
  step_effect (on_disconnect reason) (store c)
    (store (fst (handle_disconnect reason c)))
    (retries_scheduled (snd (handle_disconnect reason c))).
Proof.
  unfold handle_disconnect.
  set (tail := if (reason =? "io server disconnect")%string then scheduleReconnection
               else if (reason =? "io client disconnect")%string then skip
               else scheduleReconnection).
  cbn [seq fst snd]. repeat rewrite retries_scheduled_app.
  rewrite (plain_quiet clearHeartbeat) by auto with plain. cbn [Nat.add].
  match goal with |- context [tail ?x] => set (c1 := x) end.
  assert (Hc : isConnected (store c1) = false)
    by (subst c1; now rewrite plain_isConnected by auto with plain).
  apply step_effect_after with (s1 := store c1).
  - subst c1. now rewrite plain_maxRetries by auto with plain.
  - subst c1. now rewrite plain_connectionRetries by auto with plain.
  - rewrite Hc. discriminate.
  - subst tail.
    destruct (reason =? "io server disconnect")%string;
      [|destruct (reason =? "io client disconnect")%string];
      (apply scheduled_effect; exact Hc) || apply step_effect_skip.
Qed.

Lemma handle_connect_error_effect message c :
  step_effect (on_connect_error message) (store c)
    (store (fst (handle_connect_error message c)))
    (retries_scheduled (snd (handle_connect_error message c))).
Proof.
  unfold handle_connect_error. cbn [seq fst snd update]. cbn [app].
  match goal with |- context [with_store ?f (with_store ?g c)] =>
    set (c1 := with_store f (with_store g c)) end.
  assert (Hc : isConnected (store c1) = false) by reflexivity.
  apply step_effect_after with (s1 := store c1);
    [reflexivity | reflexivity | rewrite Hc; discriminate |].
  destruct (connectionRetries (store c1) <? maxRetries (store c1));
    [apply scheduled_effect; exact Hc | apply step_effect_skip].
Qed.

Lemma reset_effect ev h c :
  resets ev = true ->
  maxRetries (store (fst (h c))) = maxRetries (store c) ->
  connectionRetries (store (fst (h c))) = 0 ->
  retries_scheduled (snd (h c)) = 0 ->
  step_effect ev (store c) (store (fst (h c))) (retries_scheduled (snd (h c))).
Proof. intros He Hm Hr ->. split; [exact Hm|]. right. auto. Qed.

Lemma plain_rejoin : plain rejoin.
Proof. unfold rejoin. auto with plain. Qed.

#[local] Hint Resolve plain_rejoin : plain.

Lemma plain_handle_botMessage env m : plain (handle_botMessage env m).
Proof. unfold handle_botMessage. auto with plain. Qed.

Lemma socket_event_effect ev h c :
  step_effect ev (store c) (store (fst (h c))) (retries_scheduled (snd (h c))) ->
  step_effect ev (store c) (store (fst (socket_event h c)))
              (retries_scheduled (snd (socket_event h c))).
Proof.
  intros H. unfold socket_event.
  destruct (socket_listening (store c)); [exact H | apply step_effect_skip].
Qed.

Lemma disconnectSocket_effect c :
  maxRetries (store (fst (disconnectSocket c))) = maxRetries (store c)
  /\ retries_scheduled (snd (disconnectSocket c)) = 0
  /\ (connectionRetries (store (fst (disconnectSocket c))) = 0
      \/ retry_view (store (fst (disconnectSocket c))) = retry_view (store c)).
Proof.
  unfold disconnectSocket.
  set (h2 := fun c0 : Client =>
               match reconnectTimeout (store c0) with
               | Some t => (clearTimeout t ;; update (with_reconnectTimeout None)) c0
               | None => skip c0
               end).
  assert (P2 : plain h2) by (subst h2; auto with plain).
  cbn [seq fst snd]. repeat rewrite retries_scheduled_app.
  rewrite (plain_quiet clearHeartbeat), (plain_quiet h2) by auto with plain.
  set (c2 := fst (h2 (fst (clearHeartbeat c)))).
  assert (V : retry_view (store c2) = retry_view (store c)).
  { subst c2. unfold retry_view.
    now rewrite !(plain_maxRetries h2), !(plain_connectionRetries h2),
      !(plain_isConnected h2), plain_maxRetries, plain_connectionRetries,
      plain_isConnected by auto with plain. }
  destruct (socket (store c2)); cbn.
  - repeat split; auto. now injection V.
  - repeat split; auto. now injection V.
Qed.

Lemma disconnectSocket_step_effect ev c :
  resets ev = true ->
  step_effect ev (store c) (store (fst (disconnectSocket c)))
              (retries_scheduled (snd (disconnectSocket c))).
Proof.
  intros He. destruct (disconnectSocket_effect c) as (Hm & Hq & [Hz|Hv]).
  - apply reset_effect; auto.
  - rewrite Hq. apply view_eq in Hv. destruct Hv as (Vm & Vr & Vc).
    split; [exact Vm|]. left. rewrite Vr, Vc. auto.
Qed.

Lemma step_effect_of_step env ev c :
  step_effect ev (store c) (store (fst (step env ev c)))
              (retries_scheduled (snd (step env ev c))).
Proof.
  destruct ev; cbn [step];
    try (apply plain_step_effect;
         first [ apply plain_socket_event | idtac ];
         auto 8 using plain_handle_messageSent, plain_handle_timer,
           plain_api_reply, plain_sendMessageViaSocket, plain_connectSocket,
           plain_handle_botMessage with plain; fail).
  - (* connect *)
    apply socket_event_effect. apply reset_effect; [reflexivity|..].
    + unfold handle_connect. through_plain. cbn.
      unfold library_sets_connected. now destruct (socket (store c)).
    + unfold handle_connect. through_plain. reflexivity.
    + apply (quiet_seq (update (library_sets_connected true)) handle_connect);
        unfold handle_connect; auto 10 with plain.
  - (* disconnect *)
    apply socket_event_effect.
    change (fst ((update (library_sets_connected false) ;; handle_disconnect reason) c))
      with (fst (handle_disconnect reason (with_store (library_sets_connected false) c))).
    change (snd ((update (library_sets_connected false) ;; handle_disconnect reason) c))
      with (snd (handle_disconnect reason (with_store (library_sets_connected false) c))).
    apply step_effect_after
      with (s1 := store (with_store (library_sets_connected false) c));
      [ | | | apply handle_disconnect_effect];
      cbn; unfold library_sets_connected; destruct (socket (store c)); auto.
  - (* connect_error *)
    apply socket_event_effect, handle_connect_error_effect.
  - (* connected *)
    apply socket_event_effect. apply reset_effect; reflexivity.
  - (* reconnect *)
    apply reset_effect; [reflexivity|..]; unfold reconnect.
    + rewrite !fst_seq. now rewrite plain_maxRetries by apply plain_connectSocket.
    + rewrite !fst_seq.
      now rewrite plain_connectionRetries by apply plain_connectSocket.
    + apply quiet_seq; [auto with plain|].
      apply quiet_seq; [auto with plain|].
      apply quiet_plain, plain_connectSocket.
  - (* disconnectSocket *)
    now apply disconnectSocket_step_effect.
  - (* cleanup *)
    assert (Q : retries_scheduled (snd (cleanup c))
                = retries_scheduled (snd (disconnectSocket c))).
    { unfold cleanup. cbn [seq snd update]. now rewrite !app_nil_r. }
    rewrite Q.
    apply (disconnectSocket_step_effect call_cleanup c eq_refl).
Qed.

(** ** Identifiers stay fresh *)

Lemma In_remove {A} k (v : A) x l : In (k, v) (remove x l) -> In (k, v) l.
Proof. unfold remove. intros H. apply filter_In in H. tauto. Qed.

Lemma fresh_skip : keeps_fresh skip.
Proof. intros c H. exact H. Qed.

Lemma fresh_effect e : keeps_fresh (effect e).
Proof. intros c H. exact H. Qed.

Lemma fresh_update f : keeps_fresh (update f).
Proof. intros c H. exact H. Qed.

Lemma fresh_seq h k : keeps_fresh h -> keeps_fresh k -> keeps_fresh (h ;; k).
Proof. intros Hh Hk c H. apply Hk, Hh, H. Qed.

Lemma fresh_clearTimeout t : keeps_fresh (clearTimeout t).
Proof.
  intros c [Ht Hr]. split; [|exact Hr].
  intros k v Hin. apply (Ht k v). eapply In_remove, Hin.
Qed.

Lemma fresh_expire t : keeps_fresh (expire t).
Proof. exact (fresh_clearTimeout t). Qed.

Lemma fresh_setTimeout t d k :
  (forall i, keeps_fresh (k i)) -> keeps_fresh (setTimeout t d k).
Proof.
  intros Hk c [Ht Hr]. unfold setTimeout. apply fresh_seq; [|apply Hk|now split].
  intros c' [Ht' Hr']. split; [|exact Hr'].
  intros i v Hin. cbn in *. apply in_app_or in Hin.
  destruct Hin as [Hin|[E|[]]].
  - apply Ht' in Hin. lia.
  - injection E as <- _. lia.
Qed.

Lemma fresh_settle req : keeps_fresh (settle req).
Proof.
  intros c [Ht Hr]. split; [exact Ht|].
  intros k v Hin. apply (Hr k v). eapply In_remove, Hin.
Qed.

Lemma fresh_post m cid : keeps_fresh (post m cid).
Proof.
  intros c [Ht Hr]. split; [exact Ht|].
  intros i v Hin. cbn in *. apply in_app_or in Hin.
  destruct Hin as [Hin|[E|[]]].
  - apply Hr in Hin. lia.
  - injection E as <- _. lia.
Qed.

Lemma fresh_pointwise (h : Handler) :
  (forall c, exists h', h c = h' c /\ keeps_fresh h') -> keeps_fresh h.
Proof. intros H c. destruct (H c) as (h' & E & Hp). rewrite E. apply Hp. Qed.

Lemma fresh_clear_all l : keeps_fresh (clear_all l).
Proof.
  induction l as [|t r IH]; simpl.
  - apply fresh_skip.
  - apply fresh_seq; [apply fresh_clearTimeout | exact IH].
Qed.

Create HintDb fresh discriminated.

#[local] Hint Resolve fresh_skip fresh_effect fresh_update fresh_seq
  fresh_clearTimeout fresh_expire fresh_post fresh_settle
  fresh_clear_all : fresh.
#[local] Hint Extern 1 (keeps_fresh (setTimeout _ _ _)) =>
  apply fresh_setTimeout; intros ?i : fresh.
#[local] Hint Extern 5 (keeps_fresh (fun _ => _)) =>
  by_state fresh_pointwise : fresh.
#[local] Hint Extern 4 (keeps_fresh (match ?x with _ => _ end)) =>
  destruct x : fresh.
#[local] Hint Extern 8 (keeps_fresh _) =>
  progress unfold socket_event, handle_connect, handle_disconnect,
    handle_connect_error, handle_connected, handle_messageSent,
    handle_botMessage, handle_error, handle_timer, api_reply,
    sendMessageViaSocket, sendMessage, connectSocket, reconnect, cleanup,
    disconnectSocket, run_once_listeners, setupHeartbeat, clearHeartbeat,
    scheduleReconnection, reconnect_timer_fires, socket_timeout_fires,
    sendMessage_resume, sendMessage_failed, empty_message, rejoin : fresh.

Lemma fresh_step env ev : keeps_fresh (step env ev).
Proof. destruct ev; cbn [step]; auto 30 with fresh. Qed.

(** ** Reachable states *)

Lemma retry_inv_step env ev c :
  retry_inv (store c) -> retry_inv (store (fst (step env ev c))).
Proof.
  intros (Hm & Hle & Hc).
  destruct (step_effect_of_step env ev c) as (Em & [(Er & Hn & Eb) | (_ & Ez & _)]).
  - split; [congruence|]. split.
    + destruct Hn as [Hn | (Hn & Hlt & _)]; lia.
    + intros Hb. destruct Hn as [Hn | (_ & _ & Hf)]; [|congruence].
      rewrite Er, Hn, (Hc (Eb Hb)). reflexivity.
  - split; [congruence|]. split; [lia | auto].
Qed.

Lemma run_app t1 t2 c :
  fst (run (t1 ++ t2) c) = fst (run t2 (fst (run t1 c))).
Proof.
  revert c. induction t1 as [|[env ev] r IH]; intros c; [reflexivity|].
  cbn [run app]. rewrite !fst_seq. apply IH.
Qed.

Lemma reachable_ind (P : Client -> Prop) :
  P initial ->
  (forall env ev c, P c -> P (fst (step env ev c))) ->
  forall c, reachable c -> P c.
Proof.
  intros H0 Hs c [trace <-].
  assert (G : forall t c0, P c0 -> P (fst (run t c0))).
  { induction t as [|[env ev] r IH]; intros c0 Hc0; [exact Hc0|].
    cbn [run]. rewrite fst_seq. apply IH, Hs, Hc0. }
  apply G, H0.
Qed.

Lemma reachable_step env ev c : reachable c -> reachable (fst (step env ev c)).
Proof.
  intros [trace <-]. exists (trace ++ [(env, ev)]).
  rewrite run_app. reflexivity.
Qed.

Lemma reachable_retry_inv c : reachable c -> retry_inv (store c).
Proof.
  revert c. apply (reachable_ind (fun c => retry_inv (store c))).
  - split; [reflexivity|]. split; [cbn; lia | discriminate].
  - intros env ev c0. apply retry_inv_step.
Qed.

Lemma reachable_fresh c : reachable c -> fresh_inv c.
Proof.
  revert c. apply reachable_ind.
  - split; intros k v [].
  - intros env ev c0. apply fresh_step.
Qed.

(** ** The retry ceiling *)

Lemma snd_run_cons env ev rest c :
  snd (run ((env, ev) :: rest) c)
  = snd (step env ev c) ++ snd (run rest (fst (step env ev c))).
Proof. reflexivity. Qed.

(** Between two resets the counter counts the retries scheduled. *)
Lemma retries_counted more c :
  forallb (fun p => negb (resets (snd p))) more = true ->
  connectionRetries (store (fst (run more c)))
  = connectionRetries (store c) + retries_scheduled (snd (run more c)).
Proof.
  revert c. induction more as [|[env ev] rest IH]; intros c Hnr.
  - cbn. lia.
  - cbn [forallb snd] in Hnr. apply andb_prop in Hnr. destruct Hnr as [Hev Hrest].
    rewrite snd_run_cons, retries_scheduled_app.
    cbn [run]. rewrite fst_seq, (IH _ Hrest).
    destruct (step_effect_of_step env ev c) as (_ & [(Er & _) | (Hr & _)]).
    + lia.
    + rewrite Hr in Hev. discriminate.
Qed.

Lemma run_reachable trace c : reachable c -> reachable (fst (run trace c)).
Proof.
  intros [t0 <-]. exists (t0 ++ trace). apply run_app.
Qed.

Lemma initial_reachable : reachable initial.
Proof. exists []. reflexivity. Qed.

(** C4.  Along every sequence of events: the retry counter never exceeds
    [maxRetries], which is 5; a successful connect puts it back to 0; once
    it has reached the ceiling the status is [failed] and no event makes
    the store schedule another reconnection; and in any stretch of events
    without a reset the retries scheduled are exactly what the counter
    gained, hence at most [maxRetries]. *)
Theorem retry_ceiling (trace : list (Env * Event)) :
  let c := fst (run trace initial) in
  maxRetries (store c) = 5
  /\ connectionRetries (store c) <= maxRetries (store c)
  /\ (forall env,
        socket_listening (store c) = true ->
        connectionRetries (store (fst (step env on_connect c))) = 0
        /\ connectionRetries (store (fst (step env on_connected c))) = 0)
  /\ (connectionRetries (store c) = maxRetries (store c) ->
        connectionStatus (store c) = st_failed
        /\ forall env ev, retries_scheduled (snd (step env ev c)) = 0)
  /\ (forall more,
        forallb (fun p => negb (resets (snd p))) more = true ->
        connectionRetries (store (fst (run more c)))
        = connectionRetries (store c) + retries_scheduled (snd (run more c))
        /\ retries_scheduled (snd (run more c)) <= maxRetries (store c)).
Proof.
  intros c.
  assert (R : reachable c) by (apply run_reachable, initial_reachable).
  destruct (reachable_retry_inv c R) as (Hm & Hle & Hc).
  split; [exact Hm|]. split; [exact Hle|]. split; [|split].
  - intros env Hl. cbn [step]. unfold socket_event. rewrite Hl. split.
    + unfold handle_connect. through_plain. reflexivity.
    + reflexivity.
  - intros Hceil. split.
    + unfold connectionStatus.
      destruct (isConnected (store c)) eqn:Hb.
      * rewrite (Hc eq_refl) in Hceil. lia.
      * cbn [andb]. rewrite Hceil, Nat.ltb_irrefl, andb_false_r, Nat.leb_refl.
        reflexivity.
    + intros env ev.
      destruct (step_effect_of_step env ev c)
        as (_ & [(_ & [Hn | (_ & Hlt & _)] & _) | (_ & _ & Hn)]);
        try exact Hn. lia.
  - intros more Hnr. pose proof (retries_counted more c Hnr) as Hcount.
    split; [exact Hcount|].
    assert (R' : reachable (fst (run more c))) by (apply run_reachable, R).
    destruct (reachable_retry_inv _ R') as (Hm' & Hle' & _). lia.
Qed.

Lemma retry_ceiling_witness :
  connectionRetries (store (fst (run five_errors initial))) = 5
  /\ connectionStatus (store (fst (run five_errors initial))) = st_failed
  /\ retries_scheduled
       (snd (step an_env (on_connect_error "xhr poll error")
                  (fst (run five_errors initial)))) = 0.
Proof.
  destruct (retry_ceiling five_errors) as (_ & _ & _ & Hceil & _).
  destruct (Hceil eq_refl) as [Hs Hq].
  split; [reflexivity|]. split; [exact Hs | apply Hq].
Defined.

(** ** Equality of messages *)

Lemma option_eqb_refl {A} (eqb : A -> A -> bool) (x : option A) :
  (forall a, eqb a a = true) -> option_eqb eqb x x = true.
Proof. intros H. destruct x; cbn; auto. Qed.

Lemma metadata_eqb_refl m : metadata_eqb m m = true.
Proof.
  unfold metadata_eqb.
  rewrite !option_eqb_refl;
    auto using String.eqb_refl, Nat.eqb_refl, Bool.eqb_reflx.
Qed.

Lemma message_eqb_refl m : message_eqb m m = true.
Proof.
  unfold message_eqb.
  rewrite String.eqb_refl, Nat.eqb_refl, Bool.eqb_reflx,
    !option_eqb_refl by auto using String.eqb_refl, metadata_eqb_refl.
  destruct (sender m), (messageType m); reflexivity.
Qed.

Lemma message_eqb_temp a b : message_eqb a b = true -> _temp a = _temp b.
Proof.
  unfold message_eqb. intros H.
  repeat (apply andb_prop in H; destruct H as [H ?]).
  now apply Bool.eqb_prop.
Qed.

(** ** Pending messages and copies *)

Lemma pending_app l1 l2 : pending (l1 ++ l2) = pending l1 + pending l2.
Proof. unfold pending. now rewrite filter_app, length_app. Qed.

Lemma copies_app m l1 l2 : copies m (l1 ++ l2) = copies m l1 + copies m l2.
Proof. unfold copies. now rewrite filter_app, length_app. Qed.

Lemma pending_drop_temp l : pending (drop_temp l) = 0.
Proof.
  unfold pending, drop_temp. induction l as [|a r IH]; [reflexivity|].
  cbn [filter]. destruct (_temp a) eqn:E; cbn [negb filter]; [exact IH|].
  rewrite E. exact IH.
Qed.

Lemma drop_temp_idem l : drop_temp (drop_temp l) = drop_temp l.
Proof.
  unfold drop_temp. induction l as [|a r IH]; [reflexivity|].
  cbn [filter]. destruct (_temp a) eqn:E; cbn [negb filter]; [exact IH|].
  rewrite E. cbn [negb]. now rewrite IH.
Qed.

Lemma drop_temp_app l1 l2 : drop_temp (l1 ++ l2) = drop_temp l1 ++ drop_temp l2.
Proof. apply filter_app. Qed.

(** A confirmed message is not among those that [drop_temp] removes. *)
Lemma copies_drop_temp m l :
  _temp m = false -> copies m (drop_temp l) = copies m l.
Proof.
  intros Hm. unfold copies, drop_temp.
  induction l as [|a r IH]; [reflexivity|].
  cbn [filter]. destruct (_temp a) eqn:E; cbn [negb filter].
  - destruct (message_eqb m a) eqn:Eq; [|exact IH].
    apply message_eqb_temp in Eq. congruence.
  - destruct (message_eqb m a); cbn [length]; now rewrite IH.
Qed.

(** ** Reconciliation *)

Lemma messages_reconcile t m s cur :
  currentConversation s = Some cur ->
  messages (reconcile t (Some m) s) = drop_temp (messages s) ++ [m].
Proof. intros Hc. unfold reconcile, addMessage. cbn. now rewrite Hc. Qed.

Lemma current_reconcile t m s cur :
  currentConversation s = Some cur ->
  exists cur', currentConversation (reconcile t m s) = Some cur'.
Proof.
  intros Hc. destruct m as [m|]; [|now exists cur].
  unfold reconcile, addMessage. cbn. rewrite Hc. cbn. eauto.
Qed.

Lemma store_clear_all l c : store (fst (clear_all l c)) = store c.
Proof.
  revert c. induction l as [|t r IH]; intros c; [reflexivity|].
  cbn [clear_all seq fst]. now rewrite IH.
Qed.

(** The [once] listeners only empty their own list. *)
Lemma store_run_once_listeners c :
  store (fst (run_once_listeners c))
  = match socket (store c) with
    | Some k => with_socket (Some (mkSocket (connected k) (listening k) []))
                            (store c)
    | None => store c
    end.
Proof.
  unfold run_once_listeners. destruct (socket (store c)); [|reflexivity].
  cbn [seq fst update with_store store]. now rewrite store_clear_all.
Qed.

(** What a [messageSent] event does to the message list. *)
Lemma step_messageSent env m c :
  socket_listening (store c) = true ->
  let c' := fst (step env (on_messageSent m) c) in
  messages (store c') = messages (reconcile (now env) m (store c))
  /\ currentConversation (store c')
     = currentConversation (reconcile (now env) m (store c))
  /\ socket_listening (store c') = true.
Proof.
  intros Hl. cbn [step]. unfold socket_event. rewrite Hl.
  unfold handle_messageSent. cbn zeta. rewrite fst_seq.
  rewrite store_run_once_listeners. cbn [update fst with_store store].
  assert (Hs : socket (reconcile (now env) m (store c)) = socket (store c)).
  { unfold reconcile, addMessage.
    destruct m; [|reflexivity]. cbn.
    destruct (currentConversation (store c)); reflexivity. }
  rewrite Hs. unfold socket_listening in Hl.
  destruct (socket (store c)) as [k|]; [|discriminate].
  repeat split. unfold socket_listening. cbn. exact Hl.
Qed.

(** C1, as stated, fails: after the same confirmation is handled twice the
    list holds the confirmed message twice. *)
Lemma reconcile_twice_duplicates :
  copies hello_confirmed (messages (store (fst (run confirmed_twice initial)))) = 2
  /\ copies hello_confirmed (messages (store (fst (run confirmed_twice initial)))) <> 1.
Proof. split; [vm_compute; reflexivity | vm_compute; discriminate]. Qed.

(** C1, amended.  With a conversation open, handling a confirmed (not
    pending) message removes every pending message and appends the
    confirmed one; handling the same confirmation again appends it once
    more.  After two rounds no pending message is left and the list ends
    with two copies of the confirmed message: each round adds one copy. *)
Theorem reconcile_twice env1 env2 m c cur :
  socket_listening (store c) = true ->
  currentConversation (store c) = Some cur ->
  _temp m = false ->
  let c1 := fst (step env1 (on_messageSent (Some m)) c) in
  let c2 := fst (step env2 (on_messageSent (Some m)) c1) in
  messages (store c1) = drop_temp (messages (store c)) ++ [m]
  /\ messages (store c2) = drop_temp (messages (store c)) ++ [m; m]
  /\ pending (messages (store c2)) = 0
  /\ copies m (messages (store c2)) = copies m (messages (store c)) + 2.
Proof.
  intros Hl Hc Hm c1 c2.
  destruct (step_messageSent env1 (Some m) c Hl) as (M1 & C1 & L1).
  fold c1 in M1, C1, L1.
  destruct (current_reconcile (now env1) (Some m) (store c) cur Hc) as [cur1 Hc1].
  rewrite <- C1 in Hc1.
  destruct (step_messageSent env2 (Some m) c1 L1) as (M2 & _ & _).
  fold c2 in M2.
  rewrite (messages_reconcile _ _ _ cur Hc) in M1.
  rewrite (messages_reconcile _ _ _ cur1 Hc1), M1 in M2.
  rewrite drop_temp_app, drop_temp_idem in M2.
  assert (Hd : drop_temp [m] = [m]) by (unfold drop_temp; cbn; now rewrite Hm).
  rewrite Hd, <- app_assoc in M2. cbn [app] in M2.
  split; [exact M1|]. split; [exact M2|]. rewrite M2. split.
  - rewrite pending_app, pending_drop_temp. unfold pending. cbn.
    now rewrite Hm.
  - rewrite copies_app, copies_drop_temp by exact Hm.
    unfold copies at 2. cbn. now rewrite message_eqb_refl.
Qed.

Lemma reconcile_twice_witness :
  let c1 := fst (step an_env (on_messageSent (Some hello_confirmed))
                      awaiting_confirmation) in
  let c2 := fst (step an_env (on_messageSent (Some hello_confirmed)) c1) in
  socket_listening (store awaiting_confirmation) = true
  /\ currentConversation (store awaiting_confirmation)
     = Some (mkCurrent "c1" "Support" 0)
  /\ _temp hello_confirmed = false
  /\ messages (store c2) = drop_temp (messages (store awaiting_confirmation))
                            ++ [hello_confirmed; hello_confirmed].
Proof.
  intros c1 c2. split; [reflexivity|]. split; [reflexivity|].
  split; [reflexivity|].
  exact (proj1 (proj2 (reconcile_twice an_env an_env hello_confirmed
                         awaiting_confirmation (mkCurrent "c1" "Support" 0)
                         eq_refl eq_refl eq_refl))).
Defined.

(** ** Optimistic sends *)

Lemma pending_addMessage t m s cur :
  currentConversation s = Some cur -> _temp m = true ->
  pending (messages (addMessage t (Some m) s)) = S (pending (messages s)).
Proof.
  intros Hc Hm. unfold addMessage. rewrite Hc.
  cbn [messages with_currentConversation with_messages].
  rewrite pending_app. unfold pending at 2. cbn. rewrite Hm. cbn. lia.
Qed.

Lemma messages_register_once t s :
  messages (register_once t s) = messages s.
Proof. unfold register_once. now destruct (socket s). Qed.

Lemma sendMessage_accepts env m cid c cur :
  JsString.blank (Some m) = false ->
  currentConversation (store c) = Some cur ->
  let r := sendMessage env (Some m) cid c in
  messages (store (fst r)) = messages (store c) ++ [tempUserMessage (now env) m]
  /\ snd r = [PostMessage (nextReq c) (JsString.trim m)
                          (effective_conversation cid (store c))]
  /\ inflight (fst r) = inflight c ++ [(nextReq c, mkSendFrame m cid)]
  /\ timers (fst r) = timers c
  /\ socket (store (fst r)) = socket (store c)
  /\ exists cur', currentConversation (store (fst r)) = Some cur'.
Proof.
  intros Hb Hc. unfold sendMessage. rewrite Hb.
  cbn [seq fst snd update post with_store store app].
  unfold addMessage, clearError, effective_conversation. cbn. rewrite Hc. cbn.
  repeat split. eauto.
Qed.

(** C2, amended.  A send is rejected only for blank content.  A send of
    non-blank content is accepted whatever is already pending: with a
    conversation open it appends one more pending message, and nothing is
    reported back as a failure. *)
Theorem send_while_pending env message cid c cur ev :
  ev = call_sendMessage message cid
  \/ ev = call_sendMessageViaSocket message cid ->
  currentConversation (store c) = Some cur ->
  if JsString.blank message
  then step env ev c = (c, [Return (mkResult false (Some "Empty message"))])
  else pending (messages (store (fst (step env ev c))))
       = S (pending (messages (store c)))
       /\ existsb is_rejection (snd (step env ev c)) = false.
Proof.
  intros Hev Hc. destruct (JsString.blank message) eqn:Hb.
  - destruct Hev as [-> | ->]; cbn [step];
      unfold sendMessage, sendMessageViaSocket;
      destruct message; rewrite ?Hb; reflexivity.
  - destruct message as [m|]; [|discriminate].
    destruct (sendMessage_accepts env m cid c cur Hb Hc) as (M & E & _).
    assert (viaApi :
        pending (messages (store (fst (sendMessage env (Some m) cid c))))
        = S (pending (messages (store c)))
        /\ existsb is_rejection (snd (sendMessage env (Some m) cid c)) = false).
    { rewrite M, E, pending_app. unfold pending at 2. cbn. split; [lia | reflexivity]. }
    destruct Hev as [-> | ->]; cbn [step]; [exact viaApi|].
    unfold sendMessageViaSocket. rewrite Hb.
    destruct (socket_connected (store c)); cbn [negb]; [|exact viaApi].
    cbn [seq fst snd update with_store store setTimeout effect app].
    split; [|reflexivity].
    rewrite messages_register_once.
    now apply (pending_addMessage _ _ _ cur).
Qed.

(** C2, as stated, fails: with one optimistic message pending a second
    send is accepted, reports success, and leaves two pending messages. *)
Lemma second_send_accepted :
  let r := step an_env (call_sendMessageViaSocket (Some "Are you there?") None)
                awaiting_confirmation in
  pending (messages (store awaiting_confirmation)) = 1
  /\ pending (messages (store (fst r))) = 2
  /\ In (Return (mkResult true None)) (snd r)
  /\ existsb is_rejection (snd r) = false.
Proof. vm_compute. intuition. Qed.

Lemma send_while_pending_witness :
  currentConversation (store awaiting_confirmation)
  = Some (mkCurrent "c1" "Support" 0)
  /\ JsString.blank (Some "Are you there?") = false
  /\ pending (messages (store awaiting_confirmation)) = 1
  /\ pending (messages (store (fst (step an_env
               (call_sendMessage (Some "Are you there?") None)
               awaiting_confirmation)))) = 2.
Proof.
  split; [reflexivity|]. split; [reflexivity|]. split; [reflexivity|].
  exact (proj1 (send_while_pending an_env (Some "Are you there?") None
                  awaiting_confirmation (mkCurrent "c1" "Support" 0)
                  (call_sendMessage (Some "Are you there?") None)
                  (or_introl eq_refl) eq_refl)).
Defined.

(** ** The timed-out socket send and its fallback *)

Lemma lookup_fresh {A} k (v : A) l :
  (forall k' v', In (k', v') l -> k' < k) ->
  lookup k (l ++ [(k, v)]) = Some v.
Proof.
  induction l as [|[k0 v0] r IH]; intros H; cbn.
  - now rewrite Nat.eqb_refl.
  - assert (k0 < k) by (apply (H k0 v0); now left).
    destruct (Nat.eqb_spec k0 k); [lia|].
    apply IH. intros k' v' Hin. apply (H k' v'). now right.
Qed.

Lemma confirmed_copies_app x l1 l2 :
  confirmed_copies x (l1 ++ l2) = confirmed_copies x l1 + confirmed_copies x l2.
Proof. unfold confirmed_copies. now rewrite filter_app, length_app. Qed.

Lemma confirmed_copies_drop_temp x l :
  confirmed_copies x (drop_temp l) = confirmed_copies x l.
Proof.
  unfold confirmed_copies, drop_temp. induction l as [|a r IH]; [reflexivity|].
  cbn [filter]. destruct (_temp a) eqn:E; cbn [negb andb filter]; [exact IH|].
  rewrite E. cbn [negb andb].
  destruct (sender_eqb (sender a) user && (content a =? x)%string);
    cbn [length]; now rewrite IH.
Qed.

(** A successful reply replaces the message list by the server's. *)
Lemma messages_accept_reply f conversation userMessage s :
  messages (accept_reply f conversation userMessage s)
  = conv_messages conversation
  /\ exists cur, currentConversation (accept_reply f conversation userMessage s)
                 = Some cur.
Proof.
  unfold accept_reply. cbn zeta.
  set (s1 := with_messages (drop_temp (messages s)) s).
  assert (H : forall s2,
             messages s2 = conv_messages conversation ->
             (exists cur, currentConversation s2 = Some cur) ->
             messages (match userMessage with
                       | Some _ =>
                           if no_conversationId (frame_conversationId f)
                              && JsString.truthy (conv_title conversation)
                           then updateConversationTitle (conv_title conversation) s2
                           else s2
                       | None => s2
                       end) = conv_messages conversation
             /\ exists cur,
                 currentConversation
                   (match userMessage with
                    | Some _ =>
                        if no_conversationId (frame_conversationId f)
                           && JsString.truthy (conv_title conversation)
                        then updateConversationTitle (conv_title conversation) s2
                        else s2
                    | None => s2
                    end) = Some cur).
  { intros s2 Hm [cur Hc]. destruct userMessage; [|eauto].
    destruct (_ && _); [|eauto].
    unfold updateConversationTitle. rewrite Hc.
    destruct (JsString.truthy _); cbn; eauto. }
  apply H.
  - destruct (currentConversation s1) as [cur|];
      [destruct (id cur =? conv_id conversation)%string|]; reflexivity.
  - destruct (currentConversation s1) as [cur|];
      [destruct (id cur =? conv_id conversation)%string|]; cbn; eauto.
Qed.

Lemma effective_addMessage cid t msg s :
  effective_conversation cid (addMessage t msg s) = effective_conversation cid s.
Proof.
  unfold effective_conversation, addMessage.
  destruct msg; [|reflexivity]. destruct (currentConversation s) eqn:E; cbn; rewrite ?E; reflexivity.
Qed.

Lemma sendMessageViaSocket_connected env m cid c :
  JsString.blank (Some m) = false ->
  socket_connected (store c) = true ->
  sendMessageViaSocket env (Some m) cid c
  = (mkClient (register_once (nextTimer c)
                 (addMessage (now env) (Some (tempUserMessage (now env) m))
                             (store c)))
              (timers c ++ [(nextTimer c, SocketTimeout m cid)])
              (S (nextTimer c)) (inflight c) (nextReq c),
     [ Emit (newMessage (JsString.trim m)
               (effective_conversation cid (store c)) (currentUserId env));
       SetTimeout (nextTimer c) (SocketTimeout m cid) 10000;
       Return (mkResult true None) ]).
Proof.
  intros Hb Hconn. unfold sendMessageViaSocket. rewrite Hb, Hconn.
  cbn [negb]. unfold seq, update, effect, setTimeout, seq, with_store.
  cbn [fst snd app store timers nextTimer inflight nextReq].
  now rewrite effective_addMessage.
Qed.

Lemma fresh_run trace c :
  fresh_inv c -> fresh_inv (fst (run trace c)).
Proof.
  revert c. induction trace as [|[env ev] r IH]; intros c F; [exact F|].
  cbn [run]. rewrite fst_seq. apply IH, fresh_step, F.
Qed.

(** The conversation id of a request, by what the caller gave. *)
Lemma effective_conversation_cases cid s cur :
  currentConversation s = Some cur ->
  effective_conversation cid s
  = if no_conversationId cid then Some (id cur) else cid.
Proof.
  intros Hc. unfold effective_conversation, no_conversationId.
  rewrite Hc. destruct cid as [i|]; [|reflexivity].
  now destruct (JsString.truthy i).
Qed.

(** C3, amended.  A send goes out on a connected socket with a
    conversation open.  Whatever happens next, as long as no confirmation
    has cleared the send's 10 second timeout and a conversation is open
    when it fires: the timeout clears the pending messages before the
    fallback adds the message again, so one pending message is shown, and
    the fallback request carries the same content as the socket emission.
    Its conversation id is the one the caller gave; when the caller gave
    none, the emission carries the id of the conversation that was current
    at the send and the request the id of the one that is current when the
    timeout fires, so the two agree only if the current conversation has
    kept its id.  The reply replaces the list by the server's messages.
    The late confirmation is not ignored: it is appended, so a confirmed
    user message gains one more copy. *)
Theorem fallback_after_timeout env1 env2 env3 env4 m cid c cur between cur2
        conversation userMessage late :
  fresh_inv c ->
  socket_connected (store c) = true ->
  currentConversation (store c) = Some cur ->
  JsString.blank (Some m) = false ->
  _temp late = false -> sender late = user ->
  let sent := step env1 (call_sendMessageViaSocket (Some m) cid) c in
  let waiting := fst (run between (fst sent)) in
  lookup (nextTimer c) (timers waiting) = Some (SocketTimeout m cid) ->
  currentConversation (store waiting) = Some cur2 ->
  socket_listening (store waiting) = true ->
  let timed_out := step env2 (timer_fires (nextTimer c)) waiting in
  let answered :=
    step env3 (api_replies (nextReq waiting) (ApiOk conversation userMessage))
         (fst timed_out) in
  let confirmed_late := step env4 (on_messageSent (Some late)) (fst answered) in
  snd sent = [ Emit (newMessage (JsString.trim m)
                       (if no_conversationId cid then Some (id cur) else cid)
                       (currentUserId env1));
               SetTimeout (nextTimer c) (SocketTimeout m cid) 10000;
               Return (mkResult true None) ]
  /\ messages (store (fst timed_out))
     = drop_temp (messages (store waiting)) ++ [tempUserMessage (now env2) m]
  /\ snd timed_out
     = [ PostMessage (nextReq waiting) (JsString.trim m)
           (if no_conversationId cid then Some (id cur2) else cid) ]
  /\ messages (store (fst answered)) = conv_messages conversation
  /\ messages (store (fst confirmed_late))
     = drop_temp (conv_messages conversation) ++ [late]
  /\ confirmed_copies (content late) (messages (store (fst confirmed_late)))
     = S (confirmed_copies (content late) (conv_messages conversation)).
Proof.
  intros F Hconn Hc Hb Hlt Hlu sent waiting Hlk Hc2 Hl timed_out answered
         confirmed_late.
  (* the send *)
  assert (Hsent : sent =
    (mkClient (register_once (nextTimer c)
                 (addMessage (now env1) (Some (tempUserMessage (now env1) m))
                             (store c)))
              (timers c ++ [(nextTimer c, SocketTimeout m cid)])
              (S (nextTimer c)) (inflight c) (nextReq c),
     [ Emit (newMessage (JsString.trim m)
               (effective_conversation cid (store c)) (currentUserId env1));
       SetTimeout (nextTimer c) (SocketTimeout m cid) 10000;
       Return (mkResult true None) ])).
  { subst sent. cbn [step]. now apply sendMessageViaSocket_connected. }
  split.
  { rewrite Hsent. cbn [snd].
    now rewrite (effective_conversation_cases cid (store c) cur Hc). }
  assert (Fw : fresh_inv waiting).
  { subst waiting. apply fresh_run. subst sent. apply fresh_step, F. }
  destruct Fw as [_ Fr].
  (* the timeout *)
  set (c1' := mkClient
                (with_messages (drop_temp (messages (store waiting)))
                               (store waiting))
                (remove (nextTimer c) (timers waiting))
                (nextTimer waiting) (inflight waiting) (nextReq waiting)).
  assert (Htimed : fst timed_out = fst (sendMessage env2 (Some m) cid c1')
                   /\ snd timed_out = snd (sendMessage env2 (Some m) cid c1')).
  { subst timed_out. cbn [step]. unfold handle_timer. rewrite Hlk.
    split; reflexivity. }
  destruct Htimed as [Tf Ts].
  destruct (sendMessage_accepts env2 m cid c1' cur2 Hb Hc2)
    as (M2 & E2 & I2 & _ & S2 & cur3 & C2).
  rewrite <- Tf in M2, I2, S2, C2. rewrite <- Ts in E2.
  split; [exact M2|].
  split.
  { rewrite E2. cbn [nextReq c1' store].
    change (effective_conversation cid
              (with_messages (drop_temp (messages (store waiting)))
                             (store waiting)))
      with (effective_conversation cid (store waiting)).
    now rewrite (effective_conversation_cases cid (store waiting) cur2 Hc2). }
  (* the reply *)
  assert (Hans : store (fst answered)
                 = accept_reply (mkSendFrame m cid) conversation userMessage
                                (store (fst timed_out))).
  { subst answered. cbn [step]. unfold api_reply. rewrite I2. cbn [inflight c1'].
    rewrite (lookup_fresh _ _ _ Fr). reflexivity. }
  destruct (messages_accept_reply (mkSendFrame m cid) conversation userMessage
              (store (fst timed_out))) as (M3 & cur4 & C3).
  rewrite <- Hans in M3, C3.
  split; [exact M3|].
  (* the late confirmation *)
  assert (L3 : socket_listening (store (fst answered)) = true).
  { rewrite Hans. unfold socket_listening, accept_reply.
    cbn zeta.
    assert (Hsock : socket (store (fst timed_out)) = socket (store waiting))
      by exact S2.
    unfold socket_listening in Hl.
    repeat match goal with
           | |- context [match ?x with _ => _ end] =>
               destruct x eqn:?; try discriminate
           end;
      unfold updateConversationTitle, setCurrentConversation in *;
      repeat match goal with
             | H : context [match ?x with _ => _ end] |- _ =>
                 destruct x eqn:?; try discriminate
             end; cbn in *; congruence. }
  destruct (step_messageSent env4 (Some late) (fst answered) L3) as (M4 & _).
  fold confirmed_late in M4.
  rewrite (messages_reconcile _ _ _ cur4 C3), M3 in M4.
  split; [exact M4|].
  rewrite M4, confirmed_copies_app, confirmed_copies_drop_temp.
  unfold confirmed_copies at 2. cbn. rewrite Hlt, Hlu, String.eqb_refl. cbn. lia.
Qed.

(** C3, as stated, fails: once the late confirmation has arrived the list
    holds two confirmed copies of the user message. *)
Lemma late_confirmation_duplicates :
  messages (store (fst (run late_confirmation initial)))
  = [hello_via_api; reply_stored; hello_confirmed]
  /\ confirmed_copies "Hello"
       (messages (store (fst (run late_confirmation initial)))) = 2.
Proof. vm_compute. split; reflexivity. Qed.

Lemma ready_reachable : reachable ready.
Proof. exists connected_with_conversation. vm_compute. reflexivity. Qed.

Lemma fallback_after_timeout_witness :
  let sent := step an_env (call_sendMessageViaSocket (Some "Hello") None)
                   ready in
  let waiting := fst (run switched (fst sent)) in
  let timed_out := step an_env (timer_fires (nextTimer ready)) waiting in
  fresh_inv ready
  /\ socket_connected (store ready) = true
  /\ currentConversation (store ready) = Some (mkCurrent "c1" "Support" 5)
  /\ JsString.blank (Some "Hello") = false
  /\ lookup (nextTimer ready) (timers waiting)
     = Some (SocketTimeout "Hello" None)
  /\ currentConversation (store waiting) = Some (mkCurrent "c2" "Billing" 6)
  /\ socket_listening (store waiting) = true
  /\ snd sent = [ Emit (newMessage "Hello" (Some "c1") (Some "u1"));
                  SetTimeout 2 (SocketTimeout "Hello" None) 10000;
                  Return (mkResult true None) ]
  /\ snd timed_out = [ PostMessage 1 "Hello" (Some "c2") ].
Proof.
  intros sent waiting timed_out.
  assert (F : fresh_inv ready).
  { split; cbn; intros k v H; [|destruct H].
    destruct H as [E|[]]. injection E as <- _. lia. }
  split; [exact F|]. do 6 (split; [reflexivity|]).
  pose proof (fallback_after_timeout an_env an_env an_env an_env "Hello"
                None ready (mkCurrent "c1" "Support" 5) switched
                (mkCurrent "c2" "Billing" 6)
                (mkConversation "c2" "Billing" 10 [hello_via_api; reply_stored])
                (Some hello_via_api) hello_confirmed F
                eq_refl eq_refl eq_refl eq_refl eq_refl eq_refl eq_refl eq_refl)
    as (Hs & _ & Ht & _).
  split; [exact Hs | exact Ht].
Defined.

(** ** Disconnects *)




(** In every connected state that can be reached the counter is 0, so the
    theorem above applies. *)
Lemma connected_below_ceiling c :
  reachable c -> isConnected (store c) = true ->
  fresh_inv c /\ connectionRetries (store c) < maxRetries (store c).
Proof.
  intros R Hc. split; [now apply reachable_fresh|].
  destruct (reachable_retry_inv c R) as (Hm & _ & Hz).
  rewrite (Hz Hc), Hm. lia.
Qed.


(** ** Cancelling a scheduled retry *)

Lemma lookup_remove {A} k (l : list (nat * A)) : lookup k (remove k l) = None.
Proof.
  induction l as [|[k0 v0] r IH]; [reflexivity|].
  cbn. destruct (Nat.eqb_spec k0 k); cbn; [exact IH|].
  destruct (Nat.eqb_spec k0 k); [contradiction | exact IH].
Qed.

Lemma clearHeartbeat_reconnectTimeout c :
  reconnectTimeout (store (fst (clearHeartbeat c))) = reconnectTimeout (store c).
Proof. unfold clearHeartbeat. now destruct (heartbeatInterval (store c)). Qed.

(** An explicit disconnect cancels the pending retry. *)
Lemma disconnectSocket_cancels_retry c t :
  reconnectTimeout (store c) = Some t ->
  lookup t (timers (fst (disconnectSocket c))) = None
  /\ reconnectTimeout (store (fst (disconnectSocket c))) = None
  /\ In (ClearTimeout t) (snd (disconnectSocket c)).
Proof.
  intros Hr. unfold disconnectSocket.
  rewrite <- clearHeartbeat_reconnectTimeout in Hr.
  cbn [seq fst snd]. set (c1 := fst (clearHeartbeat c)) in *.
  rewrite Hr. cbn [seq fst snd clearTimeout update with_store store app].
  split; [|split].
  - destruct (socket (with_reconnectTimeout None (store c1)));
      apply lookup_remove.
  - now destruct (socket (with_reconnectTimeout None (store c1))).
  - apply in_or_app. right. now left.
Qed.

(** C8: a manual reconnect leaves the scheduled retry in place.  The retry
    timer set by the failed attempt is still pending after [reconnect()]
    has opened a new socket, and when it fires it calls
    [socket.connect()] on that socket: a second, concurrent attempt.  An
    explicit [disconnectSocket()] in the same state cancels the timer. *)
Theorem manual_reconnect_keeps_retry :
  let reconnected := step an_env call_reconnect retry_pending in
  reconnectTimeout (store retry_pending) = Some 1
  /\ lookup 1 (timers retry_pending) = Some ReconnectTimer
  /\ snd reconnected = [CloseSocket; OpenSocket]
  /\ lookup 1 (timers (fst reconnected)) = Some ReconnectTimer
  /\ snd (step an_env (timer_fires 1) (fst reconnected)) = [ConnectSocket]
  /\ lookup 1 (timers (fst (step an_env call_disconnectSocket retry_pending)))
     = None.
Proof. vm_compute. repeat split. Qed.

End ChatStoreFacts.

(* ===================================================================== *)
(** * Properties of the router                                            *)
(* ===================================================================== *)

Module RouterFacts.
Import ChatController.

(** ** Database calls that resolve *)

Lemma all_resolve_cases results :
  all_resolve results ->
  results = [] \/ exists r, results = true :: r /\ all_resolve r.
Proof.
  unfold all_resolve. destruct results as [|[] r]; cbn; intros H.
  - now left.
  - right. eauto.
  - discriminate.
Qed.

(** Run the next database call of the goal, which resolves. *)
Ltac next_db H :=
  let r := fresh "results" in
  destruct (all_resolve_cases _ H) as [-> | (r & -> & ?)];
  [ try clear H | clear H ].

Ltac run_handler :=
  unfold handleNewMessage, handleNewMessage_body, handleNewMessage_reply,
    handleNewMessage_aiError, sendMessage, sendMessage_body,
    sendMessage_reply, sendMessage_aiError, new_Conversation, save, touch,
    push, respond, the_string, the_conversation, set_conversation, generate,
    await_db, new_Date, act, try_catch, bind, ret, throw, start;
  cbn [fst snd log provider reads db_results conversation tl app
       data_message data_conversationId data_userId body_message
       body_conversationId req_userId].

Section WithProvider.

Variable Provider : Type.
Variable generateResponse :
  string -> list Message -> Provider -> Outcome Completion * Provider.

(** The schema leaves the user message as the handlers build it. *)
Lemma cast_user message t :
  cast (plain user (JsString.trim message) t None)
  = plain user (JsString.trim message) t None.
Proof.
  unfold cast, plain.
  cbn [sender content timestamp messageType metadata cast_metadata].
  now rewrite JsStringFacts.trim_idempotent.
Qed.

Lemma accepted message :
  acceptable message ->
  negb (JsString.truthy message)
  || negb (JsString.truthy (JsString.trim message)) = false
  /\ (4000 <? JsString.length message) = false.
Proof.
  intros (H1 & H2 & H3). rewrite H1, H2. split; [reflexivity|].
  now apply Nat.ltb_ge.
Qed.

(** ** The confirmation and the save *)

(** C9, amended.  Whatever the provider and the later database calls
    do, once the lookup has resolved the log of [handleNewMessage]
    starts with the typing signal, the lookup and the [messageSent]
    confirmation: no [save] comes before the confirmation, so the
    message it confirms is not persisted when it is emitted.  Every
    [save] that follows writes a conversation containing the confirmed
    message. *)
Theorem confirmation_precedes_persistence env p results message cid uid :
  hd true results = true ->
  let l := log (snd (handleNewMessage generateResponse env
                       (mkData (Some message) cid uid) (start p results))) in
  exists um rest,
    l = [ ToRoom uid (botTyping cid); FindOne true;
          ToSender (messageSent um) ] ++ rest
    /\ shape um = (user, JsString.trim message, text, None)
    /\ (forall doc ok, In (Save doc ok) rest -> In um (doc_messages doc))
    /\ confirmations_persisted [] l = false.
Proof.
  intros Hhd l. subst l. run_handler.
  destruct results as [|b1 results]; [|cbn in Hhd; subst b1];
    cbn; destruct (findOne env) as [c|]; cbn;
    match goal with
    | |- context [generateResponse ?m ?h ?q] =>
        destruct (generateResponse m h q) as [[r|e] p']
    end; cbn;
    try (destruct results as [|[] results]; cbn);
    try (destruct results as [|[] results]; cbn);
    eexists; eexists;
    (split; [reflexivity|]); (split; [reflexivity|]);
    (split; [|reflexivity]);
    intros doc ok Hin; cbn in Hin;
    repeat match goal with
           | H : _ \/ _ |- _ => destruct H
           | H : False |- _ => destruct H
           | H : Save _ _ = Save _ _ |- _ => injection H as <- <-
           | H : _ = Save _ _ |- _ => discriminate H
           end;
    cbn; rewrite ?in_app_iff; cbn; rewrite ?cast_user; auto 6.
Qed.

(** ** The two paths *)

(** C6.  One acceptable message, no conversation id and no conversation
    found, database calls resolving: the socket path and the HTTP path
    make the same completion call (same message, same history: the user
    message alone), and each leaves a stored conversation of exactly two
    messages, the user message and a reply from the bot as the schema
    casts it, with the same identifiers, owner, title and status; the
    replies have the same shape, the socket path emits its reply as
    [botMessage] and the HTTP path returns its reply with status 200.
    When the provider returns, the two stored conversations are equal. *)
Theorem paths_agree env p results message uid :
  acceptable message ->
  findOne env = None ->
  all_resolve results ->
  let ws := snd (handleNewMessage generateResponse env
                   (mkData (Some message) None (Some uid)) (start p results)) in
  let wh := snd (sendMessage generateResponse env
                   (mkRequest (Some message) None uid) (start p results)) in
  let um := plain user (JsString.trim message) (clock env 1) None in
  provider ws = snd (generateResponse message [um] p)
  /\ provider wh = snd (generateResponse message [um] p)
  /\ exists ds dh reply_s reply_h,
      stored (log ws) = Some ds /\ stored (log wh) = Some dh
      /\ doc_messages ds = [um; cast reply_s]
      /\ doc_messages dh = [um; cast reply_h]
      /\ sender reply_s = bot
      /\ shape reply_s = shape reply_h
      /\ (doc_id ds, doc_userId ds, doc_sessionId ds, doc_title ds,
          doc_status ds)
         = (doc_id dh, doc_userId dh, doc_sessionId dh, doc_title dh,
            doc_status dh)
      /\ (exists md, In (ToSender (botMessage reply_s md)) (log ws))
      /\ (exists note md,
            In (Respond 200 (Sent note dh um reply_h md)) (log wh))
      /\ (forall r p', generateResponse message [um] p = (Returns r, p') ->
           ds = dh).
Proof.
  intros Hacc Hnone Hres ws wh um. subst ws wh um.
  destruct (accepted message Hacc) as [Hv Hlen].
  unfold sendMessage, sendMessage_body. cbn [body_message body_conversationId].
  rewrite Hv, Hlen. cbn [has_id].
  run_handler. rewrite Hnone. cbn.
  assert (Hlast : OpenAIService.last_n 10
                    [plain user (JsString.trim message) (clock env 1) None]
                  = [plain user (JsString.trim message) (clock env 1) None])
    by reflexivity.
  next_db Hres; cbn; rewrite ?cast_user, ?Hlast;
    destruct (generateResponse message
                [plain user (JsString.trim message) (clock env 1) None] p)
      as [[r|e] p'] eqn:E; cbn;
    try (next_db H; cbn); try (next_db H0; cbn);
    (split; [reflexivity|]); (split; [reflexivity|]);
    do 4 eexists;
    (split; [reflexivity|]); (split; [reflexivity|]);
    (split; [reflexivity|]); (split; [reflexivity|]);
    (split; [reflexivity|]); (split; [reflexivity|]);
    (split; [reflexivity|]);
    (split; [eexists; cbn; auto 10|]);
    (split; [do 2 eexists; cbn; auto 10|]);
    intros r0 p0 E0; try discriminate; reflexivity.
Qed.

(** ** When the completion call returns *)

(** With a provider that returns, and never labels its own metadata as
    an error, no run whose database calls resolve sends the apology. *)
Lemma no_fallback_when_provider_returns env p results :
  all_resolve results ->
  (forall m h, exists r p',
      generateResponse m h p = (Returns r, p')
      /\ md_error (reply_metadata r) = None
      /\ md_aiError (reply_metadata r) = None) ->
  (forall data,
      existsb is_fallback_reply
        (log (snd (handleNewMessage generateResponse env data
                     (start p results)))) = false)
  /\ (forall req,
      existsb is_fallback_reply
        (log (snd (sendMessage generateResponse env req
                     (start p results)))) = false).
Proof.
  intros Hres Hret. split.
  - intros [[message|] cid uid]; run_handler.
    + next_db Hres; cbn; destruct (findOne env) as [c|]; cbn;
        match goal with
        | |- context [generateResponse ?m ?h ?q] =>
            destruct (Hret m h) as (r & p' & E & Hm1 & Hm2); rewrite E
        end; cbn; try (next_db H; cbn); now rewrite ?Hm1.
    + next_db Hres; cbn; destruct (findOne env) as [c|]; cbn;
        try reflexivity;
        match goal with
        | |- context [generateResponse ?m ?h ?q] =>
            destruct (Hret m h) as (r & p' & E & Hm1 & Hm2); rewrite E
        end; cbn; try (next_db H; cbn); now rewrite ?Hm1.
  - intros [[message|] cid uid]; unfold sendMessage, sendMessage_body;
      cbn [body_message body_conversationId]; [|reflexivity].
    destruct (negb (JsString.truthy message) || _); [reflexivity|].
    destruct (4000 <? JsString.length message); [reflexivity|].
    destruct (has_id cid); run_handler.
    + next_db Hres; cbn; destruct (findOne env) as [c|]; cbn;
        try reflexivity;
        match goal with
        | |- context [generateResponse ?m ?h ?q] =>
            destruct (Hret m h) as (r & p' & E & Hm1 & Hm2); rewrite E
        end; cbn;
        try (next_db H; cbn); try (next_db H0; cbn); now rewrite ?Hm2.
    + cbn.
      match goal with
      | |- context [generateResponse ?m ?h ?q] =>
          destruct (Hret m h) as (r & p' & E & Hm1 & Hm2); rewrite E
      end; cbn.
      next_db Hres; cbn; try (next_db H; cbn); now rewrite ?Hm2.
Qed.

End WithProvider.

End RouterFacts.

(* ===================================================================== *)
(** * Properties of the completion service and of the router with it      *)
(* ===================================================================== *)

Module ProviderFacts.
Import OpenAIService ChatController RouterFacts.

Lemma mock_text_not_empty userMessage errorType :
  mock_text userMessage errorType <> "".
Proof.
  unfold mock_text. cbv zeta.
  repeat match goal with
         | |- (if ?b then _ else _) <> _ => destruct b; [discriminate|]
         end.
  destruct errorType as [t|]; [destruct (JsString.truthy t)|]; discriminate.
Qed.

(** Every way out of the [catch] block is a mock response that names the
    kind of failure. *)
Lemma recover_returns env userMessage e svc :
  exists kind svc',
    recover env userMessage e svc
    = (Returns (getMockResponse userMessage (Some kind)), svc').
Proof.
  unfold recover.
  repeat match goal with
         | |- context [if ?b then _ else _] => destruct b
         end; eauto.
Qed.

(** The [try] block returns a mock response, the provider's completion, or
    throws. *)
Lemma attempt_cases env userMessage history svc :
  (exists errorType svc',
      attempt env userMessage history svc
      = (Returns (getMockResponse userMessage errorType), svc'))
  \/ (exists reply md svc',
        attempt env userMessage history svc
        = (Returns (mkCompletion reply md), svc')
        /\ md_isMock md = Some false
        /\ md_error md = None /\ md_aiError md = None)
  \/ (exists e, attempt env userMessage history svc = (Throws e, svc)).
Proof.
  unfold attempt. cbv zeta.
  destruct (match rateLimitedUntil svc with
            | Some t => (0 <? t) && (now env <? t)
            | None => false
            end); [left; eauto|].
  destruct (useMockResponse svc || (maxFailures svc <=? failureCount svc));
    [left; eauto|].
  destruct (completions_create env _) as [r|e]; [|right; right; eauto].
  destruct (api_choice r) as [reply|]; [|right; right; eauto].
  right. left. do 3 eexists. split; [reflexivity|]. auto.
Qed.

(** C10, amended.  [generateResponse] returns for every message, history,
    service state and behaviour of the provider: it never throws.  When
    its [try] block throws, what it returns is a non-empty mock response
    whose metadata has [isMock = true] and names the failure.  So the
    router's [catch (aiError)] blocks are never entered because of the
    provider: as long as the database calls of a run resolve, neither
    path sends the apology. *)
Theorem generateResponse_never_throws env userMessage history svc :
  (exists r svc',
      generateResponse env userMessage history svc = (Returns r, svc')
      /\ md_error (reply_metadata r) = None
      /\ md_aiError (reply_metadata r) = None
      /\ (forall e svc0,
            attempt env userMessage history svc = (Throws e, svc0) ->
            md_isMock (reply_metadata r) = Some true
            /\ md_errorType (reply_metadata r) <> None
            /\ response r <> ""))
  /\ (forall renv results,
        all_resolve results ->
        (forall data,
            existsb is_fallback_reply
              (log (snd (handleNewMessage (generateResponse env) renv data
                           (start svc results)))) = false)
        /\ (forall req,
            existsb is_fallback_reply
              (log (snd (sendMessage (generateResponse env) renv req
                           (start svc results)))) = false)).
Proof.
  assert (Hret : forall m h s,
             exists r s',
               generateResponse env m h s = (Returns r, s')
               /\ md_error (reply_metadata r) = None
               /\ md_aiError (reply_metadata r) = None
               /\ (forall e s0,
                     attempt env m h s = (Throws e, s0) ->
                     md_isMock (reply_metadata r) = Some true
                     /\ md_errorType (reply_metadata r) <> None
                     /\ response r <> "")).
  { intros m h s. unfold generateResponse.
    destruct (attempt_cases env m h s)
      as [(t & s' & E) | [(reply & md & s' & E & _ & He & Ha) | (e & E)]];
      rewrite E.
    - do 2 eexists. split; [reflexivity|]. repeat split; discriminate.
    - do 2 eexists. split; [reflexivity|]. repeat split; auto; discriminate.
    - destruct (recover_returns env m e s) as (kind & s' & R). rewrite R.
      do 2 eexists. split; [reflexivity|]. repeat split;
        solve [discriminate | apply mock_text_not_empty]. }
  split; [apply Hret|].
  intros renv results Hres.
  apply no_fallback_when_provider_returns; [exact Hres|].
  intros m h. destruct (Hret m h svc) as (r & s' & E & H1 & H2 & _). eauto.
Qed.

End ProviderFacts.
Module RouterExamples.
Import ChatController RouterFacts ProviderFacts RouterScenarios.

(** The payloads of [ClientScenarios.late_confirmation] are what the router
    sends in [socket_attempt] and [http_fallback]. *)
Lemma late_confirmation_payloads :
  In (ToSender (messageSent ClientScenarios.hello_confirmed)) socket_attempt
  /\ exists doc md,
       In (Respond 200 (Sent "Message sent successfully" doc
                             ClientScenarios.hello_via_api
                             ClientScenarios.reply_via_api md)) http_fallback
       /\ to_client doc
          = ChatStore.mkConversation "c1" "Support" 10
              [ClientScenarios.hello_via_api; ClientScenarios.reply_stored].
Proof.
  split; [vm_compute; auto|].
  do 2 eexists. split; [vm_compute; do 3 right; left; reflexivity | reflexivity].
Qed.

Lemma hello_acceptable : acceptable "Hello".
Proof. repeat split; cbn; lia. Qed.

(** C9, as stated, fails: in a run where nothing goes wrong the
    confirmation is emitted before anything has been saved, and in a run
    where the saves are rejected the message is confirmed and never
    stored. *)
Lemma confirmed_before_saved :
  confirmations_persisted [] healthy = false
  /\ In (ToSender (messageSent (plain user "Hello" 101 None))) saves_rejected
  /\ stored saves_rejected = None.
Proof. vm_compute. intuition. Qed.

Lemma confirmation_precedes_persistence_witness :
  hd true [true; false; false] = true
  /\ confirmations_persisted [] saves_rejected = false.
Proof.
  split; [reflexivity|].
  destruct (confirmation_precedes_persistence _
              (OpenAIService.generateResponse rate_limited) first_contact
              service [true; false; false] "Hello" None (Some "u1") eq_refl)
    as (um & rest & _ & _ & _ & H).
  exact H.
Defined.

Lemma paths_agree_witness :
  acceptable "Hello"
  /\ findOne first_contact = None
  /\ all_resolve []
  /\ provider (snd (handleNewMessage
                     (OpenAIService.generateResponse rate_limited)
                     first_contact hello (start service [])))
     = provider (snd (sendMessage
                        (OpenAIService.generateResponse rate_limited)
                        first_contact hello_request (start service []))).
Proof.
  split; [exact hello_acceptable|]. split; [reflexivity|]. split; [reflexivity|].
  destruct (paths_agree _ (OpenAIService.generateResponse rate_limited)
              first_contact service [] "Hello" "u1" hello_acceptable
              eq_refl eq_refl) as (Hs & Hh & _).
  exact (eq_trans Hs (eq_sym Hh)).
Defined.

(** C10, as stated, fails: the provider returns (a mock response, after a
    rate limit), the save that follows is rejected, and the [catch
    (aiError)] block runs: the apology is saved and emitted with
    [metadata.error = true]. *)
Lemma save_failure_reaches_catch :
  existsb is_fallback_reply save_rejected_once = true
  /\ In (ToSender (botMessage (plain bot apology 104 (Some error_metadata))
                              error_metadata)) save_rejected_once.
Proof. vm_compute. intuition. Qed.

Lemma generateResponse_never_throws_witness :
  all_resolve [true; true]
  /\ existsb is_fallback_reply
       (log (snd (handleNewMessage
                    (OpenAIService.generateResponse rate_limited)
                    first_contact hello (start service [true; true])))) = false.
Proof.
  split; [reflexivity|].
  exact (proj1 (proj2 (generateResponse_never_throws rate_limited "Hello" []
                         service) first_contact [true; true] eq_refl) hello).
Defined.

End RouterExamples.

(* ===================================================================== *)
(** * Timers, cleanup and connection status of the client store           *)
(* ===================================================================== *)

Module ChatStoreTimerFacts.
Import ChatStore ChatStoreInvariants ClientScenarios TimerInvariants.
Import TimerScenarios ChatStoreFacts.

(** ** The timer table *)

Lemma NoDup_remove {A} k (l : list (nat * A)) :
  NoDup (map fst l) -> NoDup (map fst (remove k l)).
Proof.
  unfold remove. induction l as [|[k0 v] r IH]; cbn; intros H; [constructor|].
  inversion H as [|? ? Hn Hr]; subst.
  destruct (k0 =? k); cbn; auto.
  constructor; auto. intros Hin. apply Hn.
  apply in_map_iff in Hin. destruct Hin as ([k1 v1] & E & Hin).
  cbn in E. subst k1. apply filter_In in Hin.
  apply in_map_iff. exists (k0, v1). tauto.
Qed.

Lemma In_remove_neq {A} k (v : A) x l : In (k, v) (remove x l) -> k <> x.
Proof.
  unfold remove. intros H. apply filter_In in H. destruct H as [_ H].
  cbn in H. destruct (Nat.eqb_spec k x); [discriminate | assumption].
Qed.

Lemma tracked_store hb rc c c' :
  timers c' = timers c -> nextTimer c' = nextTimer c ->
  tracked hb rc c -> tracked hb rc c'.
Proof. unfold tracked. intros -> ->. auto. Qed.

(** Removing a timer keeps the table tracked. *)
Lemma tracked_remove hb rc t c :
  tracked hb rc c -> tracked hb rc (fst (clearTimeout t c)).
Proof.
  intros (F & N & H & R). repeat split; cbn.
  - intros k v Hin. eapply F, In_remove, Hin.
  - now apply NoDup_remove.
  - intros k Hin. eapply H, In_remove, Hin.
  - intros k Hin. eapply R, In_remove, Hin.
Qed.

(** Removing the heartbeat interval the store knows leaves no heartbeat
    interval pending; likewise for the reconnection timer. *)
Lemma tracked_clear_heartbeat hb' rc t c :
  tracked (Some t) rc c -> tracked hb' rc (fst (clearTimeout t c)).
Proof.
  intros T. destruct (tracked_remove _ _ t c T) as (F & N & H & R).
  repeat split; auto.
  intros k Hin. specialize (H k Hin). injection H as <-.
  cbn in Hin. now apply In_remove_neq in Hin.
Qed.

Lemma tracked_clear_reconnect hb rc' t c :
  tracked hb (Some t) c -> tracked hb rc' (fst (clearTimeout t c)).
Proof.
  intros T. destruct (tracked_remove _ _ t c T) as (F & N & H & R).
  repeat split; auto.
  intros k Hin. specialize (R k Hin). injection R as <-.
  cbn in Hin. now apply In_remove_neq in Hin.
Qed.

Lemma tracked_no_heartbeat hb' rc c : tracked None rc c -> tracked hb' rc c.
Proof.
  intros (F & N & H & R). repeat split; auto.
  intros k Hin. specialize (H k Hin). discriminate.
Qed.

Lemma tracked_no_reconnect hb rc' c : tracked hb None c -> tracked hb rc' c.
Proof.
  intros (F & N & H & R). repeat split; auto.
  intros k Hin. specialize (R k Hin). discriminate.
Qed.

Lemma fst_setTimeout t d k c :
  fst (setTimeout t d k c) = fst (k (nextTimer c) (armed t c)).
Proof. reflexivity. Qed.

Lemma tracked_armed hb rc t c :
  tracked hb rc c ->
  (t = HeartbeatTimer -> hb = Some (nextTimer c)) ->
  (t = ReconnectTimer -> rc = Some (nextTimer c)) ->
  tracked hb rc (armed t c).
Proof.
  intros (F & N & H & R) Hh Hr. repeat split; cbn.
  - intros k v Hin. apply in_app_or in Hin. destruct Hin as [Hin|[E|[]]].
    + apply F in Hin. lia.
    + injection E as <- _. lia.
  - rewrite map_app. cbn. apply NoDup_app; [exact N | repeat constructor; auto |].
    intros k Hin [<-|[]]. apply in_map_iff in Hin.
    destruct Hin as ([k1 v1] & E & Hin). cbn in E. subst k1.
    apply F in Hin. lia.
  - intros k Hin. apply in_app_or in Hin. destruct Hin as [Hin|[E|[]]]; auto.
    injection E as <- Et. now apply Hh.
  - intros k Hin. apply in_app_or in Hin. destruct Hin as [Hin|[E|[]]]; auto.
    injection E as <- Et. now apply Hr.
Qed.

(** ** Handlers that leave the timer bookkeeping alone *)

Lemma timer_plain_skip : timer_plain skip.
Proof. intros hb rc c T. repeat split; auto; apply T. Qed.

Lemma timer_plain_effect e : timer_plain (effect e).
Proof. intros hb rc c T. repeat split; auto; apply T. Qed.

Lemma timer_plain_update f : timer_neutral f -> timer_plain (update f).
Proof.
  intros Hf hb rc c T. split; [exact T|]. split; [apply Hf | apply Nat.le_refl].
Qed.

Lemma timer_plain_seq h k : timer_plain h -> timer_plain k -> timer_plain (h ;; k).
Proof.
  intros Hh Hk hb rc c T. destruct (Hh hb rc c T) as (T1 & E1 & L1).
  destruct (Hk hb rc _ T1) as (T2 & E2 & L2). split; [exact T2|].
  cbn [seq fst]. split; [congruence | lia].
Qed.

Lemma timer_plain_clearTimeout t : timer_plain (clearTimeout t).
Proof.
  intros hb rc c T. split; [now apply tracked_remove|].
  split; [reflexivity | apply Nat.le_refl].
Qed.

Lemma timer_plain_expire t : timer_plain (expire t).
Proof. exact (timer_plain_clearTimeout t). Qed.

Lemma timer_plain_settle req : timer_plain (settle req).
Proof.
  intros hb rc c T. split; [exact T|]. split; [reflexivity | apply Nat.le_refl].
Qed.

Lemma timer_plain_post m cid : timer_plain (post m cid).
Proof.
  intros hb rc c T. split; [exact T|]. split; [reflexivity | apply Nat.le_refl].
Qed.

Lemma timer_plain_setTimeout m cid d k :
  (forall i, timer_plain (k i)) ->
  timer_plain (setTimeout (SocketTimeout m cid) d k).
Proof.
  intros Hk hb rc c T. rewrite fst_setTimeout.
  destruct (Hk (nextTimer c) hb rc (armed (SocketTimeout m cid) c))
    as (T' & E & L).
  - apply tracked_armed; [exact T | discriminate | discriminate].
  - split; [exact T'|]. split; [exact E|]. cbn in L. lia.
Qed.

Lemma timer_plain_pointwise (h : Handler) :
  (forall c, exists h', h c = h' c /\ timer_plain h') -> timer_plain h.
Proof.
  intros H hb rc c. destruct (H c) as (h' & E & Hp). rewrite E. apply Hp.
Qed.

Lemma timer_plain_clear_all l : timer_plain (clear_all l).
Proof.
  induction l as [|t r IH]; simpl.
  - apply timer_plain_skip.
  - apply timer_plain_seq; [apply timer_plain_clearTimeout | exact IH].
Qed.

Ltac timer_neutrality :=
  intros ?s;
  unfold reconcile, accept_reply, addMessage, setCurrentConversation,
    updateConversationTitle, register_once, library_sets_connected,
    setTyping, setError, clearError, setConnected;
  cbv zeta;
  repeat match goal with
         | |- context [match ?x with _ => _ end] => destruct x
         end;
  reflexivity.

Create HintDb timers discriminated.

#[local] Hint Resolve timer_plain_skip timer_plain_effect timer_plain_seq
  timer_plain_update timer_plain_clearTimeout timer_plain_expire
  timer_plain_post timer_plain_settle timer_plain_clear_all : timers.
#[local] Hint Extern 1 (timer_plain (setTimeout _ _ _)) =>
  apply timer_plain_setTimeout; intros ?i : timers.
#[local] Hint Extern 1 (timer_neutral _) => solve [timer_neutrality] : timers.
#[local] Hint Extern 5 (timer_plain (fun _ => _)) =>
  by_state timer_plain_pointwise : timers.

Lemma timer_plain_sendMessage env m cid : timer_plain (sendMessage env m cid).
Proof.
  unfold sendMessage, empty_message.
  destruct m; [destruct (JsString.blank _)|]; auto 8 with timers.
Qed.

#[local] Hint Resolve timer_plain_sendMessage : timers.

Lemma timer_plain_sendMessageViaSocket env m cid :
  timer_plain (sendMessageViaSocket env m cid).
Proof.
  unfold sendMessageViaSocket, empty_message.
  destruct m; [destruct (JsString.blank _)|]; auto 10 with timers.
Qed.

Lemma timer_plain_api_reply req r : timer_plain (api_reply req r).
Proof.
  unfold api_reply. by_state timer_plain_pointwise; auto with timers.
  apply timer_plain_seq; [apply timer_plain_settle|].
  unfold sendMessage_resume, sendMessage_failed.
  destruct r; auto 8 with timers.
Qed.

Lemma timer_plain_handle_timer env t : timer_plain (handle_timer env t).
Proof.
  unfold handle_timer, reconnect_timer_fires, socket_timeout_fires.
  by_state timer_plain_pointwise; auto 8 with timers.
Qed.

Lemma timer_plain_handle_messageSent env m :
  timer_plain (handle_messageSent env m).
Proof.
  unfold handle_messageSent, run_once_listeners. auto 8 with timers.
Qed.

Lemma timer_plain_connectSocket env : timer_plain (connectSocket env).
Proof.
  unfold connectSocket. by_state timer_plain_pointwise; auto with timers.
  apply timer_plain_seq; [auto 8 with timers|].
  destruct (token env) as [tk|]; [destruct (JsString.truthy tk)|];
    auto 8 with timers.
Qed.

Lemma timer_plain_rejoin : timer_plain rejoin.
Proof. unfold rejoin. auto with timers. Qed.

(** ** Handlers that keep the store's timer fields right *)

Lemma keeps_timers_plain h : timer_plain h -> keeps_timers h.
Proof.
  intros Hp c [T [Kh Kr]]. destruct (Hp _ _ c T) as (T' & E & L).
  unfold timers_inv, known. unfold timer_fields in E. injection E as -> ->.
  split; [exact T'|]. split; intros k Hk.
  - apply Kh in Hk. lia.
  - apply Kr in Hk. lia.
Qed.

Lemma keeps_timers_seq h k :
  keeps_timers h -> keeps_timers k -> keeps_timers (h ;; k).
Proof. intros Hh Hk c T. apply Hk, Hh, T. Qed.

Lemma keeps_timers_socket_event h :
  keeps_timers h -> keeps_timers (socket_event h).
Proof.
  intros Hh c T. unfold socket_event.
  destruct (socket_listening (store c)); [now apply Hh | exact T].
Qed.

(** After [clearHeartbeat] no heartbeat interval is pending. *)
Lemma clearHeartbeat_tracked c :
  timers_inv c ->
  (forall hb, tracked hb (reconnectTimeout (store c)) (fst (clearHeartbeat c)))
  /\ heartbeatInterval (store (fst (clearHeartbeat c))) = None
  /\ reconnectTimeout (store (fst (clearHeartbeat c))) = reconnectTimeout (store c)
  /\ nextTimer (fst (clearHeartbeat c)) = nextTimer c.
Proof.
  unfold timers_inv, clearHeartbeat. intros [T _].
  destruct (heartbeatInterval (store c)) as [h|] eqn:E.
  - split; [|repeat split].
    intros hb. cbn [seq fst update].
    apply tracked_store with (c := fst (clearTimeout h c)); [reflexivity..|].
    now apply tracked_clear_heartbeat.
  - split; [|repeat split; exact E].
    intros hb. now apply tracked_no_heartbeat.
Qed.

Lemma keeps_timers_clearHeartbeat : keeps_timers clearHeartbeat.
Proof.
  intros c T. destruct (clearHeartbeat_tracked c T) as (H & Eh & Er & En).
  destruct T as [_ [_ Kr]].
  split; [rewrite Er; apply H|].
  split; intros k Hk; [congruence|].
  rewrite Er in Hk. rewrite En. now apply Kr.
Qed.

Lemma keeps_timers_setupHeartbeat : keeps_timers setupHeartbeat.
Proof.
  intros c T. destruct (clearHeartbeat_tracked c T) as (H & Eh & Er & En).
  destruct T as [_ [_ Kr]].
  unfold setupHeartbeat. rewrite fst_seq, fst_setTimeout.
  set (c1 := fst (clearHeartbeat c)) in *.
  unfold timers_inv, known.
  cbn [update fst with_store store armed nextTimer
       heartbeatInterval reconnectTimeout with_heartbeatInterval].
  rewrite Er. split.
  - apply tracked_store with (c := armed HeartbeatTimer c1); [reflexivity..|].
    apply tracked_armed; [apply H | reflexivity | discriminate].
  - split; intros k Hk.
    + injection Hk as <-. lia.
    + apply Kr in Hk. lia.
Qed.

Lemma keeps_timers_scheduleReconnection : keeps_timers scheduleReconnection.
Proof.
  intros c [T [Kh Kr]]. unfold scheduleReconnection. rewrite fst_seq.
  set (c1 := fst (match reconnectTimeout (store c) with
                  | Some t => clearTimeout t c
                  | None => skip c
                  end)).
  assert (H1 : (forall rc, tracked (heartbeatInterval (store c)) rc c1)
               /\ store c1 = store c /\ nextTimer c1 = nextTimer c).
  { subst c1. destruct (reconnectTimeout (store c)) as [t|].
    - split; [|split; reflexivity].
      intros rc. now apply tracked_clear_reconnect.
    - split; [|split; reflexivity].
      intros rc. now apply tracked_no_reconnect. }
  destruct H1 as (H1 & Es & En).
  destruct (maxRetries (store c1) <=? connectionRetries (store c1)).
  - unfold timers_inv, known. cbn [skip fst]. rewrite Es, En.
    split; [apply H1 | now split].
  - rewrite fst_seq, fst_setTimeout.
    unfold timers_inv, known.
    cbn [update fst with_store store armed heartbeatInterval reconnectTimeout
         with_reconnectTimeout with_connectionRetries nextTimer].
    rewrite Es, En. split.
    + apply tracked_store with (c := armed ReconnectTimer c1); [reflexivity..|].
      apply tracked_armed; [apply H1 | discriminate | now rewrite En].
    + split; intros k Hk.
      * apply Kh in Hk. lia.
      * injection Hk as <-. lia.
Qed.

(** After [disconnectSocket] neither a heartbeat interval nor a
    reconnection timer is pending. *)
Lemma disconnectSocket_tracked c :
  timers_inv c ->
  (forall hb rc, tracked hb rc (fst (disconnectSocket c)))
  /\ heartbeatInterval (store (fst (disconnectSocket c))) = None
  /\ reconnectTimeout (store (fst (disconnectSocket c))) = None.
Proof.
  intros T. destruct (clearHeartbeat_tracked c T) as (H & Eh & Er & En).
  unfold disconnectSocket. rewrite !fst_seq.
  set (c1 := fst (clearHeartbeat c)) in *.
  set (c2 := fst (match reconnectTimeout (store c1) with
                  | Some t => (clearTimeout t ;; update (with_reconnectTimeout None)) c1
                  | None => skip c1
                  end)).
  assert (H2 : (forall hb rc, tracked hb rc c2)
               /\ heartbeatInterval (store c2) = None
               /\ reconnectTimeout (store c2) = None).
  { subst c2. rewrite <- Er in H.
    destruct (reconnectTimeout (store c1)) as [t|] eqn:E.
    - split; [|split; [exact Eh | reflexivity]].
      intros hb rc. cbn [seq fst update].
      apply tracked_store with (c := fst (clearTimeout t c1)); [reflexivity..|].
      apply tracked_clear_reconnect, H.
    - split; [|split; [exact Eh | exact E]].
      intros hb rc. apply tracked_no_reconnect, H. }
  destruct H2 as (H2 & Eh2 & Er2).
  destruct (socket (store c2)); cbn [seq fst update effect skip];
    (split; [|split; [exact Eh2 | exact Er2]]);
    intros hb rc; (eapply tracked_store; [| |apply H2]; reflexivity).
Qed.

Lemma keeps_timers_disconnectSocket : keeps_timers disconnectSocket.
Proof.
  intros c T. destruct (disconnectSocket_tracked c T) as (H & Eh & Er).
  split; [apply H|]. split; intros k Hk; congruence.
Qed.

Create HintDb keeps discriminated.

#[local] Hint Resolve keeps_timers_seq keeps_timers_clearHeartbeat
  keeps_timers_setupHeartbeat keeps_timers_scheduleReconnection
  keeps_timers_disconnectSocket keeps_timers_socket_event : keeps.
#[local] Hint Extern 3 (keeps_timers _) =>
  apply keeps_timers_plain; solve [auto 10 with timers] : keeps.

#[local] Hint Resolve timer_plain_rejoin timer_plain_connectSocket
  timer_plain_handle_messageSent timer_plain_handle_timer
  timer_plain_api_reply timer_plain_sendMessageViaSocket : timers.

Lemma keeps_timers_step env ev : keeps_timers (step env ev).
Proof.
  destruct ev; cbn [step];
    try (apply keeps_timers_socket_event);
    unfold handle_connect, handle_disconnect, handle_connect_error,
      handle_connected, handle_botMessage, handle_error, reconnect, cleanup;
    auto 12 with keeps.
  - (* disconnect *)
    repeat (apply keeps_timers_seq); auto with keeps.
    destruct (reason =? "io server disconnect")%string;
      [|destruct (reason =? "io client disconnect")%string];
      auto with keeps.
  - (* connect_error *)
    repeat (apply keeps_timers_seq); auto with keeps.
    intros c T.
    destruct (_ <? _); [now apply keeps_timers_scheduleReconnection | exact T].
Qed.

Lemma reachable_timers c : reachable c -> timers_inv c.
Proof.
  revert c. apply reachable_ind.
  - split; [|split; intros k Hk; discriminate].
    split; [intros k t []|]. split; [constructor|]. split; intros k [].
  - intros env ev c0. apply keeps_timers_step.
Qed.

(** ** At most one heartbeat interval and one reconnection timer *)

Lemma filter_none {A} (f : A -> bool) l :
  (forall x, In x l -> f x = false) -> filter f l = [].
Proof.
  induction l as [|a r IH]; cbn; intros H; [reflexivity|].
  rewrite (H a) by now left. apply IH. intros x Hx. apply H. now right.
Qed.

Lemma at_most_one {A} (f : nat * A -> bool) k l :
  NoDup (map fst l) ->
  (forall p, In p l -> f p = true -> fst p = k) ->
  length (filter f l) <= 1.
Proof.
  induction l as [|p r IH]; cbn; intros N H; [lia|].
  inversion N as [|? ? Hn Hr]; subst.
  destruct (f p) eqn:E.
  - rewrite filter_none; [cbn; lia|].
    intros x Hx. destruct (f x) eqn:Ex; [|reflexivity].
    exfalso. apply Hn. apply in_map_iff. exists x. split; [|exact Hx].
    rewrite (H x) by auto. symmetry. apply H; auto.
  - apply IH; auto.
Qed.

Lemma tracked_counts hb rc c :
  tracked hb rc c -> heartbeats c <= 1 /\ reconnections c <= 1.
Proof.
  intros (F & N & H & R). split.
  - apply (at_most_one is_heartbeat
             (match hb with Some k => k | None => 0 end)); [exact N|].
    intros [k t] Hin Hf. unfold is_heartbeat in Hf. cbn in Hf.
    destruct t; try discriminate. now rewrite (H k Hin).
  - apply (at_most_one is_reconnect
             (match rc with Some k => k | None => 0 end)); [exact N|].
    intros [k t] Hin Hf. unfold is_reconnect in Hf. cbn in Hf.
    destruct t; try discriminate. now rewrite (R k Hin).
Qed.

(** ** The store without a socket *)

Section ViewFacts.

Context {V : Type} (view : Store -> V).

Lemma preserves_skip : preserves view skip.
Proof. intros c. reflexivity. Qed.

Lemma preserves_effect e : preserves view (effect e).
Proof. intros c. reflexivity. Qed.

Lemma preserves_update f : unseen view f -> preserves view (update f).
Proof. intros Hf c. apply Hf. Qed.

Lemma preserves_seq h k :
  preserves view h -> preserves view k -> preserves view (h ;; k).
Proof. intros Hh Hk c. cbn [seq fst]. now rewrite Hk, Hh. Qed.

Lemma preserves_clearTimeout t : preserves view (clearTimeout t).
Proof. intros c. reflexivity. Qed.

Lemma preserves_expire t : preserves view (expire t).
Proof. intros c. reflexivity. Qed.

Lemma preserves_settle req : preserves view (settle req).
Proof. intros c. reflexivity. Qed.

Lemma preserves_post m cid : preserves view (post m cid).
Proof. intros c. reflexivity. Qed.

Lemma preserves_setTimeout t d k :
  (forall i, preserves view (k i)) -> preserves view (setTimeout t d k).
Proof. intros Hk c. rewrite fst_setTimeout. now rewrite Hk. Qed.

Lemma preserves_pointwise (h : Handler) :
  (forall c, exists h', h c = h' c /\ preserves view h') -> preserves view h.
Proof. intros H c. destruct (H c) as (h' & E & Hp). rewrite E. apply Hp. Qed.

Lemma preserves_clear_all l : preserves view (clear_all l).
Proof.
  induction l as [|t r IH]; simpl.
  - apply preserves_skip.
  - apply preserves_seq; [apply preserves_clearTimeout | exact IH].
Qed.

End ViewFacts.

Ltac unseen_by_cases :=
  intros ?s;
  unfold reconcile, accept_reply, addMessage,
    setCurrentConversation, updateConversationTitle, register_once,
    library_sets_connected, setTyping, setError, clearError, setConnected;
  cbv zeta;
  repeat match goal with
         | |- context [match ?x with _ => _ end] => destruct x eqn:?
         end;
  try reflexivity;
  unfold idle_view, has_socket; cbn;
  repeat match goal with
         | H : ?x = _ |- context [?x] => rewrite H
         end;
  reflexivity.

Ltac by_view :=
  apply preserves_pointwise; intros ?c; cbv beta;
  repeat match goal with
         | |- exists _, match ?x with _ => _ end = _ /\ _ => destruct x
         end;
  eexists; (split; [reflexivity|]).

Create HintDb views discriminated.

#[local] Hint Resolve preserves_skip preserves_effect preserves_seq
  preserves_update preserves_clearTimeout preserves_expire preserves_post
  preserves_settle preserves_clear_all : views.
#[local] Hint Extern 1 (preserves _ (setTimeout _ _ _)) =>
  apply preserves_setTimeout; intros ?i : views.
#[local] Hint Extern 1 (unseen _ _) => solve [unseen_by_cases] : views.
#[local] Hint Extern 5 (preserves _ (fun _ => _)) => by_view : views.

(** Listeners never drop the socket. *)
Lemma keeps_socket_view h : preserves has_socket h -> keeps_socket h.
Proof. intros Hp c Hs. now rewrite Hp. Qed.

Lemma keeps_socket_seq h k :
  keeps_socket h -> keeps_socket k -> keeps_socket (h ;; k).
Proof. intros Hh Hk c Hs. apply Hk, Hh, Hs. Qed.

Lemma keeps_socket_update f : socket_safe f -> keeps_socket (update f).
Proof. intros Hf c Hs. apply Hf, Hs. Qed.

Lemma keeps_socket_setTimeout t d k :
  (forall i, keeps_socket (k i)) -> keeps_socket (setTimeout t d k).
Proof. intros Hk c Hs. rewrite fst_setTimeout. now apply Hk. Qed.

Lemma keeps_socket_pointwise (h : Handler) :
  (forall c, exists h', h c = h' c /\ keeps_socket h') -> keeps_socket h.
Proof. intros H c. destruct (H c) as (h' & E & Hp). rewrite E. apply Hp. Qed.

Ltac socket_safety :=
  intros ?s ?Hs;
  unfold reconcile, addMessage, library_sets_connected, setTyping, setError,
    clearError, setConnected;
  repeat match goal with
         | |- context [match ?x with _ => _ end] => destruct x eqn:?
         end;
  solve [reflexivity | exact Hs].

Create HintDb sockets discriminated.

#[local] Hint Resolve keeps_socket_seq keeps_socket_update : sockets.
#[local] Hint Extern 1 (keeps_socket (setTimeout _ _ _)) =>
  apply keeps_socket_setTimeout; intros ?i : sockets.
#[local] Hint Extern 1 (socket_safe _) => solve [socket_safety] : sockets.
#[local] Hint Extern 2 (keeps_socket _) =>
  apply keeps_socket_view;
  solve [auto using preserves_skip, preserves_effect, preserves_clearTimeout,
           preserves_clear_all] : sockets.
#[local] Hint Extern 5 (keeps_socket (fun _ => _)) =>
  by_state keeps_socket_pointwise : sockets.

Lemma keeps_socket_clearHeartbeat : keeps_socket clearHeartbeat.
Proof. unfold clearHeartbeat. auto with sockets. Qed.

#[local] Hint Resolve keeps_socket_clearHeartbeat : sockets.

Lemma keeps_socket_setupHeartbeat : keeps_socket setupHeartbeat.
Proof. unfold setupHeartbeat. auto with sockets. Qed.

Lemma keeps_socket_scheduleReconnection : keeps_socket scheduleReconnection.
Proof. unfold scheduleReconnection. auto 10 with sockets. Qed.

Lemma keeps_socket_rejoin : keeps_socket rejoin.
Proof. unfold rejoin. auto with sockets. Qed.

Lemma keeps_socket_run_once_listeners : keeps_socket run_once_listeners.
Proof. unfold run_once_listeners. auto 8 with sockets. Qed.

#[local] Hint Resolve keeps_socket_setupHeartbeat
  keeps_socket_scheduleReconnection keeps_socket_rejoin
  keeps_socket_run_once_listeners : sockets.

Lemma keeps_idle_view h : preserves idle_view h -> keeps_idle h.
Proof.
  intros Hp c I. specialize (Hp c). unfold idle_view in Hp.
  injection Hp as Es Ec Et Er Eh Eo.
  intros Hs. unfold has_socket in Es. rewrite Hs in Es.
  destruct (socket (store c)) eqn:Ec'; [discriminate|].
  destruct (I Ec') as (I1 & I2 & I3 & I4 & I5).
  repeat split; congruence.
Qed.

Lemma keeps_idle_seq h k : keeps_idle h -> keeps_idle k -> keeps_idle (h ;; k).
Proof. intros Hh Hk c I. apply Hk, Hh, I. Qed.

Lemma keeps_idle_socket_event h :
  keeps_socket h -> keeps_idle (socket_event h).
Proof.
  intros Hp c I. unfold socket_event.
  destruct (socket_listening (store c)) eqn:El; [|exact I].
  intros Hs. specialize (Hp c). unfold has_socket in Hp. rewrite Hs in Hp.
  unfold socket_listening in El.
  destruct (socket (store c)); [|discriminate].
  discriminate (Hp eq_refl).
Qed.

Lemma idle_kept_sendMessage env m cid :
  preserves idle_view (sendMessage env m cid).
Proof.
  unfold sendMessage, empty_message.
  destruct m; [destruct (JsString.blank _)|]; auto 8 with views.
Qed.

#[local] Hint Resolve idle_kept_sendMessage : views.

Lemma idle_kept_sendMessageViaSocket env m cid :
  preserves idle_view (sendMessageViaSocket env m cid).
Proof.
  unfold sendMessageViaSocket, empty_message.
  destruct m; [destruct (JsString.blank _)|]; auto 10 with views.
Qed.

Lemma idle_kept_api_reply req r : preserves idle_view (api_reply req r).
Proof.
  unfold api_reply. by_view; auto with views.
  apply preserves_seq; [apply preserves_settle|].
  unfold sendMessage_resume, sendMessage_failed.
  destruct r; auto 8 with views.
Qed.

Lemma idle_kept_handle_timer env t : preserves idle_view (handle_timer env t).
Proof.
  unfold handle_timer, reconnect_timer_fires, socket_timeout_fires.
  by_view; auto 8 with views.
Qed.

(** The store that [disconnectSocket] leaves. *)
Lemma disconnectSocket_store c :
  store (fst (disconnectSocket c))
  = match socket (store c) with
    | Some _ =>
        mkStore (currentConversation (store c)) (messages (store c)) false
                false (error (store c)) None 0 (maxRetries (store c)) None None
    | None =>
        mkStore (currentConversation (store c)) (messages (store c))
                (isConnected (store c)) (isTyping (store c)) (error (store c))
                None (connectionRetries (store c)) (maxRetries (store c))
                None None
    end.
Proof.
  destruct c as [s ti nt inf nr]. destruct s as [cc ms ic it er so cr mr rt hi].
  unfold disconnectSocket, clearHeartbeat.
  destruct hi, rt, so; reflexivity.
Qed.

Lemma keeps_idle_disconnectSocket : keeps_idle disconnectSocket.
Proof.
  intros c I _. rewrite disconnectSocket_store.
  destruct (socket (store c)) eqn:Es; [repeat split|].
  destruct (I Es) as (I1 & I2 & I3 & _). repeat split; assumption.
Qed.

Lemma keeps_idle_connectSocket env : keeps_idle (connectSocket env).
Proof.
  intros c I. unfold connectSocket.
  destruct (isAuthenticated env); cbn [negb]; [|exact I].
  destruct (socket_connected (store c)); [exact I|].
  destruct (socket (store c)) eqn:Es;
    (destruct (token env) as [tk|]; [destruct (JsString.truthy tk)|]);
    cbn [seq fst update effect skip with_store store];
    rewrite ?Es; cbn [seq fst update effect skip with_store store];
    try (intros Hs; discriminate Hs);
    intros _; apply (I Es).
Qed.

Lemma keeps_idle_reset : keeps_idle (update (with_connectionRetries 0)).
Proof.
  intros c I Hs. destruct (I Hs) as (I1 & I2 & I3 & I4 & I5).
  repeat split; assumption.
Qed.

Lemma keeps_idle_step env ev : keeps_idle (step env ev).
Proof.
  destruct ev; cbn [step];
    try (apply keeps_idle_socket_event;
         unfold handle_connect, handle_disconnect, handle_connect_error,
           handle_connected, handle_messageSent, handle_botMessage,
           handle_error;
         auto 14 with sockets; fail);
    try (apply keeps_idle_view;
         auto using idle_kept_handle_timer, idle_kept_api_reply,
           idle_kept_sendMessageViaSocket with views; fail).
  - (* disconnect *)
    apply keeps_idle_socket_event. unfold handle_disconnect.
    repeat (apply keeps_socket_seq); auto with sockets.
    destruct (reason =? "io server disconnect")%string;
      [|destruct (reason =? "io client disconnect")%string];
      auto with sockets.
  - (* connectSocket *)
    apply keeps_idle_connectSocket.
  - (* reconnect *)
    unfold reconnect.
    apply keeps_idle_seq; [apply keeps_idle_reset|].
    apply keeps_idle_seq; [apply keeps_idle_view; auto with views|].
    apply keeps_idle_connectSocket.
  - (* disconnectSocket *)
    apply keeps_idle_disconnectSocket.
  - (* cleanup *)
    unfold cleanup.
    apply keeps_idle_seq; [apply keeps_idle_disconnectSocket|].
    intros c I Hs. destruct (I Hs) as (I1 & I2 & I3 & I4 & I5).
    repeat split; assumption.
Qed.

Lemma reachable_idle c : reachable c -> idle_inv (store c).
Proof.
  revert c. apply (reachable_ind (fun c => idle_inv (store c))).
  - intros _. repeat split.
  - intros env ev c0. apply keeps_idle_step.
Qed.

(** Without a socket no heartbeat interval and no reconnection timer is
    pending. *)
Lemma idle_no_timers c :
  timers_inv c -> idle (store c) -> heartbeats c = 0 /\ reconnections c = 0.
Proof.
  intros [(F & N & H & R) _] (_ & _ & _ & Eh & Er).
  unfold heartbeats, reconnections. split.
  - rewrite filter_none; [reflexivity|].
    intros [k t] Hin. unfold is_heartbeat. cbn. destruct t; try reflexivity.
    specialize (H k Hin). congruence.
  - rewrite filter_none; [reflexivity|].
    intros [k t] Hin. unfold is_reconnect. cbn. destruct t; try reflexivity.
    specialize (R k Hin). congruence.
Qed.

(** X1.  Along every sequence of events at most one heartbeat interval is
    pending, and it is the one [heartbeatInterval] names, so
    [clearHeartbeat] always stops it; while there is no socket none is
    pending. *)
Theorem one_heartbeat (trace : list (Env * Event)) :
  let c := fst (run trace initial) in
  heartbeats c <= 1
  /\ (forall k, In (k, HeartbeatTimer) (timers c) ->
                heartbeatInterval (store c) = Some k)
  /\ (socket (store c) = None -> heartbeats c = 0)
  /\ heartbeats (fst (clearHeartbeat c)) = 0.
Proof.
  intros c.
  assert (R : reachable c) by (apply run_reachable, initial_reachable).
  pose proof (reachable_timers c R) as T.
  pose proof (reachable_idle c R) as I.
  split; [apply (tracked_counts _ _ c (proj1 T))|].
  split; [apply (proj1 T)|]. split.
  - intros Hs. apply (idle_no_timers c T (I Hs)).
  - destruct (clearHeartbeat_tracked c T) as (H & _).
    destruct (H None) as (_ & _ & Hh & _).
    unfold heartbeats. rewrite filter_none; [reflexivity|].
    intros [k t] Hin. unfold is_heartbeat. cbn. destruct t; try reflexivity.
    discriminate (Hh k Hin).
Qed.

(** X2.  Along every sequence of events at most one reconnection timer is
    pending, and it is the one [reconnectTimeout] names; while there is no
    socket none is pending. *)
Theorem one_reconnection_timer (trace : list (Env * Event)) :
  let c := fst (run trace initial) in
  reconnections c <= 1
  /\ (forall k, In (k, ReconnectTimer) (timers c) ->
                reconnectTimeout (store c) = Some k)
  /\ (socket (store c) = None -> reconnections c = 0).
Proof.
  intros c.
  assert (R : reachable c) by (apply run_reachable, initial_reachable).
  pose proof (reachable_timers c R) as T.
  pose proof (reachable_idle c R) as I.
  split; [apply (tracked_counts _ _ c (proj1 T))|].
  split; [apply (proj1 T)|].
  intros Hs. apply (idle_no_timers c T (I Hs)).
Qed.

(** ** Cleanup *)

Lemma cleanup_store c :
  store (fst (cleanup c))
  = match socket (store c) with
    | Some _ => mkStore None [] false false None None 0 (maxRetries (store c))
                        None None
    | None => mkStore None [] (isConnected (store c)) false None None
                      (connectionRetries (store c)) (maxRetries (store c))
                      None None
    end.
Proof.
  unfold cleanup. rewrite !fst_seq. cbn [update fst with_store store].
  rewrite disconnectSocket_store. now destruct (socket (store c)).
Qed.

Lemma cleanup_frame c :
  timers (fst (cleanup c)) = timers (fst (disconnectSocket c))
  /\ inflight (fst (cleanup c)) = inflight c
  /\ nextReq (fst (cleanup c)) = nextReq c
  /\ nextTimer (fst (cleanup c)) = nextTimer c.
Proof.
  destruct c as [s ti nt inf nr]. destruct s as [cc ms ic it er so cr mr rt hi].
  unfold cleanup, disconnectSocket, clearHeartbeat.
  destruct hi, rt, so; repeat split.
Qed.

(** X3.  Whatever happened before, [cleanup] puts every field of the
    store back to its initial value; the heartbeat interval and the
    reconnection timer are cleared, so the only timers left pending are
    timeouts of socket sends; requests in flight stay in flight. *)
Theorem cleanup_resets (trace : list (Env * Event)) (env : Env) :
  let c := fst (run trace initial) in
  let c' := fst (step env call_cleanup c) in
  store c' = initial_store
  /\ (forall k t, In (k, t) (timers c') ->
                  exists m cid, t = SocketTimeout m cid)
  /\ inflight c' = inflight c.
Proof.
  intros c c'.
  assert (R : reachable c) by (apply run_reachable, initial_reachable).
  pose proof (reachable_timers c R) as T.
  pose proof (reachable_idle c R) as I.
  destruct (reachable_retry_inv c R) as (Hm & _ & _).
  subst c'. cbn [step]. split; [|split].
  - rewrite cleanup_store. destruct (socket (store c)) eqn:Es.
    + now rewrite Hm.
    + destruct (I Es) as (-> & _ & -> & _). now rewrite Hm.
  - destruct (cleanup_frame c) as (-> & _).
    destruct (disconnectSocket_tracked c T) as (H & _).
    destruct (H None None) as (_ & _ & Hh & Hr).
    intros k [|m cid|] Hin; [discriminate (Hr k Hin) | eauto | discriminate (Hh k Hin)].
  - apply cleanup_frame.
Qed.

(** ** A send timeout outlives the socket *)

Lemma lookup_remove_other {A} k x (l : list (nat * A)) :
  k <> x -> lookup k (remove x l) = lookup k l.
Proof.
  intros Hne. induction l as [|[k0 v] r IH]; [reflexivity|].
  cbn. destruct (Nat.eqb_spec k0 x); cbn.
  - subst k0. destruct (Nat.eqb_spec x k); [congruence | exact IH].
  - destruct (k0 =? k); [reflexivity | exact IH].
Qed.

Lemma disconnectSocket_timers c :
  timers (fst (disconnectSocket c))
  = match reconnectTimeout (store c) with
    | Some t => remove t
    | None => fun l => l
    end (match heartbeatInterval (store c) with
         | Some h => remove h (timers c)
         | None => timers c
         end).
Proof.
  destruct c as [s ti nt inf nr]. destruct s as [cc ms ic it er so cr mr rt hi].
  unfold disconnectSocket, clearHeartbeat.
  destruct hi, rt, so; reflexivity.
Qed.

(** [disconnectSocket] clears no timer but the two the store names. *)
Lemma lookup_disconnectSocket k c :
  heartbeatInterval (store c) <> Some k ->
  reconnectTimeout (store c) <> Some k ->
  lookup k (timers (fst (disconnectSocket c))) = lookup k (timers c).
Proof.
  intros Hh Hr. rewrite disconnectSocket_timers.
  destruct (reconnectTimeout (store c)) as [t|];
    destruct (heartbeatInterval (store c)) as [h|];
    rewrite ?lookup_remove_other; congruence.
Qed.

(** X4.  A message sent through a connected socket arms a timeout that
    [cleanup] does not clear: after the store has been cleaned up the
    timeout is still pending, and when it fires the message is posted over
    HTTP, with the conversation id the caller gave if any; no message is
    shown, since no conversation is open. *)
Theorem send_timeout_survives_cleanup env1 env2 env3 m cid c :
  reachable c ->
  socket_connected (store c) = true ->
  JsString.blank (Some m) = false ->
  let sent := fst (step env1 (call_sendMessageViaSocket (Some m) cid) c) in
  let cleaned := fst (step env2 call_cleanup sent) in
  let fired := step env3 (timer_fires (nextTimer c)) cleaned in
  store cleaned = initial_store
  /\ lookup (nextTimer c) (timers cleaned) = Some (SocketTimeout m cid)
  /\ snd fired = [PostMessage (nextReq c) (JsString.trim m)
                              (effective_conversation cid initial_store)]
  /\ messages (store (fst fired)) = [].
Proof.
  intros R Hc Hb sent cleaned fired.
  pose proof (reachable_timers c R) as [(F & _) [Kh Kr]].
  assert (Rs : reachable sent) by (apply reachable_step, R).
  assert (Es : sent =
    mkClient (register_once (nextTimer c)
                (addMessage (now env1) (Some (tempUserMessage (now env1) m))
                            (store c)))
             (timers c ++ [(nextTimer c, SocketTimeout m cid)])
             (S (nextTimer c)) (inflight c) (nextReq c)).
  { subst sent. cbn [step].
    now rewrite (sendMessageViaSocket_connected env1 m cid c Hb Hc). }
  assert (Ef : timer_fields (store sent) = timer_fields (store c)).
  { rewrite Es. cbn [store].
    transitivity (timer_fields (addMessage (now env1)
                    (Some (tempUserMessage (now env1) m)) (store c)));
      [generalize (addMessage (now env1) (Some (tempUserMessage (now env1) m))
                              (store c)) | generalize (store c)];
      timer_neutrality. }
  unfold timer_fields in Ef. injection Ef as Eh Er.
  assert (Est : store cleaned = initial_store).
  { subst cleaned. cbn [step]. rewrite cleanup_store.
    destruct (reachable_retry_inv sent Rs) as (Hm & _ & _).
    pose proof (reachable_idle sent Rs) as I.
    destruct (socket (store sent)) eqn:Ek.
    - now rewrite Hm.
    - destruct (I Ek) as (-> & _ & -> & _). now rewrite Hm. }
  assert (El : lookup (nextTimer c) (timers cleaned)
               = Some (SocketTimeout m cid)).
  { subst cleaned. cbn [step]. destruct (cleanup_frame sent) as (-> & _).
    rewrite lookup_disconnectSocket.
    - rewrite Es. cbn [timers]. now apply lookup_fresh.
    - rewrite Eh. intros E. apply Kh in E. lia.
    - rewrite Er. intros E. apply Kr in E. lia. }
  assert (En : nextReq cleaned = nextReq c).
  { subst cleaned. cbn [step]. destruct (cleanup_frame sent) as (_ & _ & -> & _).
    now rewrite Es. }
  split; [exact Est|]. split; [exact El|].
  subst fired. cbn [step]. unfold handle_timer. rewrite El.
  unfold socket_timeout_fires, sendMessage. rewrite Hb.
  cbn [seq fst snd expire update post with_store store app nextReq].
  rewrite En, Est. split; reflexivity.
Qed.

Lemma send_timeout_survives_cleanup_witness :
  reachable ready
  /\ socket_connected (store ready) = true
  /\ JsString.blank (Some "Hello") = false
  /\ snd (step an_env (timer_fires (nextTimer ready))
               (fst (step an_env call_cleanup
                       (fst (step an_env
                               (call_sendMessageViaSocket (Some "Hello") None)
                               ready)))))
     = [PostMessage (nextReq ready) (JsString.trim "Hello")
                    (effective_conversation None initial_store)].
Proof.
  split; [exact ready_reachable|]. split; [reflexivity|]. split; [reflexivity|].
  exact (proj1 (proj2 (proj2
           (send_timeout_survives_cleanup an_env an_env an_env "Hello" None
              ready ready_reachable eq_refl eq_refl)))).
Defined.

(** ** What one confirmation cancels *)

Lemma lookup_clear_all l c t :
  lookup t (timers (fst (clear_all l c)))
  = if existsb (Nat.eqb t) l then None else lookup t (timers c).
Proof.
  revert c. induction l as [|a r IH]; intros c; [reflexivity|].
  cbn [clear_all existsb]. rewrite fst_seq, IH. cbn [clearTimeout fst timers].
  destruct (existsb (Nat.eqb t) r); [now rewrite orb_true_r|].
  rewrite orb_false_r. destruct (Nat.eqb_spec t a).
  - subst a. apply lookup_remove.
  - now apply lookup_remove_other.
Qed.

Lemma socket_reconcile t m s : socket (reconcile t m s) = socket s.
Proof.
  unfold reconcile, addMessage. destruct m; [|reflexivity]. cbn.
  now destruct (currentConversation s).
Qed.

(** X5.  The [once('messageSent')] listeners of all the sends waiting on a
    socket run at the first [messageSent] event: it clears the timeout of
    every one of them, whichever message it confirms, and leaves the other
    timers alone. *)
Theorem confirmation_cancels_timeouts env message c k :
  socket (store c) = Some k ->
  listening k = true ->
  let c' := fst (step env (on_messageSent message) c) in
  (forall t, In t (onceMessageSent k) -> lookup t (timers c') = None)
  /\ (forall t, ~ In t (onceMessageSent k) ->
                lookup t (timers c') = lookup t (timers c))
  /\ socket (store c') = Some (mkSocket (connected k) true []).
Proof.
  intros Hs Hl c'. subst c'. cbn [step]. unfold socket_event, socket_listening.
  rewrite Hs, Hl. unfold handle_messageSent, run_once_listeners.
  rewrite fst_seq. cbn [update fst with_store store].
  rewrite socket_reconcile, Hs. rewrite fst_seq.
  cbn [update fst with_store store timers socket with_socket].
  repeat split.
  - intros t Hin. rewrite lookup_clear_all.
    replace (existsb (Nat.eqb t) (onceMessageSent k)) with true; [reflexivity|].
    symmetry. apply existsb_exists. exists t. split; [exact Hin|].
    apply Nat.eqb_refl.
  - intros t Hin. rewrite lookup_clear_all.
    destruct (existsb (Nat.eqb t) (onceMessageSent k)) eqn:E; [|reflexivity].
    apply existsb_exists in E. destruct E as (x & Hx & E).
    apply Nat.eqb_eq in E. subst x. contradiction.
  - now rewrite Hl.
Qed.

Lemma confirmation_cancels_timeouts_witness :
  socket (store two_pending) = Some (mkSocket true true [2; 3])
  /\ lookup 2 (timers two_pending) = Some (SocketTimeout "Hello" None)
  /\ lookup 3 (timers two_pending) = Some (SocketTimeout "Are you there?" None)
  /\ lookup 2 (timers (fst (step an_env (on_messageSent (Some hello_confirmed))
                                 two_pending))) = None
  /\ lookup 3 (timers (fst (step an_env (on_messageSent (Some hello_confirmed))
                                 two_pending))) = None.
Proof.
  repeat (split; [reflexivity|]).
  pose proof (proj1 (confirmation_cancels_timeouts an_env (Some hello_confirmed)
                       two_pending (mkSocket true true [2; 3])
                       eq_refl eq_refl)) as H.
  split; apply H; cbn; auto.
Defined.

(** ** The connection status *)

(** X6.  Along every sequence of events the status getter classifies the
    store by its retry counter: [connected] only with a counter of 0,
    [reconnecting] exactly for 1 to 4 retries, [failed] exactly when all
    5 are used up, [disconnected] exactly for a counter of 0 without a
    live connection. *)
Theorem status_classification (trace : list (Env * Event)) :
  let s := store (fst (run trace initial)) in
  (connectionStatus s = st_connected <->
     isConnected s = true /\ socket_connected s = true)
  /\ (connectionStatus s = st_connected -> connectionRetries s = 0)
  /\ (connectionStatus s = st_reconnecting <-> 1 <= connectionRetries s <= 4)
  /\ (connectionStatus s = st_failed <-> connectionRetries s = 5)
  /\ (connectionStatus s = st_disconnected <->
        connectionRetries s = 0
        /\ (isConnected s && socket_connected s) = false).
Proof.
  intros s.
  assert (R : reachable (fst (run trace initial)))
    by (apply run_reachable, initial_reachable).
  destruct (reachable_retry_inv _ R) as (Hm & Hle & Hc). fold s in Hm, Hle, Hc.
  unfold connectionStatus. rewrite Hm in *.
  destruct (isConnected s) eqn:Ei.
  - rewrite (Hc eq_refl). cbn.
    destruct (socket_connected s); cbn;
      repeat split; intros; try discriminate; try lia; intuition congruence.
  - cbn [andb].
    destruct (connectionRetries s) as [|[|[|[|[|[|n]]]]]]; cbn;
      repeat split; intros; try discriminate; try lia; intuition (try discriminate; try lia).
Qed.

(** ** The delays of the reconnection timers *)

Lemma retry_delays_app l1 l2 :
  retry_delays (l1 ++ l2) = retry_delays l1 ++ retry_delays l2.
Proof.
  induction l1 as [|e r IH]; [reflexivity|].
  cbn. destruct e as [| |t k d| | | | |]; try exact IH.
  destruct k; cbn; now rewrite IH.
Qed.

Lemma paced_skip : paced skip.
Proof. intros c H. split; [constructor | exact H]. Qed.

Lemma paced_effect e : is_retry e = false -> paced (effect e).
Proof.
  intros He c H. split; [|exact H].
  destruct e as [| |t k d| | | | |]; cbn; try (constructor; fail).
  destruct k; cbn; try (constructor; fail). discriminate He.
Qed.

Lemma paced_update f : keeps_ceiling f -> paced (update f).
Proof. intros Hf c H. split; [constructor|]. cbn. now rewrite Hf. Qed.

Lemma paced_seq h k : paced h -> paced k -> paced (h ;; k).
Proof.
  intros Hh Hk c H. destruct (Hh c H) as [D1 M1].
  destruct (Hk _ M1) as [D2 M2]. split; [|exact M2].
  cbn [seq snd]. rewrite retry_delays_app. apply Forall_app. now split.
Qed.

Lemma paced_clearTimeout t : paced (clearTimeout t).
Proof. intros c H. split; [constructor | exact H]. Qed.

Lemma paced_expire t : paced (expire t).
Proof. intros c H. split; [constructor | exact H]. Qed.

Lemma paced_settle req : paced (settle req).
Proof. intros c H. split; [constructor | exact H]. Qed.

Lemma paced_post m cid : paced (post m cid).
Proof. intros c H. split; [constructor | exact H]. Qed.

Lemma paced_setTimeout t d k :
  t <> ReconnectTimer -> (forall i, paced (k i)) -> paced (setTimeout t d k).
Proof.
  intros Ht Hk c H. unfold setTimeout. apply paced_seq; [|apply Hk|exact H].
  intros c' H'. split; [|exact H'].
  destruct t; cbn; try (constructor; fail). congruence.
Qed.

Lemma paced_pointwise (h : Handler) :
  (forall c, exists h', h c = h' c /\ paced h') -> paced h.
Proof. intros H c. destruct (H c) as (h' & E & Hp). rewrite E. apply Hp. Qed.

Lemma paced_clear_all l : paced (clear_all l).
Proof.
  induction l as [|t r IH]; simpl.
  - apply paced_skip.
  - apply paced_seq; [apply paced_clearTimeout | exact IH].
Qed.

Lemma backoff_standard r : r < 5 -> standard_delay (backoff (S r)).
Proof.
  intros H. unfold standard_delay.
  destruct r as [|[|[|[|[|r]]]]]; [vm_compute; tauto..|lia].
Qed.

Lemma paced_scheduleReconnection : paced scheduleReconnection.
Proof.
  intros c H.
  destruct c as [s ti nt inf nr]. destruct s as [cc ms ic it er so cr mr rt hi].
  cbn in H. subst mr. unfold scheduleReconnection.
  destruct rt; destruct cr as [|[|[|[|[|cr]]]]]; cbn -[backoff];
    (split; [|reflexivity]);
    first [ apply Forall_nil
          | apply Forall_cons; [apply backoff_standard; lia | apply Forall_nil] ].
Qed.

Ltac ceiling_kept :=
  intros ?s;
  unfold reconcile, accept_reply, addMessage, setCurrentConversation,
    updateConversationTitle, register_once, library_sets_connected,
    setTyping, setError, clearError, setConnected;
  cbv zeta;
  repeat match goal with
         | |- context [match ?x with _ => _ end] => destruct x
         end;
  reflexivity.

Create HintDb paced discriminated.

#[local] Hint Resolve paced_skip paced_seq paced_update paced_clearTimeout
  paced_expire paced_post paced_settle paced_clear_all
  paced_scheduleReconnection : paced.
#[local] Hint Extern 1 (paced (effect _)) =>
  apply paced_effect; reflexivity : paced.
#[local] Hint Extern 1 (paced (setTimeout _ _ _)) =>
  apply paced_setTimeout; [discriminate | intros ?i] : paced.
#[local] Hint Extern 1 (keeps_ceiling _) => solve [ceiling_kept] : paced.
#[local] Hint Extern 5 (paced (fun _ => _)) => by_state paced_pointwise : paced.
#[local] Hint Extern 4 (paced (match ?x with _ => _ end)) => destruct x : paced.
#[local] Hint Extern 4 (paced (if ?x then _ else _)) => destruct x : paced.
#[local] Hint Extern 8 (paced _) =>
  progress unfold socket_event, handle_connect, handle_disconnect,
    handle_connect_error, handle_connected, handle_messageSent,
    handle_botMessage, handle_error, handle_timer, api_reply,
    sendMessageViaSocket, sendMessage, connectSocket, reconnect, cleanup,
    disconnectSocket, run_once_listeners, setupHeartbeat, clearHeartbeat,
    reconnect_timer_fires, socket_timeout_fires,
    sendMessage_resume, sendMessage_failed, empty_message, rejoin : paced.

Lemma paced_step env ev : paced (step env ev).
Proof. destruct ev; cbn [step]; auto 30 with paced. Qed.

(** X7.  Every reconnection timer the store ever sets waits 1, 2, 4, 8 or
    16 seconds, as the comment at the backoff formula says. *)
Theorem reconnection_delays (trace : list (Env * Event)) :
  Forall standard_delay (retry_delays (snd (run trace initial))).
Proof.
  assert (G : forall t c, maxRetries (store c) = 5 ->
                          Forall standard_delay (retry_delays (snd (run t c)))).
  { induction t as [|[env ev] r IH]; intros c H; [constructor|].
    rewrite snd_run_cons, retry_delays_app.
    destruct (paced_step env ev c H) as [D M].
    apply Forall_app. split; [exact D | apply IH, M]. }
  apply G. reflexivity.
Qed.

(** ** The outcome of a send over HTTP *)

Lemma remove_fresh {A} k (v : A) l :
  (forall k' v', In (k', v') l -> k' < k) -> remove k (l ++ [(k, v)]) = l.
Proof.
  unfold remove. intros H. rewrite filter_app. cbn. rewrite Nat.eqb_refl. cbn.
  rewrite app_nil_r.
  induction l as [|[k0 v0] r IH]; [reflexivity|].
  cbn. assert (k0 < k) by (apply (H k0 v0); now left).
  destruct (Nat.eqb_spec k0 k); [lia|]. cbn. f_equal.
  apply IH. intros k' v' Hin. apply (H k' v'). now right.
Qed.

Lemma drop_temp_optimistic t m s :
  drop_temp (messages (addMessage t (Some (tempUserMessage t m)) s))
  = drop_temp (messages s).
Proof.
  unfold addMessage. destruct (currentConversation s); [|reflexivity].
  cbn [messages with_currentConversation with_messages].
  rewrite drop_temp_app. cbn. apply app_nil_r.
Qed.

(** The client after [sendMessage] has posted its request. *)
Lemma sendMessage_posted env m cid c :
  JsString.blank (Some m) = false ->
  sendMessage env (Some m) cid c
  = (mkClient (addMessage (now env) (Some (tempUserMessage (now env) m))
                          (clearError (store c)))
              (timers c) (nextTimer c)
              (inflight c ++ [(nextReq c, mkSendFrame m cid)])
              (S (nextReq c)),
     [PostMessage (nextReq c) (JsString.trim m)
                  (effective_conversation cid (store c))]).
Proof.
  intros Hb. unfold sendMessage. rewrite Hb.
  unfold seq, update, post, with_store.
  cbn [fst snd store app timers nextTimer inflight nextReq].
  now rewrite effective_addMessage.
Qed.

(** X8.  A send over HTTP that fails, by a rejected request or by a
    response of the wrong form, leaves the confirmed messages exactly as
    they were before the send and no pending one; the error shown and
    returned to the caller is the server's error text when it sent one
    and "Failed to send message" otherwise; the request is no longer in
    flight. *)
Theorem failed_send_restores env1 env2 m cid c r e :
  fresh_inv c ->
  JsString.blank (Some m) = false ->
  r = ApiError e \/ (r = ApiInvalid /\ e = None) ->
  let sent := step env1 (call_sendMessage (Some m) cid) c in
  let failed := step env2 (api_replies (nextReq c) r) (fst sent) in
  messages (store (fst failed)) = drop_temp (messages (store c))
  /\ pending (messages (store (fst failed))) = 0
  /\ error (store (fst failed)) = Some (send_error e)
  /\ snd failed = [Return (mkResult false (Some (send_error e)))]
  /\ inflight (fst failed) = inflight c
  /\ timers (fst failed) = timers c.
Proof.
  intros [_ Fr] Hb Hr sent failed.
  assert (Es : fst sent =
    mkClient (addMessage (now env1) (Some (tempUserMessage (now env1) m))
                         (clearError (store c)))
             (timers c) (nextTimer c)
             (inflight c ++ [(nextReq c, mkSendFrame m cid)])
             (S (nextReq c))).
  { subst sent. cbn [step]. now rewrite sendMessage_posted. }
  assert (Ef : sendMessage_resume (mkSendFrame m cid) r = sendMessage_failed e).
  { destruct Hr as [-> | [-> ->]]; reflexivity. }
  subst failed. cbn [step]. unfold api_reply. rewrite Es. cbn [inflight].
  rewrite (lookup_fresh _ _ _ Fr), Ef.
  unfold sendMessage_failed. fold (send_error e).
  cbn [seq fst snd settle update effect with_store store app inflight timers
       messages error setError with_error with_messages].
  rewrite (remove_fresh _ _ _ Fr), drop_temp_optimistic.
  repeat split. apply pending_drop_temp.
Qed.

Lemma failed_send_restores_witness :
  fresh_inv ready
  /\ JsString.blank (Some "Hello") = false
  /\ messages (store (fst (step an_env
                 (api_replies (nextReq ready) (ApiError (Some "Conversation not found")))
                 (fst (step an_env (call_sendMessage (Some "Hello") None) ready)))))
     = drop_temp (messages (store ready))
  /\ error (store (fst (step an_env
              (api_replies (nextReq ready) (ApiError (Some "Conversation not found")))
              (fst (step an_env (call_sendMessage (Some "Hello") None) ready)))))
     = Some "Conversation not found".
Proof.
  pose proof (failed_send_restores an_env an_env "Hello" None ready
                (ApiError (Some "Conversation not found"))
                (Some "Conversation not found")
                (reachable_fresh ready ready_reachable) eq_refl
                (or_introl eq_refl)) as H.
  split; [exact (reachable_fresh ready ready_reachable)|].
  split; [reflexivity|].
  split; [exact (proj1 H) | exact (proj1 (proj2 (proj2 H)))].
Defined.

Lemma current_accept_reply f conversation userMessage s :
  exists cur,
    currentConversation (accept_reply f conversation userMessage s) = Some cur
    /\ id cur = conv_id conversation
    /\ lastActivity cur = conv_lastActivity conversation.
Proof.
  unfold accept_reply. cbv zeta.
  set (s1 := with_messages (drop_temp (messages s)) s).
  set (s2 := match currentConversation s1 with
             | Some cur =>
                 if (id cur =? conv_id conversation)%string
                 then with_messages (conv_messages conversation)
                        (with_currentConversation
                           (Some (mkCurrent (id cur) (title cur)
                                            (conv_lastActivity conversation)))
                           s1)
                 else setCurrentConversation (Some conversation) s1
             | None => setCurrentConversation (Some conversation) s1
             end).
  assert (H2 : exists cur, currentConversation s2 = Some cur
                           /\ id cur = conv_id conversation
                           /\ lastActivity cur = conv_lastActivity conversation).
  { subst s2. destruct (currentConversation s1) as [cur|];
      [destruct (String.eqb_spec (id cur) (conv_id conversation))|];
      cbn; eauto. }
  destruct H2 as (cur & E & Hi & Hl).
  destruct userMessage; [|eauto].
  destruct (_ && _); [|eauto].
  unfold updateConversationTitle. rewrite E.
  destruct (JsString.truthy _); cbn; eauto.
Qed.

Lemma error_accept_reply f conversation userMessage s :
  error (accept_reply f conversation userMessage s) = error s.
Proof.
  unfold accept_reply, updateConversationTitle, setCurrentConversation.
  cbv zeta.
  repeat match goal with
         | |- context [match ?x with _ => _ end] => destruct x
         end; reflexivity.
Qed.

(** X9.  When the reply to a send over HTTP is a success, the store shows
    the conversation of the reply, whether or not it had it open: its id,
    its last activity and exactly its messages, so the optimistic message
    is gone; no error is left, the caller gets a success, and the request
    is no longer in flight. *)
Theorem reply_opens_conversation env1 env2 m cid c conversation userMessage :
  fresh_inv c ->
  JsString.blank (Some m) = false ->
  let sent := step env1 (call_sendMessage (Some m) cid) c in
  let answered :=
    step env2 (api_replies (nextReq c) (ApiOk conversation userMessage))
         (fst sent) in
  (exists cur,
      currentConversation (store (fst answered)) = Some cur
      /\ id cur = conv_id conversation
      /\ lastActivity cur = conv_lastActivity conversation)
  /\ messages (store (fst answered)) = conv_messages conversation
  /\ error (store (fst answered)) = None
  /\ snd answered = [Return (mkResult true None)]
  /\ inflight (fst answered) = inflight c.
Proof.
  intros [_ Fr] Hb sent answered.
  assert (Es : fst sent =
    mkClient (addMessage (now env1) (Some (tempUserMessage (now env1) m))
                         (clearError (store c)))
             (timers c) (nextTimer c)
             (inflight c ++ [(nextReq c, mkSendFrame m cid)])
             (S (nextReq c))).
  { subst sent. cbn [step]. now rewrite sendMessage_posted. }
  subst answered. cbn [step]. unfold api_reply. rewrite Es. cbn [inflight].
  rewrite (lookup_fresh _ _ _ Fr).
  cbn [sendMessage_resume seq fst snd settle update effect with_store store
       app inflight].
  rewrite (remove_fresh _ _ _ Fr).
  split; [apply current_accept_reply|].
  split; [apply messages_accept_reply|].
  split; [|split; reflexivity].
  rewrite error_accept_reply. unfold addMessage.
  now destruct (currentConversation (clearError (store c))).
Qed.

Lemma reply_opens_conversation_witness :
  fresh_inv initial
  /\ JsString.blank (Some "Hello") = false
  /\ messages (store (fst (step an_env
                 (api_replies (nextReq initial)
                    (ApiOk (mkConversation "c1" "Hello" 10
                                           [hello_via_api; reply_stored])
                           (Some hello_via_api)))
                 (fst (step an_env (call_sendMessage (Some "Hello") None)
                            initial)))))
     = [hello_via_api; reply_stored].
Proof.
  split; [exact (reachable_fresh initial initial_reachable)|].
  split; [reflexivity|].
  exact (proj1 (proj2
           (reply_opens_conversation an_env an_env "Hello" None initial
              (mkConversation "c1" "Hello" 10 [hello_via_api; reply_stored])
              (Some hello_via_api)
              (reachable_fresh initial initial_reachable) eq_refl))).
Defined.

End ChatStoreTimerFacts.

(* ===================================================================== *)
(** * Every run of the router                                             *)
(* ===================================================================== *)

Module RouterRunFacts.
Import ChatController RouterObservations RouterFacts.

Section AnyProvider.

Variable Provider : Type.
Variable generateResponse :
  string -> list Message -> Provider -> Outcome Completion * Provider.

(** Run the handler of the goal to its end: at each database call both
    outcomes, at the lookup both results, at the completion call a return
    and a throw. *)
Ltac crank :=
  repeat (first
    [ match goal with
      | |- context [match ?r with [] => _ | _ :: _ => _ end] =>
          is_var r; destruct r as [|[] ?]
      end
    | match goal with
      | |- context [findOne ?e] => destruct (findOne e)
      end
    | match goal with
      | |- context [generateResponse ?m ?h ?q] =>
          destruct (generateResponse m h q) as [[?|?] ?]
      end ]; cbn).

(** X10.  Whatever the request, the provider and the database do, the
    HTTP handler does not throw and replies exactly once, as the last
    thing it does, with status 200, 400, 404 or 500. *)
Theorem sendMessage_responds_once env p results req :
  let w := sendMessage generateResponse env req (start p results) in
  fst w = Returns tt
  /\ count is_response (log (snd w)) = 1
  /\ exists before status body,
       log (snd w) = before ++ [Respond status body]
       /\ In status [200; 400; 404; 500].
Proof.
  destruct req as [[message|] cid uid]; cbn zeta;
    unfold sendMessage, sendMessage_body; cbn [body_message body_conversationId].
  2: { run_handler. cbn. repeat split.
       exists [], 400. eexists. split; [reflexivity | cbn; tauto]. }
  destruct (negb (JsString.truthy message) || _);
    [|destruct (4000 <? JsString.length message);
      [|destruct (has_id cid)]];
    run_handler; cbn; crank;
    (split; [reflexivity|]); (split; [reflexivity|]);
    match goal with
    | |- exists b s y, ?l = _ /\ _ => exists (removelast l)
    end;
    do 2 eexists; (split; [reflexivity | cbn; tauto]).
Qed.

(** X11.  Whatever the event's data, the provider and the database do,
    the socket handler does not throw; it starts with the typing signal
    and ends with exactly one closing event to the sender, the bot's
    message or an [error], never both; it confirms at most one message. *)
Theorem handleNewMessage_answers_once env p results data :
  let w := handleNewMessage generateResponse env data (start p results) in
  fst w = Returns tt
  /\ hd_error (log (snd w))
     = Some (ToRoom (data_userId data) (botTyping (data_conversationId data)))
  /\ count is_terminal (log (snd w)) = 1
  /\ (exists before last,
        log (snd w) = before ++ [last] /\ is_terminal last = true)
  /\ count is_confirmation (log (snd w)) <= 1.
Proof.
  destruct data as [[message|] cid uid]; cbn zeta;
    run_handler; cbn; crank;
    (split; [reflexivity|]); (split; [reflexivity|]);
    (split; [reflexivity|]);
    (split; [|cbn; lia]);
    match goal with
    | |- exists b y, ?l = _ /\ _ => exists (removelast l)
    end;
    eexists; (split; reflexivity).
Qed.

Lemma empty_body_blank message : empty_body message = JsString.blank message.
Proof.
  destruct message as [m|]; [|reflexivity]. cbn.
  destruct m; reflexivity.
Qed.

(** X12.  A request the HTTP handler turns away costs nothing: for a
    message that is missing or blank (empty once the white space of
    [String.prototype.trim] is removed) the reply is 400 EMPTY_MESSAGE,
    for one whose [length] (in UTF-16 code units, before trimming) is more
    than 4000 it is 400 MESSAGE_TOO_LONG, for a conversation id that is
    not found 404; in each case nothing is saved, the provider is not
    called and no document is created. *)
Theorem sendMessage_rejects env p results message cid uid :
  let w := snd (sendMessage generateResponse env (mkRequest message cid uid)
                            (start p results)) in
  (JsString.blank message = true ->
     log w = [Respond 400 (Failure "Message content is required"
                                   "EMPTY_MESSAGE")]
     /\ provider w = p /\ conversation w = None)
  /\ (forall m, message = Some m ->
        JsString.blank message = false -> 4000 < JsString.length m ->
        log w = [Respond 400
                   (Failure "Message too long. Maximum 4000 characters allowed."
                            "MESSAGE_TOO_LONG")]
        /\ provider w = p /\ conversation w = None)
  /\ (forall m, message = Some m ->
        acceptable m -> has_id cid = true -> findOne env = None ->
        hd true results = true ->
        log w = [FindOne true;
                 Respond 404 (Failure "Conversation not found"
                                      "CONVERSATION_NOT_FOUND")]
        /\ provider w = p /\ conversation w = None).
Proof.
  cbn zeta. unfold sendMessage, sendMessage_body.
  cbn [body_message body_conversationId].
  split; [|split].
  - intros Hb. rewrite <- empty_body_blank in Hb.
    destruct message as [m|]; cbn in Hb; [rewrite Hb|]; now run_handler.
  - intros m -> Hb Hlen. rewrite <- empty_body_blank in Hb. cbn in Hb.
    rewrite Hb. apply Nat.ltb_lt in Hlen. rewrite Hlen. now run_handler.
  - intros m -> Hacc Hid Hnone Hhd.
    destruct (accepted m Hacc) as [Hv Hl]. rewrite Hv, Hl, Hid.
    run_handler. rewrite Hnone.
    destruct results as [|b r]; [|cbn in Hhd; subst b]; cbn; auto.
Qed.

(** The saves of a run, one by one. *)
Ltac each_save :=
  intros ?doc ?Hin; cbn in Hin;
  repeat match goal with
         | H : _ \/ _ |- _ => destruct H
         | H : False |- _ => destruct H
         end;
  subst; cbn; rewrite <- ?app_assoc; cbn; rewrite ?cast_user;
  do 3 eexists; (split; [reflexivity|]); (split; [reflexivity|]);
  (split; [reflexivity|]); (split; [cbn; lia|]);
  (split; [|reflexivity]);
  repeat (apply Forall_cons; [reflexivity|]); apply Forall_nil.

(** X13.  Both handlers only ever append to a conversation.  Whatever the
    provider and the database do, every document handed to [save] holds
    the messages the conversation had, then the user's message with its
    content trimmed, then at most two messages of the bot (the reply, and
    after it the apology when saving the reply failed); a conversation
    that was found keeps its id, owner, session, title and status, and a
    new one gets the generated identifiers, the caller as owner, the
    status [active] and the automatic title: the first 50 UTF-16 code
    units of the message as it was given, followed by [...] when the
    message has more. *)
Theorem saves_only_append env p results message cid uid :
  let via_http :=
    log (snd (sendMessage generateResponse env (mkRequest message cid uid)
                (start p results))) in
  let via_socket :=
    log (snd (handleNewMessage generateResponse env
                (mkData message cid (Some uid)) (start p results))) in
  (forall doc, In doc (saves via_http) ->
     exists m um tail,
       message = Some m
       /\ doc_messages doc = prior_http env cid ++ um :: tail
       /\ shape um = (user, JsString.trim m, text, None)
       /\ length tail <= 2
       /\ Forall (fun x => sender x = bot) tail
       /\ identity doc
          = match (if has_id cid then findOne env else None) with
            | Some c => identity c
            | None => (objectId env, Some uid, uuidv4 env, auto_title m, active)
            end)
  /\ (forall doc, In doc (saves via_socket) ->
        exists m um tail,
          message = Some m
          /\ doc_messages doc = prior env ++ um :: tail
          /\ shape um = (user, JsString.trim m, text, None)
          /\ length tail <= 2
          /\ Forall (fun x => sender x = bot) tail
          /\ identity doc
             = match findOne env with
               | Some c => identity c
               | None => (objectId env, Some uid, uuidv4 env, auto_title m, active)
               end).
Proof.
  cbn zeta. unfold prior_http, prior. split.
  - unfold sendMessage, sendMessage_body.
    cbn [body_message body_conversationId].
    destruct message as [m|]; [|now run_handler].
    destruct (negb (JsString.truthy m) || _); [now run_handler|].
    destruct (4000 <? JsString.length m); [now run_handler|].
    destruct (has_id cid); run_handler; cbn; crank;
      solve [intros ? [] | each_save].
  - destruct message as [m|]; run_handler; cbn; crank;
      solve [intros ? [] | each_save].
Qed.

Lemma http_run env p results message cid uid r p' :
  acceptable message ->
  (has_id cid = true -> findOne env <> None) ->
  all_resolve results ->
  let k := if has_id cid then 0 else 1 in
  let um := plain user (JsString.trim message) (clock env k) None in
  let bm := plain bot (response r) (clock env (S k))
                  (Some (reply_metadata r)) in
  generateResponse message
    (OpenAIService.last_n 10 (prior_http env cid ++ [um])) p
  = (Returns r, p') ->
  let w := snd (sendMessage generateResponse env (mkRequest (Some message) cid uid)
                            (start p results)) in
  provider w = p'
  /\ exists doc,
       log w = (if has_id cid then [FindOne true] else [])
               ++ [ Save doc true; Populate true;
                    Respond 200 (Sent "Message sent successfully" doc um bm
                                      (reply_metadata r)) ]
       /\ doc_messages doc = prior_http env cid ++ [um; cast bm]
       /\ doc_lastActivity doc = clock env (S (S k)).
Proof.
  intros Hacc Hfound Hres k um bm Hgen w. subst k um bm w.
  unfold prior_http, prior in *.
  destruct (accepted message Hacc) as [Hv Hlen].
  unfold sendMessage, sendMessage_body. cbn [body_message body_conversationId].
  rewrite Hv, Hlen.
  destruct (has_id cid) eqn:Hid.
  - destruct (findOne env) as [c|] eqn:Ef; [|now destruct (Hfound eq_refl)].
    run_handler.
    next_db Hres; cbn -[OpenAIService.last_n cast]; rewrite cast_user, Hgen;
      cbn -[OpenAIService.last_n cast];
      try (next_db H; cbn -[cast]); try (next_db H0; cbn -[cast]);
      (split; [reflexivity|]); eexists; (split; [reflexivity|]);
      split; cbn -[cast]; now rewrite <- ?app_assoc.
  - run_handler. cbn -[OpenAIService.last_n cast] in *.
    rewrite cast_user, Hgen.
    cbn -[OpenAIService.last_n cast].
    next_db Hres; cbn -[cast]; try (next_db H; cbn -[cast]);
      (split; [reflexivity|]); eexists; (split; [reflexivity|]);
      split; reflexivity.
Qed.

Lemma socket_run env p results message cid uid r p' :
  all_resolve results ->
  let k := match findOne env with Some _ => 0 | None => 1 end in
  let um := plain user (JsString.trim message) (clock env k) None in
  let bm := plain bot (response r) (clock env (S k))
                  (Some (reply_metadata r)) in
  generateResponse message (prior env ++ [um]) p = (Returns r, p') ->
  let w := snd (handleNewMessage generateResponse env
                  (mkData (Some message) cid uid) (start p results)) in
  provider w = p'
  /\ exists doc,
       log w = [ ToRoom uid (botTyping cid); FindOne true;
                 ToSender (messageSent um);
                 Save doc true;
                 ToRoom uid (botStoppedTyping cid);
                 ToSender (botMessage bm (reply_metadata r)) ]
       /\ doc_messages doc = prior env ++ [um; cast bm]
       /\ doc_lastActivity doc = clock env (S (S k)).
Proof.
  intros Hres k um bm Hgen w. subst k um bm w. unfold prior in *.
  run_handler.
  destruct (findOne env) as [c|] eqn:Ef;
    next_db Hres; cbn -[cast] in *; rewrite ?Ef; cbn -[cast];
      rewrite cast_user, Hgen; cbn -[cast];
      try (next_db H; cbn -[cast]);
      (split; [reflexivity|]); eexists; (split; [reflexivity|]);
      split; cbn -[cast]; now rewrite <- ?app_assoc.
Qed.

(** X14.  The HTTP path when nothing fails: the provider is asked with the
    raw message and the last ten messages of the conversation, the user's
    message included; its reply becomes the bot's message with the
    provider's metadata; the conversation is saved once with both
    messages appended, the reply as the schema casts it, and its last
    activity set after them, and the 200 reply carries that conversation,
    both messages as they were built and the metadata. *)
Theorem http_exchange env p results message cid uid r p' :
  acceptable message ->
  (has_id cid = true -> findOne env <> None) ->
  all_resolve results ->
  let k := if has_id cid then 0 else 1 in
  let um := plain user (JsString.trim message) (clock env k) None in
  let bm := plain bot (response r) (clock env (S k))
                  (Some (reply_metadata r)) in
  generateResponse message
    (OpenAIService.last_n 10 (prior_http env cid ++ [um])) p
  = (Returns r, p') ->
  let w := snd (sendMessage generateResponse env (mkRequest (Some message) cid uid)
                            (start p results)) in
  provider w = p'
  /\ exists doc,
       log w = (if has_id cid then [FindOne true] else [])
               ++ [ Save doc true; Populate true;
                    Respond 200 (Sent "Message sent successfully" doc um bm
                                      (reply_metadata r)) ]
       /\ doc_messages doc = prior_http env cid ++ [um; cast bm]
       /\ doc_lastActivity doc = clock env (S (S k)).
Proof. exact (http_run env p results message cid uid r p'). Qed.

(** X15.  The socket path when nothing fails: typing signal, lookup,
    confirmation of the user's message, the completion call with the raw
    message and the whole conversation, one save with both messages
    appended (the reply as the schema casts it), the end of the typing
    signal, and the bot's message with the provider's metadata. *)
Theorem socket_exchange env p results message cid uid r p' :
  all_resolve results ->
  let k := match findOne env with Some _ => 0 | None => 1 end in
  let um := plain user (JsString.trim message) (clock env k) None in
  let bm := plain bot (response r) (clock env (S k))
                  (Some (reply_metadata r)) in
  generateResponse message (prior env ++ [um]) p = (Returns r, p') ->
  let w := snd (handleNewMessage generateResponse env
                  (mkData (Some message) cid uid) (start p results)) in
  provider w = p'
  /\ exists doc,
       log w = [ ToRoom uid (botTyping cid); FindOne true;
                 ToSender (messageSent um);
                 Save doc true;
                 ToRoom uid (botStoppedTyping cid);
                 ToSender (botMessage bm (reply_metadata r)) ]
       /\ doc_messages doc = prior env ++ [um; cast bm]
       /\ doc_lastActivity doc = clock env (S (S k)).
Proof. exact (socket_run env p results message cid uid r p'). Qed.

End AnyProvider.

Lemma sendMessage_rejects_witness :
  JsString.blank (Some "   ") = true
  /\ log (snd (sendMessage
                 (OpenAIService.generateResponse RouterScenarios.rate_limited)
                 RouterScenarios.first_contact
                 (mkRequest (Some "   ") None "u1")
                 (start RouterScenarios.service [])))
     = [Respond 400 (Failure "Message content is required" "EMPTY_MESSAGE")].
Proof.
  split; [reflexivity|].
  exact (proj1 (proj1 (sendMessage_rejects _
                         (OpenAIService.generateResponse
                            RouterScenarios.rate_limited)
                         RouterScenarios.first_contact
                         RouterScenarios.service [] (Some "   ") None "u1")
                      eq_refl)).
Defined.

Lemma http_exchange_witness :
  acceptable "Hello"
  /\ all_resolve []
  /\ OpenAIService.generateResponse RouterScenarios.rate_limited "Hello"
       (OpenAIService.last_n 10
          (prior_http RouterScenarios.first_contact None
           ++ [plain user (JsString.trim "Hello") 101 None]))
       RouterScenarios.mock_service
     = (Returns (OpenAIService.getMockResponse "Hello" None),
        RouterScenarios.mock_service)
  /\ provider (snd (sendMessage
                      (OpenAIService.generateResponse RouterScenarios.rate_limited)
                      RouterScenarios.first_contact
                      RouterScenarios.hello_request
                      (start RouterScenarios.mock_service [])))
     = RouterScenarios.mock_service.
Proof.
  split; [exact RouterExamples.hello_acceptable|].
  split; [reflexivity|]. split; [reflexivity|].
  exact (proj1 (http_exchange _
                  (OpenAIService.generateResponse RouterScenarios.rate_limited)
                  RouterScenarios.first_contact RouterScenarios.mock_service []
                  "Hello" None "u1"
                  (OpenAIService.getMockResponse "Hello" None)
                  RouterScenarios.mock_service
                  RouterExamples.hello_acceptable
                  (fun H : has_id None = true => False_ind _ (diff_false_true H))
                  eq_refl eq_refl)).
Defined.

Lemma socket_exchange_witness :
  all_resolve []
  /\ OpenAIService.generateResponse RouterScenarios.rate_limited "Hello"
       (prior RouterScenarios.first_contact
        ++ [plain user (JsString.trim "Hello") 101 None])
       RouterScenarios.mock_service
     = (Returns (OpenAIService.getMockResponse "Hello" None),
        RouterScenarios.mock_service)
  /\ provider (snd (handleNewMessage
                      (OpenAIService.generateResponse RouterScenarios.rate_limited)
                      RouterScenarios.first_contact RouterScenarios.hello
                      (start RouterScenarios.mock_service [])))
     = RouterScenarios.mock_service.
Proof.
  split; [reflexivity|]. split; [reflexivity|].
  exact (proj1 (socket_exchange _
                  (OpenAIService.generateResponse RouterScenarios.rate_limited)
                  RouterScenarios.first_contact RouterScenarios.mock_service []
                  "Hello" None (Some "u1")
                  (OpenAIService.getMockResponse "Hello" None)
                  RouterScenarios.mock_service eq_refl eq_refl)).
Defined.

End RouterRunFacts.

(* ===================================================================== *)
(** * The completion service from call to call                            *)
(* ===================================================================== *)

Module ServiceRunFacts.
Import OpenAIService ServiceRuns ServiceScenarios.

(** ** Answering without the provider *)

(** A call inside a rate-limit window, or with the breaker open, is
    answered by a mock response and leaves the service as it was. *)
Lemma answered_locally env m h svc :
  limited (now env) svc = true \/ breaker_open svc = true ->
  generateResponse env m h svc
  = (Returns (getMockResponse m (if limited (now env) svc
                                 then Some "Rate limited" else None)),
     svc).
Proof.
  unfold generateResponse, attempt, limited, breaker_open. cbv zeta.
  intros H.
  destruct (match rateLimitedUntil svc with
            | Some u => (0 <? u) && (now env <? u)
            | None => false
            end); [reflexivity|].
  destruct H as [H|H]; [discriminate|]. now rewrite H.
Qed.

(** X16.  Once the service has no usable API key or has counted
    [maxFailures] failures, it never calls the provider again: every later
    call, whatever the provider would answer, returns the mock response
    for its message (labelled "Rate limited" inside a rate-limit window)
    and leaves the service unchanged, so nothing but [resetRateLimit] or a
    restart closes the breaker. *)
Theorem breaker_stays_open svc calls :
  breaker_open svc = true ->
  snd (serve calls svc) = svc
  /\ fst (serve calls svc)
     = map (fun c =>
              Returns (getMockResponse (call_message c)
                         (if limited (now (call_env c)) svc
                          then Some "Rate limited" else None)))
           calls.
Proof.
  intros H. induction calls as [|c rest [IH1 IH2]]; [now split|].
  cbn [serve map]. rewrite answered_locally by (now right).
  destruct (serve rest svc) as [os svc2]. cbn in *. now subst.
Qed.

Lemma breaker_stays_open_witness :
  breaker_open (create false) = true
  /\ snd (serve [mkCall RouterScenarios.rate_limited "Hello" []]
                (create false)) = create false.
Proof.
  split; [reflexivity|].
  exact (proj1 (breaker_stays_open (create false)
                  [mkCall RouterScenarios.rate_limited "Hello" []] eq_refl)).
Defined.

(** ** Failures that count *)

Lemma counted_call env m h svc e :
  breaker_open svc = false ->
  limited (now env) svc = false ->
  (forall req, completions_create env req = Throws e) ->
  counted e = true ->
  generateResponse env m h svc
  = (Returns (getMockResponse m
                (Some (if status_is e [500; 502; 503]
                       then "Service unavailable" else "Service error"))),
     mkService (useMockResponse svc) (rateLimitedUntil svc)
               (S (failureCount svc)) (maxFailures svc)).
Proof.
  unfold generateResponse, attempt, recover, limited, breaker_open, counted.
  cbv zeta. intros Ho Hl Ha Hc. rewrite Hl, Ho, Ha.
  apply andb_prop in Hc. destruct Hc as [Hc H3].
  apply andb_prop in Hc. destruct Hc as [H1 H2].
  apply negb_true_iff in H1, H2. rewrite H1, H2.
  destruct (status_is e [500; 502; 503]); [reflexivity|].
  cbn in H3. apply negb_true_iff in H3. now rewrite H3.
Qed.

Lemma failures_accumulate calls svc :
  useMockResponse svc = false ->
  rateLimitedUntil svc = None ->
  failureCount svc + length calls <= maxFailures svc ->
  Forall failing calls ->
  let svc' := snd (serve calls svc) in
  useMockResponse svc' = false
  /\ rateLimitedUntil svc' = None
  /\ failureCount svc' = failureCount svc + length calls
  /\ maxFailures svc' = maxFailures svc.
Proof.
  revert svc. induction calls as [|c rest IH]; intros svc Hm Hr Hn Hf.
  - cbn. repeat split; auto.
  - inversion Hf as [|? ? (e & Hc & Ha) Hrest]; subst.
    cbn [serve length] in *.
    rewrite (counted_call _ _ _ svc e); auto.
    + specialize (IH (mkService (useMockResponse svc) (rateLimitedUntil svc)
                                (S (failureCount svc)) (maxFailures svc))).
      cbn in IH.
      destruct (serve rest _) as [os svc2]. cbn in *.
      destruct (IH Hm Hr ltac:(lia) Hrest) as (I1 & I2 & I3 & I4).
      repeat split; auto; lia.
    + unfold breaker_open. rewrite Hm. cbn. apply Nat.leb_gt. lia.
    + unfold limited. now rewrite Hr.
Qed.

(** X17.  Three calls in a row that the provider fails with a counted
    error (a 500, 502 or 503, or anything but a 401, a 429 or an abort)
    open the breaker of a service that started with an API key: the
    failure count is 3, and from then on every call is answered by the
    plain mock response without calling the provider. *)
Theorem three_failures_open_breaker c1 c2 c3 :
  failing c1 -> failing c2 -> failing c3 ->
  let svc := snd (serve [c1; c2; c3] (create true)) in
  failureCount svc = 3
  /\ breaker_open svc = true
  /\ forall env m h,
       generateResponse env m h svc = (Returns (getMockResponse m None), svc).
Proof.
  intros F1 F2 F3 svc.
  destruct (failures_accumulate [c1; c2; c3] (create true)
              eq_refl eq_refl ltac:(cbn; lia)
              (Forall_cons _ F1 (Forall_cons _ F2 (Forall_cons _ F3 (Forall_nil _)))))
    as (Hm & Hr & Hn & Hx).
  fold svc in Hm, Hr, Hn, Hx. cbn in Hn, Hx.
  assert (Ho : breaker_open svc = true).
  { unfold breaker_open. rewrite Hn, Hx. apply orb_true_r. }
  split; [exact Hn|]. split; [exact Ho|].
  intros env m h. rewrite answered_locally by (now right).
  unfold limited. now rewrite Hr.
Qed.

Lemma three_failures_open_breaker_witness :
  failing outage
  /\ failureCount (snd (serve [outage; outage; outage] (create true))) = 3
  /\ breaker_open (snd (serve [outage; outage; outage] (create true))) = true.
Proof.
  assert (F : failing outage).
  { eexists. split; [|intros req; reflexivity]. reflexivity. }
  split; [exact F|].
  split; [exact (proj1 (three_failures_open_breaker outage outage outage F F F))
         | exact (proj1 (proj2 (three_failures_open_breaker outage outage outage
                                  F F F)))].
Defined.

(** ** The rate-limit window *)

(** X18.  A 429 from the provider opens a rate-limit window: the call
    returns the mock response labelled "Rate limit exceeded" and records
    the instant until which to wait, the retry-after header in seconds
    (60 without it) after now; every call before that instant returns
    the mock response labelled "Rate limited", whatever the provider
    would answer, and leaves the service as it is; the failure count does
    not move. *)
Theorem rate_limit_window env m h svc e :
  breaker_open svc = false ->
  limited (now env) svc = false ->
  (forall req, completions_create env req = Throws e) ->
  err_status e = Some 429 ->
  let wait := match err_retry_after e with Some n => n | None => 60 end in
  let svc1 := snd (generateResponse env m h svc) in
  fst (generateResponse env m h svc)
  = Returns (getMockResponse m (Some "Rate limit exceeded"))
  /\ rateLimitedUntil svc1 = Some (now env + wait * 1000)
  /\ failureCount svc1 = failureCount svc
  /\ forall env' m' h',
       now env' < now env + wait * 1000 ->
       generateResponse env' m' h' svc1
       = (Returns (getMockResponse m' (Some "Rate limited")), svc1).
Proof.
  intros Ho Hl Ha Hs wait svc1.
  assert (E : generateResponse env m h svc
              = (Returns (getMockResponse m (Some "Rate limit exceeded")),
                 mkService (useMockResponse svc) (Some (now env + wait * 1000))
                           (failureCount svc) (maxFailures svc))).
  { unfold generateResponse, attempt, recover. cbv zeta.
    unfold limited in Hl. unfold breaker_open in Ho. rewrite Hl, Ho, Ha.
    unfold status_is. rewrite Hs. reflexivity. }
  subst svc1. rewrite E. cbn [fst snd rateLimitedUntil failureCount].
  repeat split.
  intros env' m' h' Hlt.
  rewrite answered_locally; unfold limited; cbn [rateLimitedUntil].
  - replace ((0 <? now env + wait * 1000) && (now env' <? now env + wait * 1000))
      with true; [reflexivity|].
    symmetry. apply andb_true_intro. split; apply Nat.ltb_lt; lia.
  - left. apply andb_true_intro. split; apply Nat.ltb_lt; lia.
Qed.

Lemma rate_limit_window_witness :
  breaker_open (create true) = false
  /\ limited (now throttled) (create true) = false
  /\ rateLimitedUntil (snd (generateResponse throttled "Hello" [] (create true)))
     = Some (1000 + 30 * 1000).
Proof.
  split; [reflexivity|]. split; [reflexivity|].
  exact (proj1 (proj2 (rate_limit_window throttled "Hello" [] (create true)
                         (mkJsError "RateLimitError" "Rate limit reached"
                                    (Some 429) (Some 30))
                         eq_refl eq_refl (fun _ => eq_refl) eq_refl))).
Defined.

(** ** A completion from the provider *)

(** The context found for a message is never the empty string, so the
    truthiness tests on it only ask whether it is there. *)
Lemma context_truthy userMessage ctx :
  getRelevantContext userMessage = Some ctx -> JsString.truthy ctx = true.
Proof.
  unfold getRelevantContext. cbv zeta.
  destruct (firstn 3 _); [discriminate|].
  intros H. injection H as <-. reflexivity.
Qed.

Lemma answer_used env m h svc r reply :
  breaker_open svc = false ->
  limited (now env) svc = false ->
  completions_create env (request m h (getRelevantContext m)) = Returns r ->
  api_choice r = Some reply ->
  generateResponse env m h svc
  = (Returns (completion_of m r reply), resetRateLimit svc).
Proof.
  intros Ho Hl Ha Hc.
  unfold generateResponse, attempt. cbv zeta.
  unfold limited in Hl. unfold breaker_open in Ho. rewrite Hl, Ho, Ha, Hc.
  unfold completion_of, has_context, resetRateLimit.
  destruct (getRelevantContext m) as [ctx|] eqn:E; [|reflexivity].
  now rewrite (context_truthy m ctx E).
Qed.

(** X19.  When the provider answers with a choice, the completion is the
    provider's text with its model and token count (0 when it reports
    none), marked as not a mock, with confidence 0.8 and [contextUsed]
    exactly when the knowledge base had something for the message and 0.5
    otherwise; and the service forgets its failures and its rate limit,
    as [resetRateLimit] does. *)
Theorem provider_answer env m h svc r reply :
  breaker_open svc = false ->
  limited (now env) svc = false ->
  completions_create env (request m h (getRelevantContext m)) = Returns r ->
  api_choice r = Some reply ->
  generateResponse env m h svc
  = (Returns (completion_of m r reply), resetRateLimit svc).
Proof.
  exact (answer_used env m h svc r reply).
Qed.

Lemma provider_answer_witness :
  breaker_open (create true) = false
  /\ limited (now answering) (create true) = false
  /\ generateResponse answering "I forgot my password" [] (create true)
     = (Returns (mkCompletion "You can reset it from the login page."
                   (mkMetadata (Some "gpt-3.5-turbo") (Some 42) (Some 8)
                      (Some true) (Some false) None None None)),
        create true).
Proof.
  split; [reflexivity|]. split; [reflexivity|].
  exact (provider_answer answering "I forgot my password" [] (create true)
           (mkApiResponse "gpt-3.5-turbo"
              (Some "You can reset it from the login page.") (Some 42))
           "You can reset it from the login page."
           eq_refl eq_refl eq_refl eq_refl).
Defined.

(** ** resetRateLimit and getStatus *)

(** X20.  [resetRateLimit] closes the breaker that failures opened and
    ends a rate-limit window: afterwards [getStatus] reports no failure
    and no rate limit, and a service with an API key calls the provider
    again; mock mode is not left. *)
Theorem resetRateLimit_reopens svc t :
  let svc' := resetRateLimit svc in
  getStatus t svc'
  = mkServiceStatus (useMockResponse svc) None None 0 (maxFailures svc)
  /\ limited t svc' = false
  /\ isMockMode svc' = isMockMode svc
  /\ (isMockMode svc = true -> breaker_open svc' = true)
  /\ (isMockMode svc = false -> 0 < maxFailures svc ->
      breaker_open svc' = false
      /\ forall env m h r reply,
           completions_create env (request m h (getRelevantContext m))
           = Returns r ->
           api_choice r = Some reply ->
           generateResponse env m h svc'
           = (Returns (completion_of m r reply), svc')).
Proof.
  cbn zeta. split; [reflexivity|]. split; [reflexivity|].
  split; [reflexivity|]. split.
  - unfold isMockMode, breaker_open, resetRateLimit. cbn. now intros ->.
  - intros Hm Hpos.
    assert (Ho : breaker_open (resetRateLimit svc) = false).
    { unfold isMockMode in Hm. unfold breaker_open, resetRateLimit. cbn.
      rewrite Hm. cbn. apply Nat.leb_gt. exact Hpos. }
    split; [exact Ho|].
    intros env m h r reply Ha Hc.
    exact (answer_used env m h (resetRateLimit svc) r reply Ho eq_refl Ha Hc).
Qed.

Lemma resetRateLimit_reopens_witness :
  isMockMode (snd (serve [outage; outage; outage] (create true))) = false
  /\ breaker_open (snd (serve [outage; outage; outage] (create true))) = true
  /\ breaker_open (resetRateLimit
                     (snd (serve [outage; outage; outage] (create true))))
     = false.
Proof.
  split; [reflexivity|]. split; [reflexivity|].
  exact (proj1 (proj2 (proj2 (proj2 (proj2
           (resetRateLimit_reopens
              (snd (serve [outage; outage; outage] (create true))) 0))))
           eq_refl (Nat.lt_0_succ 2))).
Defined.

(** ** The request sent to the provider *)

Lemma length_last_n {A} n (l : list A) : length (last_n n l) <= n.
Proof. unfold last_n. rewrite length_skipn. lia. Qed.

Lemma In_last_n {A} n (x : A) l : In x (last_n n l) -> In x l.
Proof.
  unfold last_n. intros H.
  rewrite <- (firstn_skipn (length l - n) l). apply in_or_app. now right.
Qed.

Lemma last_n_snoc {A} n (l : list A) x :
  last_n (S n) (l ++ [x]) = last_n n l ++ [x].
Proof.
  unfold last_n. rewrite length_app. cbn [length].
  replace (length l + 1 - S n) with (length l - n) by lia.
  rewrite skipn_app.
  replace (length l - n - length l) with 0 by lia. reflexivity.
Qed.

Lemma last_n_short {A} n (l : list A) : length l <= n -> last_n n l = l.
Proof.
  unfold last_n. intros H. replace (length l - n) with 0 by lia. reflexivity.
Qed.

(** X21.  The request built for the provider is, in this order: one entry
    in the system role, whose content is the system prompt, followed when
    the knowledge base has something for the message by a blank line, the
    line [Relevant information:] and that context; then the last ten
    messages of the history (all of it when it has fewer), oldest first,
    those with an empty content left out, a message of the user in the
    user role and one of the bot in the assistant role, each with its
    content unchanged; then the user's message as it was given, in the
    user role.  So the request has at most twelve entries whatever the
    length of the conversation, and none between the first and the last
    is in the system role or empty. *)
Theorem request_shape m h ctx :
  exists before recent,
    h = before ++ recent
    /\ length recent = Nat.min 10 (length h)
    /\ let prompt :=
         match ctx with
         | Some c =>
             if JsString.truthy c
             then (systemPrompt ++ nl ++ nl ++ "Relevant information:" ++ nl
                   ++ c)%string
             else systemPrompt
         | None => systemPrompt
         end in
       let middle :=
         map (fun msg =>
                mkChatMessage
                  (match sender msg with user => role_user | bot => assistant end)
                  (content msg))
             (filter (fun msg => JsString.truthy (content msg)) recent) in
       request m h ctx
       = mkChatMessage system prompt :: middle ++ [mkChatMessage role_user m]
       /\ length middle <= 10
       /\ length (request m h ctx) <= 12
       /\ Forall (fun x => role x <> system /\ chat_content x <> "") middle.
Proof.
  exists (firstn (length h - 10) h), (last_n 10 h).
  split; [unfold last_n; now rewrite firstn_skipn|].
  split; [unfold last_n; rewrite length_skipn; lia|].
  cbv zeta. split; [reflexivity|].
  assert (L : length (map (fun msg =>
                 mkChatMessage
                   match sender msg with user => role_user | bot => assistant end
                   (content msg))
               (filter (fun msg => JsString.truthy (content msg)) (last_n 10 h)))
              <= 10).
  { rewrite length_map.
    pose proof (filter_length_le (fun msg => JsString.truthy (content msg))
                  (last_n 10 h)).
    pose proof (length_last_n 10 h). lia. }
  split; [exact L|]. split.
  - unfold request. cbv zeta. cbn [app length]. rewrite length_app.
    cbn [length]. lia.
  - apply Forall_forall. intros x Hin. apply in_map_iff in Hin.
    destruct Hin as (msg & <- & Hin). apply filter_In in Hin.
    destruct Hin as [Hin Ht]. cbn. split.
    + destruct (sender msg); discriminate.
    + intros E. rewrite E in Ht. discriminate.
Qed.

Lemma request_ends m h x ctx :
  JsString.truthy (content x) = true ->
  request m (last_n 10 (h ++ [x])) ctx
  = removelast (request m (last_n 9 h) ctx)
    ++ [ mkChatMessage
           match sender x with user => role_user | bot => assistant end
           (content x);
         mkChatMessage role_user m ].
Proof.
  intros Ht. unfold request. cbv zeta.
  rewrite last_n_snoc.
  rewrite (last_n_short 10 (last_n 9 h ++ [x])).
  2: { rewrite length_app. cbn. pose proof (length_last_n 9 h). lia. }
  rewrite (last_n_short 10 (last_n 9 h)).
  2: { pose proof (length_last_n 9 h). lia. }
  rewrite filter_app, map_app. cbn [filter map]. rewrite Ht. cbn [map].
  rewrite !app_assoc. rewrite removelast_last. rewrite <- !app_assoc.
  reflexivity.
Qed.

(** X22.  Both handlers push the user's message onto the conversation
    before they ask the provider, and the service appends the message to
    the history it is given: the request the provider receives ends with
    the user's message twice, first with its content trimmed (from the
    history), then as it was typed. *)
Theorem request_repeats_message message history t ctx :
  JsString.truthy (JsString.trim message) = true ->
  let um := ChatController.plain user (JsString.trim message) t None in
  (exists before,
      request message (last_n 10 (history ++ [um])) ctx
      = before ++ [ mkChatMessage role_user (JsString.trim message);
                    mkChatMessage role_user message ])
  /\ (exists before,
        request message (history ++ [um]) ctx
        = before ++ [ mkChatMessage role_user (JsString.trim message);
                      mkChatMessage role_user message ]).
Proof.
  intros Ht um.
  assert (E : forall h, request message (last_n 10 h) ctx = request message h ctx).
  { intros h. unfold request. cbv zeta.
    now rewrite (last_n_short 10 (last_n 10 h)) by apply length_last_n. }
  assert (H : exists before,
             request message (last_n 10 (history ++ [um])) ctx
             = before ++ [ mkChatMessage role_user (JsString.trim message);
                           mkChatMessage role_user message ]).
  { eexists. now rewrite (request_ends message history um ctx Ht). }
  split; [exact H|]. destruct H as [before H]. exists before.
  now rewrite <- E.
Qed.

Lemma request_repeats_message_witness :
  JsString.truthy (JsString.trim " Hello ") = true
  /\ exists before,
       request " Hello "
         (last_n 10 ([] ++ [ChatController.plain user (JsString.trim " Hello ")
                                                 101 None]))
         None
       = before ++ [ mkChatMessage role_user "Hello";
                     mkChatMessage role_user " Hello " ].
Proof.
  split; [reflexivity|].
  exact (proj1 (request_repeats_message " Hello " [] 101 None eq_refl)).
Defined.

(** ** The knowledge base *)

Lemma firstn_nil_iff {A} n (l : list A) : firstn (S n) l = [] <-> l = [].
Proof. destruct l; cbn; split; intros H; try reflexivity; discriminate. Qed.

Lemma In_firstn {A} n (x : A) l : In x (firstn n l) -> In x l.
Proof.
  intros H. rewrite <- (firstn_skipn n l). apply in_or_app. now left.
Qed.

Lemma filter_nil_iff {A} (f : A -> bool) l :
  filter f l = [] <-> forallb (fun x => negb (f x)) l = true.
Proof.
  induction l as [|a r IH]; cbn; [tauto|].
  destruct (f a); cbn; [split; discriminate | exact IH].
Qed.

(** X23.  The knowledge-base lookup ignores the case of the message; it
    finds nothing exactly when no keyword of any entry occurs in the
    lower-cased message; and what it finds is never the empty string: it
    starts with the heading line and lists at most three entries. *)
Theorem context_lookup m :
  getRelevantContext (JsString.toLowerCase m) = getRelevantContext m
  /\ (getRelevantContext m = None <->
      forallb (fun entry =>
                 negb (existsb (fun keyword =>
                                  JsString.includes (JsString.toLowerCase m)
                                    (JsString.toLowerCase keyword))
                               (keywords entry)))
              knowledgeBase = true)
  /\ (forall ctx, getRelevantContext m = Some ctx ->
        exists entries,
          ctx = ("Relevant company information:" ++ nl
                 ++ numbered 0 entries)%string
          /\ 1 <= length entries <= 3
          /\ (forall e, In e entries -> In e knowledgeBase)
          /\ ctx <> "").
Proof.
  split; [|split].
  - unfold getRelevantContext. cbv zeta. now rewrite JsStringFacts.toLowerCase_idem.
  - unfold getRelevantContext. cbv zeta.
    set (f := fun entry => existsb _ (keywords entry)).
    transitivity (filter f knowledgeBase = []); [|apply filter_nil_iff].
    destruct (firstn 3 (filter f knowledgeBase)) eqn:E.
    + apply firstn_nil_iff in E. tauto.
    + split; [discriminate|]. intros H. rewrite H in E. discriminate.
  - intros ctx. unfold getRelevantContext. cbv zeta.
    set (f := fun entry => existsb _ (keywords entry)).
    destruct (firstn 3 (filter f knowledgeBase)) as [|e r] eqn:E;
      [discriminate|].
    intros H. injection H as <-. exists (e :: r).
    split; [reflexivity|]. split; [|split].
    + pose proof (firstn_le_length 3 (filter f knowledgeBase)) as L.
      rewrite E in L. cbn [length] in *. lia.
    + intros x Hx. rewrite <- E in Hx.
      apply In_firstn in Hx. apply filter_In in Hx. tauto.
    + discriminate.
Qed.

End ServiceRunFacts.

(* ===================================================================== *)
(** * The router when the provider fails                                  *)
(* ===================================================================== *)

Module ProviderFailureFacts.
Import OpenAIService ChatController ServiceRuns RouterFacts RouterRunFacts.
Import RouterScenarios.

(** A call that reaches the provider and is failed by it returns the mock
    response that names the failure. *)
Lemma failed_call env m h svc e :
  breaker_open svc = false ->
  limited (now env) svc = false ->
  provider_fails env e ->
  generateResponse env m h svc
  = (Returns (getMockResponse m (Some (failure_label e))),
     snd (recover env m e svc)).
Proof.
  intros Hb Hl Hf. unfold generateResponse, attempt. cbv zeta.
  unfold breaker_open in Hb. unfold limited in Hl. rewrite Hl, Hb.
  specialize (Hf (request m h (getRelevantContext m))).
  destruct (completions_create env _) as [r|e'];
    [destruct Hf as [Hc ->]; rewrite Hc | subst e'].
  all: unfold recover, failure_label;
       repeat match goal with
              | |- context [if ?b then _ else _] => destruct b
              end; reflexivity.
Qed.

Lemma mock_text_not_apology m t : mock_text m (Some t) <> apology.
Proof.
  unfold mock_text, apology. cbv zeta.
  repeat match goal with
         | |- (if ?b then _ else _) <> _ => destruct b; [cbn; discriminate|]
         end.
  destruct (JsString.truthy t); cbn; discriminate.
Qed.

(** C5, amended.  An accepted message whose completion call the provider
    fails (with an error of any kind: a rate limit, a timeout, an outage,
    an answer without a choice), the database calls resolving.  The completion service does not let the
    error through: it returns its mock response, chosen by the keywords of
    the message, whose metadata names the failure in [errorType] and has
    [isMock = true] and no [error] key.  So neither handler enters its
    [catch (aiError)] block: the user message and the mock response are
    saved in one [save], the stored response keeping of its metadata only
    model, tokens and confidence; the socket path clears the typing signal
    and emits the mock response as [botMessage], the HTTP path returns it
    with status 200 and the note [Message sent successfully].  The reply is
    not the fixed apology and nothing carries [metadata.error = true];
    neither path reports a failure. *)
Theorem provider_failure_answered penv e env svc results message cid uid :
  acceptable message ->
  (has_id cid = true -> findOne env <> None) ->
  all_resolve results ->
  breaker_open svc = false ->
  limited (now penv) svc = false ->
  provider_fails penv e ->
  let reply := getMockResponse message (Some (failure_label e)) in
  let via_socket :=
    log (snd (handleNewMessage (generateResponse penv) env
                (mkData (Some message) cid (Some uid)) (start svc results))) in
  let via_http :=
    log (snd (sendMessage (generateResponse penv) env
                (mkRequest (Some message) cid uid) (start svc results))) in
  (exists um bm doc,
      via_socket = [ ToRoom (Some uid) (botTyping cid); FindOne true;
                     ToSender (messageSent um);
                     Save doc true;
                     ToRoom (Some uid) (botStoppedTyping cid);
                     ToSender (botMessage bm (reply_metadata reply)) ]
      /\ shape um = (user, JsString.trim message, text, None)
      /\ shape bm = (bot, response reply, text, Some (reply_metadata reply))
      /\ doc_messages doc = prior env ++ [um; cast bm])
  /\ (exists um bm doc,
      via_http = (if has_id cid then [FindOne true] else [])
                 ++ [ Save doc true; Populate true;
                      Respond 200 (Sent "Message sent successfully" doc um bm
                                        (reply_metadata reply)) ]
      /\ shape um = (user, JsString.trim message, text, None)
      /\ shape bm = (bot, response reply, text, Some (reply_metadata reply))
      /\ doc_messages doc = prior_http env cid ++ [um; cast bm])
  /\ reply_metadata reply
     = mkMetadata (Some "mock-response")
                  (Some (JsString.length (response reply))) (Some 7)
                  (Some true) (Some true) (Some (failure_label e)) None None
  /\ cast_metadata (Some (reply_metadata reply))
     = Some (mkMetadata (Some "mock-response")
                        (Some (JsString.length (response reply))) (Some 7)
                        None None None None None)
  /\ response reply <> apology
  /\ existsb is_fallback_reply via_socket = false
  /\ existsb is_fallback_reply via_http = false
  /\ existsb is_send_failure via_socket = false
  /\ existsb is_send_failure via_http = false.
Proof.
  intros Hacc Hfound Hres Hb Hl Hf reply via_socket via_http.
  assert (Hgen : forall h,
             generateResponse penv message h svc
             = (Returns reply, snd (recover penv message e svc)))
    by (intros h; now apply failed_call).
  destruct (socket_run _ (generateResponse penv) env svc results message cid
              (Some uid) reply _ Hres (Hgen _)) as (_ & ds & Es & Ms & _).
  destruct (http_run _ (generateResponse penv) env svc results message cid
              uid reply _ Hacc Hfound Hres (Hgen _)) as (_ & dh & Eh & Mh & _).
  fold via_socket in Es. fold via_http in Eh.
  split. { do 3 eexists. split; [exact Es|]. repeat split. exact Ms. }
  split. { do 3 eexists. split; [exact Eh|]. repeat split. exact Mh. }
  split; [reflexivity|]. split; [reflexivity|].
  split; [apply mock_text_not_apology|].
  rewrite Es, Eh. destruct (has_id cid); repeat split.
Qed.

(** C5, as stated, fails: with an API key configured and the provider
    answering every request with a 429, both paths send the greeting that
    the mock response has for "Hello", labelled [Rate limit exceeded], and
    not the apology; no metadata has [error = true], and what is stored of
    the reply's metadata is model, tokens and confidence. *)
Lemma provider_failure_not_apologetic :
  let greeting :=
    "👋 Hello! Welcome to our customer support. How can I assist you today?" in
  let md := mkMetadata (Some "mock-response") (Some 70) (Some 7) (Some true)
                       (Some true) (Some "Rate limit exceeded") None None in
  let kept := mkMetadata (Some "mock-response") (Some 70) (Some 7) None None
                         None None None in
  let um := plain user "Hello" 101 None in
  let bm := plain bot greeting 102 (Some md) in
  provider_fails rate_limited
    (mkJsError "RateLimitError" "Rate limit reached" (Some 429) (Some 30))
  /\ (exists doc,
        healthy = [ ToRoom (Some "u1") (botTyping None); FindOne true;
                    ToSender (messageSent um);
                    Save doc true;
                    ToRoom (Some "u1") (botStoppedTyping None);
                    ToSender (botMessage bm md) ]
        /\ doc_messages doc = [um; plain bot greeting 102 (Some kept)])
  /\ (exists doc,
        log (snd (sendMessage (generateResponse rate_limited) first_contact
                    hello_request (start service [])))
        = [ Save doc true; Populate true;
            Respond 200 (Sent "Message sent successfully" doc um bm md) ]
        /\ doc_messages doc = [um; plain bot greeting 102 (Some kept)])
  /\ greeting <> apology
  /\ md_error md = None
  /\ md_aiError md = None.
Proof.
  cbv zeta. split; [intros req; reflexivity|].
  split; [eexists; split; [vm_compute; reflexivity | reflexivity]|].
  split; [eexists; split; [vm_compute; reflexivity | reflexivity]|].
  split; [discriminate|]. split; reflexivity.
Qed.

Lemma provider_failure_answered_witness :
  acceptable "Hello"
  /\ all_resolve []
  /\ breaker_open service = false
  /\ limited (now rate_limited) service = false
  /\ existsb is_fallback_reply healthy = false
  /\ existsb is_send_failure healthy = false.
Proof.
  split; [exact RouterExamples.hello_acceptable|].
  do 3 (split; [reflexivity|]).
  pose proof (provider_failure_answered rate_limited
                (mkJsError "RateLimitError" "Rate limit reached" (Some 429)
                           (Some 30))
                first_contact service [] "Hello" None "u1"
                RouterExamples.hello_acceptable
                (fun H : has_id None = true => False_ind _ (diff_false_true H))
                eq_refl eq_refl eq_refl (fun _ => eq_refl))
    as (_ & _ & _ & _ & _ & Hs & _ & Hf & _).
  split; [exact Hs | exact Hf].
Defined.

End ProviderFailureFacts.

(* ===================================================================== *)
(** * Summaries and pages of conversations                                *)
(* ===================================================================== *)

Module ConversationQueryFacts.
Import ChatController JsNumber ConversationQueries.

(** ** getSummary *)

Lemma senders_partition l :
  length (filter (is_from user) l) + length (filter (is_from bot) l) = length l.
Proof.
  induction l as [|m r IH]; [reflexivity|].
  cbn [filter].
  destruct (is_from user m) eqn:E1, (is_from bot m) eqn:E2; cbn [length];
    try lia; unfold is_from in E1, E2; destruct (sender m); discriminate.
Qed.

(** X24.  In a summary the messages of the user and those of the bot add
    up to the total, which is also the [messageCount] of the JSON form;
    [addMessage] raises the total by one and the count of its sender by
    one, leaves the other count alone, and moves the end of the duration
    to the instant of the call. *)
Theorem summary_counts d t m :
  let s := getSummary d in
  let s' := getSummary (addMessage t m d) in
  userMessages s + botMessages s = totalMessages s
  /\ totalMessages s = messageCount d
  /\ totalMessages s' = S (totalMessages s)
  /\ userMessages s' = userMessages s + (if is_from user m then 1 else 0)
  /\ botMessages s' = botMessages s + (if is_from bot m then 1 else 0)
  /\ duration s' = (Z.of_nat t - Z.of_nat (createdAt d))%Z
  /\ (summary_status s', summary_resolved s')
     = (summary_status s, summary_resolved s).
Proof.
  cbn zeta. unfold getSummary, addMessage, messageCount.
  cbn [totalMessages userMessages botMessages duration summary_status
       summary_resolved doc createdAt resolved doc_messages doc_lastActivity
       doc_status].
  split; [apply senders_partition|]. split; [reflexivity|].
  rewrite !filter_app, !length_app. cbn [filter].
  change (is_from user (cast m)) with (is_from user m).
  change (is_from bot (cast m)) with (is_from bot m).
  split; [cbn; lia|].
  split; [destruct (is_from user m); reflexivity|].
  split; [destruct (is_from bot m); reflexivity|].
  split; reflexivity.
Qed.

(** ** The page of a listing *)

Lemma round53_small x : (Z.abs x < 2 ^ 53)%Z -> round53 x = x.
Proof.
  intros H. unfold round53. cbv zeta.
  destruct (Z.eq_dec (Z.abs x) 0) as [E|E].
  { rewrite E. reflexivity. }
  assert (Z.log2 (Z.abs x) < 53)%Z by (apply Z.log2_lt_pow2; lia).
  destruct (Z.leb_spec (Z.log2 (Z.abs x) - 52) 0); [reflexivity | lia].
Qed.

Lemma round53_sign x : (0 <= x)%Z -> (0 <= round53 x)%Z.
Proof.
  intros H. unfold round53. cbv zeta.
  destruct (Z.leb_spec (Z.log2 (Z.abs x) - 52) 0) as [|He]; [exact H|].
  set (e := (Z.log2 (Z.abs x) - 52)%Z) in *.
  assert (Hq : (0 <= Z.shiftr (Z.abs x) e)%Z) by (apply Z.shiftr_nonneg; lia).
  assert (0 <= Z.sgn x)%Z by lia.
  apply Z.mul_nonneg_nonneg; [assumption|].
  apply Z.shiftl_nonneg. destruct (_ || _); lia.
Qed.

Lemma round53_zero x : round53 x = 0%Z <-> x = 0%Z.
Proof.
  split; [|intros ->; reflexivity].
  unfold round53. cbv zeta.
  destruct (Z.leb_spec (Z.log2 (Z.abs x) - 52) 0) as [|He]; [trivial|].
  set (e := (Z.log2 (Z.abs x) - 52)%Z) in *.
  intros H. exfalso.
  assert (Hx : x <> 0%Z).
  { intros ->. cbn in He. lia. }
  assert (Hq : (0 < Z.shiftr (Z.abs x) e)%Z).
  { rewrite Z.shiftr_div_pow2 by lia.
    apply Z.div_str_pos. split; [apply Z.pow_pos_nonneg; lia|].
    pose proof (Z.log2_spec (Z.abs x) ltac:(lia)) as [L _].
    eapply Z.le_trans; [|exact L].
    apply Z.pow_le_mono_r; lia. }
  apply Z.mul_eq_0 in H. destruct H as [H|H]; [lia|].
  apply Z.shiftl_eq_0_iff in H; [|lia].
  destruct (_ || _); lia.
Qed.

Lemma round53_pos x : (1 <= x)%Z -> (1 <= round53 x)%Z.
Proof.
  intros H. pose proof (round53_sign x ltac:(lia)).
  pose proof (round53_zero x). lia.
Qed.

(** The rounding at work: beyond 2^53 an odd number of conversations to
    skip becomes an even one. *)
Example skip_is_rounded :
  skip_of (mkQuery (Some 200000000000000%Z) (Some 49%Z))
  = 9799999999999952%Z
  /\ ((200000000000000 - 1) * 49 = 9799999999999951)%Z.
Proof. split; reflexivity. Qed.

Lemma ceil_div_spec a b :
  (0 < b)%Z -> ((ceil_div a b - 1) * b < a <= ceil_div a b * b)%Z.
Proof.
  intros Hb. unfold ceil_div.
  pose proof (Z.div_mod (- a) b ltac:(lia)) as E.
  pose proof (Z.mod_pos_bound (- a) b Hb) as M.
  nia.
Qed.

Lemma lt_ceil_div p a b :
  (0 < b)%Z -> (p < ceil_div a b <-> p * b < a)%Z.
Proof.
  intros Hb. pose proof (ceil_div_spec a b Hb). split; intros H'; nia.
Qed.

(** X25.  Whatever the query asks for, the handler never asks the database
    for more than 50 conversations and never divides by zero: the limit
    is at most 50 and never 0 (10 when the parameter is missing,
    unreadable or 0), the page is never 0 (1 in the same cases), and a
    failure of either database call is answered with a 500. *)
Theorem limit_is_capped db q :
  (limit_of q <= 50)%Z
  /\ limit_of q <> 0%Z
  /\ page_of q <> 0%Z
  /\ (query_limit q = None \/ query_limit q = Some 0%Z -> limit_of q = 10%Z)
  /\ (query_page q = None \/ query_page q = Some 0%Z -> page_of q = 1%Z)
  /\ match getConversations db q with
     | Listed conversations pagination =>
         exists found n,
           find db (skip_of q) (limit_of q) = Returns found
           /\ countDocuments db = Returns n
           /\ conversations = map summarize found
           /\ total pagination = n /\ current pagination = page_of q
     | Failed status _ _ _ =>
         status = 500
         /\ ((exists e, find db (skip_of q) (limit_of q) = Throws e)
             \/ exists e, countDocuments db = Throws e)
     end.
Proof.
  unfold limit_of, page_of, or_default, parseInt.
  split; [lia|]. split.
  { destruct (query_limit q) as [l|]; cbn [option_map];
      [destruct (Z.eqb_spec (round53 l) 0)|]; lia. }
  split.
  { destruct (query_page q) as [p|]; cbn [option_map];
      [destruct (Z.eqb_spec (round53 p) 0)|]; lia. }
  split; [intros [-> | ->]; reflexivity|].
  split; [intros [-> | ->]; reflexivity|].
  unfold getConversations. cbv zeta.
  destruct (find db _ _) as [found|e]; [|split; eauto].
  destruct (countDocuments db) as [n|e]; [|split; eauto].
  exists found, n. repeat split.
Qed.

(** X26.  For a query that passed the route's validation and a database
    that answers: the limit is between 1 and 50 and nothing is skipped
    before the first page; [pages] is the least number of pages of that
    size that hold [total] conversations; [hasNext] says exactly that
    conversations remain after this page, and [hasPrev] that this is not
    the first page. *)
Theorem pagination_is_consistent db q found n :
  validated q ->
  find db (skip_of q) (limit_of q) = Returns found ->
  countDocuments db = Returns n ->
  (0 <= n)%Z ->
  exists pagination,
    getConversations db q = Listed (map summarize found) pagination
    /\ (1 <= limit_of q <= 50)%Z
    /\ (1 <= page_of q)%Z
    /\ (0 <= skip_of q)%Z
    /\ (page_of q = 1%Z -> skip_of q = 0%Z)
    /\ total pagination = n
    /\ (0 <= pages pagination)%Z
    /\ ((pages pagination - 1) * limit_of q < n
        <= pages pagination * limit_of q)%Z
    /\ (hasNext pagination = true <-> (page_of q * limit_of q < n)%Z)
    /\ (hasPrev pagination = true <-> (1 < page_of q)%Z).
Proof.
  intros [Vp Vl] Hf Hc Hn.
  assert (L : (1 <= limit_of q <= 50)%Z).
  { unfold limit_of, or_default, parseInt.
    destruct (query_limit q) as [l|] eqn:E; cbn [option_map]; [|lia].
    specialize (Vl l eq_refl). rewrite (round53_small l) by lia.
    destruct (Z.eqb_spec l 0); lia. }
  assert (P : (1 <= page_of q)%Z).
  { unfold page_of, or_default, parseInt.
    destruct (query_page q) as [p|] eqn:E; cbn [option_map]; [|lia].
    specialize (Vp p eq_refl). pose proof (round53_pos p Vp).
    destruct (Z.eqb_spec (round53 p) 0); lia. }
  unfold getConversations. cbv zeta. rewrite Hf, Hc.
  eexists. split; [reflexivity|].
  cbn [total pages hasNext hasPrev].
  pose proof (ceil_div_spec n (limit_of q) ltac:(lia)) as C.
  split; [exact L|]. split; [exact P|].
  split.
  { unfold skip_of. apply round53_sign, Z.mul_nonneg_nonneg; [|lia].
    apply round53_sign. lia. }
  split; [unfold skip_of; intros ->; reflexivity|].
  split; [reflexivity|].
  split; [nia|]. split; [exact C|]. split.
  - rewrite Z.ltb_lt. apply lt_ceil_div. lia.
  - apply Z.ltb_lt.
Qed.

Lemma pagination_is_consistent_witness :
  validated QueryScenarios.second_page
  /\ exists pagination,
       getConversations QueryScenarios.three_stored QueryScenarios.second_page
       = Listed [summarize QueryScenarios.stored_conversation] pagination
       /\ total pagination = 3%Z
       /\ (hasPrev pagination = true <-> (1 < 2)%Z).
Proof.
  assert (V : validated QueryScenarios.second_page).
  { split; intros x [= <-]; lia. }
  split; [exact V|].
  destruct (pagination_is_consistent QueryScenarios.three_stored
              QueryScenarios.second_page
              [QueryScenarios.stored_conversation] 3 V eq_refl eq_refl
              ltac:(lia))
    as (pg & E & _ & _ & _ & _ & T & _ & _ & _ & P).
  exists pg. split; [exact E|]. split; [exact T|exact P].
Defined.

End ConversationQueryFacts.

(* ===================================================================== *)
(** ** Properties of the request pipeline of the client                   *)
(* ===================================================================== *)

Module ApiServiceFacts.
Import JsNumber ApiService.

Lemma backoffs_app (a b : list Event) :
  backoffs (a ++ b) = backoffs a ++ backoffs b.
Proof.
  induction a as [|[t|ms|ms|] a IH]; cbn; rewrite ?IH; reflexivity.
Qed.

Lemma waited_app (a b : list Event) :
  waited (a ++ b) = (waited a + waited b)%N.
Proof.
  induction a as [|[t|ms|ms|] a IH]; cbn [app waited]; rewrite ?IH; lia.
Qed.

Lemma departures_app (a b : list Event) :
  departures (a ++ b) = departures a ++ departures b.
Proof.
  induction a as [|[t|ms|ms|] a IH]; cbn; rewrite ?IH; reflexivity.
Qed.

Lemma extends_trans w w1 w2 a b :
  extends w w1 a -> extends w1 w2 b -> extends w w2 (a ++ b).
Proof.
  intros (E1 & M1 & R1) (E2 & M2 & R2). unfold extends.
  rewrite E2, E1, M2, M1, R2, R1, departures_app, length_app, app_assoc.
  repeat split; lia.
Qed.

Section AnyEnv.

Variable env : Env.

(** The guard moves the clock only, and what it throws has no response. *)
Lemma guard_cases w :
  exists res k,
    guard env w = (res, mkWorld (service w) (reads w + k) (requests w) (events w))
    /\ match res with
       | Ok _ => True
       | Err e => response e = None
       end.
Proof.
  unfold guard, bind, get, Date_now, throw, ret.
  destruct (rateLimitedUntil (service w)) as [u|].
  - destruct (0 <? u).
    + cbn [service reads requests events].
      destruct (clock env (reads w) <? u).
      * eexists _, 2. rewrite Nat.add_succ_r, Nat.add_1_r.
        split; [reflexivity|reflexivity].
      * eexists _, 1. rewrite Nat.add_1_r. split; [reflexivity|exact I].
    + eexists _, 0. rewrite Nat.add_0_r. destruct w; split; [reflexivity|exact I].
  - eexists _, 0. rewrite Nat.add_0_r. destruct w; split; [reflexivity|exact I].
Qed.


Lemma handleHttpError_handled r w :
  handled w (fst (handleHttpError env r w)) (snd (handleHttpError env r w)).
Proof.
  unfold handleHttpError.
  assert (Hnone : forall e : Failure,
             response e = None ->
             handled w (Err e) w).
  { intros e He. exists []. unfold extends. rewrite app_nil_r. cbn.
    repeat split; auto with arith. intros _. lia. }
  assert (Hret : handled w (Ok tt) w).
  { exists []. unfold extends. rewrite app_nil_r. cbn.
    repeat split; auto with arith. intros _. lia. }
  destruct (status r =? 400).
  { unfold handleBadRequest.
    destruct (unreadable (data r)); [apply Hnone; reflexivity|exact Hret]. }
  destruct (status r =? 401).
  { unfold handleTokenExpiration, clearAuthToken, bind, modify, ret, emit.
    cbn [service reads requests events].
    destruct (on_auth_page env); cbn [fst snd].
    - exists []. unfold extends, budget. cbn. rewrite app_nil_r.
      repeat split; auto with arith. intros _. lia.
    - exists [ToLogin]. unfold extends, budget. cbn.
      repeat split; auto with arith. intros _. lia. }
  destruct (status r =? 429).
  { unfold handleRateLimitError. destruct (data r) as [d|].
    - unfold bind, Date_now, modify. cbn [fst snd service reads requests events].
      exists []. unfold extends, budget. cbn. rewrite app_nil_r.
      repeat split; auto with arith. intros _. lia.
    - unfold throw. cbn [fst snd]. exists []. unfold extends.
      rewrite app_nil_r. cbn. repeat split; auto with arith. intros _. lia. }
  destruct (existsb (Nat.eqb (status r)) [500; 502; 503; 504]).
  { unfold handleServerError, bind, get.
    destruct (connectionRetries (service w) <? maxRetries (service w)) eqn:Hc.
    - unfold modify, emit. cbn [fst snd service reads requests events].
      eexists [Pause _]. unfold extends, budget.
      cbn [service events maxRetries connectionRetries departures backoffs
           waited length].
      repeat split; auto with arith.
      intros Hm. rewrite Hm in Hc. apply Nat.ltb_lt in Hc.
      destruct (connectionRetries (service w)) as [|[|[|n]]]; [| | |lia];
        cbn; lia.
    - unfold ret. cbn [fst snd]. exists []. unfold extends.
      rewrite app_nil_r. cbn. repeat split; auto with arith. intros _. lia. }
  unfold ret. cbn [fst snd]. exists []. unfold extends.
  rewrite app_nil_r. cbn. repeat split; auto with arith. intros _. lia.
Qed.


Lemma handleNetworkError_handled w :
  handled w (fst (handleNetworkError w)) (snd (handleNetworkError w)).
Proof.
  unfold handleNetworkError, modify. cbn [fst snd]. exists [].
  unfold extends, budget. cbn. rewrite app_nil_r.
  repeat split; auto with arith. intros _. lia.
Qed.

(** The response interceptor of a rejected request rejects: with the
    error it was given, or with one that carries no response. *)
Lemma on_rejected_cases e w :
  exists e' w1 added,
    on_rejected env e w = (Err e', w1)
    /\ extends w w1 added
    /\ departures added = []
    /\ backoffs added = []
    /\ (maxRetries (service w) = 3 ->
        (waited added + budget (service w1) <= budget (service w))%N)
    /\ (e' = e \/ response e' = None).
Proof.
  assert (H : forall h : M unit,
             handled w (fst (h w)) (snd (h w)) ->
             exists e' w1 added,
               bind h (fun _ => throw e) w = (@Err Response e', w1)
               /\ extends w w1 added
               /\ departures added = []
               /\ backoffs added = []
               /\ (maxRetries (service w) = 3 ->
                   (waited added + budget (service w1) <= budget (service w))%N)
               /\ (e' = e \/ response e' = None)).
  { intros h (added & Hx & Hd & Hb & Hw & Hr). unfold bind, throw.
    destruct (h w) as [[[]|e'] w1]; cbn [fst snd] in *.
    - exists e, w1, added. auto 10.
    - exists e', w1, added. auto 10. }
  unfold on_rejected. destruct (response e) as [r|].
  - apply H, handleHttpError_handled.
  - destruct (request e).
    + apply H, handleNetworkError_handled.
    + apply H. unfold ret. cbn [fst snd]. exists []. unfold extends.
      rewrite app_nil_r. cbn. repeat split; auto with arith. intros _. lia.
Qed.

Lemma api_call_attempted w res w1 :
  api_call env w = (res, w1) -> attempted w res w1.
Proof.
  unfold api_call, request_interceptor, bind.
  destruct (guard_cases w) as (res0 & k & Eg & Hg). rewrite Eg.
  assert (Hrej : forall e t,
             on_rejected env e
               (mkWorld (service w) (S (reads w + k)) (S (requests w))
                        (events w ++ [Sent t])) = (res, w1) ->
             attempted w res w1).
  { intros e t E.
    destruct (on_rejected_cases e
                (mkWorld (service w) (S (reads w + k)) (S (requests w))
                         (events w ++ [Sent t])))
      as (e' & w1' & added & E' & (Ee & Em & Er) & Hd & Hb & Hw & _).
    rewrite E' in E. injection E as <- <-.
    cbn [service reads requests events] in *.
    exists (Sent t :: added). unfold extends.
    rewrite Ee, Em, Er, <- app_assoc. cbn. rewrite Hd, Hb. cbn.
    repeat split; auto with arith. }
  destruct res0 as [[]|e0].
  - unfold Date_now, emit, dispatchRequest, exchange, bind.
    cbn [service reads requests events].
    destruct (network env (requests w)) as [r c m|c m].
    + destruct (fulfilled r) eqn:Hf.
      * unfold ret, on_fulfilled, bind, modify.
        cbn [fst snd service reads requests events].
        intros [= <- <-].
        eexists [Sent _]. unfold extends. cbn.
        repeat split; auto with arith. lia.
      * unfold throw. apply Hrej.
    + unfold throw. apply Hrej.
  - intros E.
    match type of E with
    | on_rejected env ?e ?w0 = _ =>
        destruct (on_rejected_cases e w0)
          as (e' & w1' & added & E' & (Ee & Em & Er) & Hd & Hb & Hw & _);
        rewrite E' in E; injection E as <- <-
    end.
    cbn [service reads requests events] in *.
    exists added. unfold extends. rewrite Ee, Em, Er, Hd, Hb. cbn.
    repeat split; auto with arith.
Qed.

Lemma attempt_attempted method w res w1 :
  attempt env method w = (res, w1) -> attempted w res w1.
Proof.
  unfold attempt, bind.
  destruct (guard_cases w) as (res0 & k & Eg & Hg). rewrite Eg.
  destruct res0 as [[]|e0].
  - assert (Ha : forall res w1,
               api_call env
                 (mkWorld (service w) (reads w + k) (requests w) (events w))
               = (res, w1) -> attempted w res w1).
    { intros res' w1' E. apply api_call_attempted in E. exact E. }
    destruct method; try apply Ha.
    unfold throw. intros [= <- <-]. exists []. unfold extends.
    cbn. rewrite app_nil_r. repeat split; auto with arith. intros _. lia.
  - intros [= <- <-]. exists []. unfold extends.
    cbn. rewrite app_nil_r. repeat split; auto with arith. intros _. lia.
Qed.


Lemma more_fuel fuel k method rc w x :
  executeWithRetry env fuel method rc w = Some x ->
  executeWithRetry env (fuel + k) method rc w = Some x.
Proof.
  revert rc w. induction fuel as [|fuel IH]; intros rc w; [discriminate|].
  cbn [executeWithRetry Nat.add].
  destruct (attempt env method w) as [[r|e] w1]; [exact (fun H => H)|].
  destruct (is_429 e); [exact (fun H => H)|].
  destruct (shouldRetryRequest (service w1) e rc); [|exact (fun H => H)].
  unfold emit. apply IH.
Qed.

Lemma budget_le s : (budget s <= 12000)%N.
Proof.
  unfold budget. destruct (connectionRetries s) as [|[|[|n]]]; lia.
Qed.

(** The retry loop from attempt [rc] on, when [n] retries are left. *)
Lemma retry_loop n :
  forall rc method w fuel,
    rc + n = 3 ->
    maxRetries (service w) = 3 ->
    n < fuel ->
    exists res w' added,
      executeWithRetry env fuel method rc w = Some (res, w')
      /\ extends w w' added
      /\ length (departures added) <= S n
      /\ (exists j, backoffs added = firstn j (delays rc n))
      /\ (waited added <= total (delays rc n) + budget (service w))%N.
Proof.
  induction n as [|n IH]; intros rc method w fuel Hrc Hm Hf;
    (destruct fuel as [|fuel]; [lia|]); cbn [executeWithRetry];
    destruct (attempt env method w) as [res w1] eqn:Ea;
    apply attempt_attempted in Ea;
    destruct Ea as (added & Hx & Hb & Hd & Hres).
  - assert (Hstop : exists res' w' added',
               Some (res, w1) = Some (res', w')
               /\ extends w w' added'
               /\ length (departures added') <= 1
               /\ (exists j, backoffs added' = firstn j (delays rc 0))
               /\ (waited added' <= total (delays rc 0) + budget (service w))%N).
    { exists res, w1, added.
      split; [reflexivity|]. split; [exact Hx|]. split; [lia|]. split.
      - exists 0. exact Hb.
      - destruct res as [r|e].
        + destruct Hres as (_ & _ & _ & _ & _ & ->). lia.
        + specialize (Hres Hm). lia. }
    destruct res as [r|e]; [exact Hstop|].
    destruct (is_429 e); [exact Hstop|].
    unfold shouldRetryRequest.
    destruct Hx as (_ & Hm1 & _). rewrite Hm1, Hm.
    replace rc with 3 by lia. cbn [Nat.leb]. exact Hstop.
  - assert (Hstop : exists res' w' added',
               Some (res, w1) = Some (res', w')
               /\ extends w w' added'
               /\ length (departures added') <= S (S n)
               /\ (exists j, backoffs added' = firstn j (delays rc (S n)))
               /\ (waited added'
                   <= total (delays rc (S n)) + budget (service w))%N).
    { exists res, w1, added.
      split; [reflexivity|]. split; [exact Hx|]. split; [lia|]. split.
      - exists 0. exact Hb.
      - destruct res as [r|e].
        + destruct Hres as (_ & _ & _ & _ & _ & ->). lia.
        + specialize (Hres Hm). lia. }
    destruct res as [r|e]; [exact Hstop|].
    destruct (is_429 e); [exact Hstop|].
    destruct (shouldRetryRequest (service w1) e rc); [|exact Hstop].
    clear Hstop. unfold emit.
    set (w2 := mkWorld (service w1) (reads w1) (requests w1)
                       (events w1 ++ [Backoff (delay rc)])).
    assert (Hm1 : maxRetries (service w1) = 3)
      by (destruct Hx as (_ & -> & _); exact Hm).
    destruct (IH (S rc) method w2 fuel) as (res' & w' & added' & E & Hx' & Hd' & (j & Hb') & Hw');
      [lia|exact Hm1|lia|].
    exists res', w', (added ++ Backoff (delay rc) :: added').
    split; [exact E|].
    assert (Hx2 : extends w1 w2 [Backoff (delay rc)]).
    { unfold extends, w2. cbn. repeat split; lia. }
    split.
    { replace (added ++ Backoff (delay rc) :: added')
        with ((added ++ [Backoff (delay rc)]) ++ added')
        by (rewrite <- app_assoc; reflexivity).
      eapply extends_trans; [|exact Hx'].
      eapply extends_trans; eassumption. }
    rewrite departures_app, backoffs_app, waited_app, length_app, Hb.
    cbn [departures backoffs waited app].
    split; [lia|]. split.
    + exists (S j). rewrite Hb'. reflexivity.
    + specialize (Hres Hm). subst w2. cbn [service] in Hw'.
      unfold delays, total in *. cbn [seq map fold_right] in *. lia.
Qed.


(** X27. A call with the ceiling of the constructor always comes to an
    end, and four attempts are all it ever makes: at most four requests
    leave, the retry loop waits 1000, 2000 and 4000 milliseconds in this
    order (or a prefix of it), and with the pauses of the server-error
    handler the call waits at most 19 seconds in all.  The ceiling is
    left as it is. *)
Theorem executeWithRetry_bounded method w :
  maxRetries (service w) = 3 ->
  exists res w' added,
    (forall fuel, 4 <= fuel ->
       executeWithRetry env fuel method 0 w = Some (res, w'))
    /\ events w' = events w ++ added
    /\ requests w' = requests w + length (departures added)
    /\ length (departures added) <= 4
    /\ (exists j, backoffs added = firstn j [1000; 2000; 4000]%N)
    /\ (waited added <= 19000)%N
    /\ maxRetries (service w') = 3.
Proof.
  intros Hm.
  destruct (retry_loop 3 0 method w 4)
    as (res & w' & added & E & (He & Hm' & Hr) & Hd & Hb & Hw);
    [reflexivity|exact Hm|lia|].
  exists res, w', added.
  split.
  { intros fuel Hf. replace fuel with (4 + (fuel - 4)) by lia.
    apply more_fuel, E. }
  split; [exact He|]. split; [exact Hr|]. split; [exact Hd|].
  split; [exact Hb|]. split; [|rewrite Hm'; exact Hm].
  pose proof (budget_le (service w)) as Hbud.
  change (total (delays 0 3)) with 7000%N in Hw. lia.
Qed.

(** X28. Whenever a call returns a response, after whatever retries, the
    response has a status from 200 to 299, at least one request has left,
    and the service is online, with its count of connection retries at
    zero and no rate limit. *)
Theorem response_resets_service fuel method rc w r w' :
  executeWithRetry env fuel method rc w = Some (Ok r, w') ->
  fulfilled r = true
  /\ requests w < requests w'
  /\ isOnline (service w') = true
  /\ connectionRetries (service w') = 0
  /\ rateLimitedUntil (service w') = None.
Proof.
  revert rc w. induction fuel as [|fuel IH]; intros rc w; [discriminate|].
  cbn [executeWithRetry].
  destruct (attempt env method w) as [res w1] eqn:Ea.
  apply attempt_attempted in Ea.
  destruct Ea as (added & (_ & _ & Hr) & _ & _ & Hres).
  destruct res as [r1|e].
  - intros [= -> ->].
    destruct Hres as (Hf & Ho & Hc & Hl & Hd & _). repeat split; auto. lia.
  - destruct (is_429 e); [discriminate|].
    destruct (shouldRetryRequest (service w1) e rc); [|discriminate].
    unfold emit. intros E. apply IH in E. cbn [requests] in E.
    destruct E as (Hf & Hq & Hrest). repeat split; try apply Hrest; auto. lia.
Qed.

Lemma guard_open w :
  rateLimitedUntil (service w) = None -> guard env w = (Ok tt, w).
Proof.
  intros H. unfold guard, bind, get. rewrite H. reflexivity.
Qed.

Lemma guard_closed w u :
  rateLimitedUntil (service w) = Some u ->
  (forall k, clock env k < u) ->
  guard env w
  = (Err (Error (rateLimitMessage
                   (ceil_div (Z.of_nat u - Z.of_nat (clock env (S (reads w))))
                             1000))),
     mkWorld (service w) (S (S (reads w))) (requests w) (events w)).
Proof.
  intros H Hc. unfold guard, bind, get. rewrite H.
  assert (H0 : (0 <? u) = true) by (apply Nat.ltb_lt; specialize (Hc 0); lia).
  rewrite H0. unfold Date_now. cbn [service reads requests events].
  assert (H1 : (clock env (reads w) <? u) = true) by (apply Nat.ltb_lt, Hc).
  rewrite H1. reflexivity.
Qed.

(** X29. While the service is rate limited and the clock stays before the
    end of the limit, a call sends nothing: each of its four attempts is
    stopped before the network, the retry loop waits 1000, 2000 and 4000
    milliseconds between them, and the call fails with the error that
    tells how many seconds are left.  The service is left as it was. *)
Theorem no_request_while_rate_limited method w u fuel :
  rateLimitedUntil (service w) = Some u ->
  maxRetries (service w) = 3 ->
  (forall k, clock env k < u) ->
  4 <= fuel ->
  executeWithRetry env fuel method 0 w
  = Some (Err (Error (rateLimitMessage
                        (ceil_div (Z.of_nat u
                                   - Z.of_nat (clock env (reads w + 7)))
                                  1000))),
          mkWorld (service w) (reads w + 8) (requests w)
                  (events w ++ [Backoff 1000; Backoff 2000; Backoff 4000])).
Proof.
  intros Hu Hm Hc Hf. replace fuel with (4 + (fuel - 4)) by lia.
  apply more_fuel.
  assert (Ha : forall w0,
             service w0 = service w ->
             attempt env method w0
             = (Err (Error (rateLimitMessage
                   (ceil_div (Z.of_nat u - Z.of_nat (clock env (S (reads w0))))
                             1000))),
                mkWorld (service w0) (S (S (reads w0))) (requests w0)
                        (events w0))).
  { intros w0 Hs. unfold attempt, bind.
    rewrite (guard_closed w0 u); [reflexivity| |exact Hc].
    rewrite Hs. exact Hu. }
  assert (Hs : forall msg rc,
             shouldRetryRequest (service w) (Error msg) rc = negb (3 <=? rc)).
  { intros msg rc. unfold shouldRetryRequest. rewrite Hm.
    destruct (3 <=? rc); reflexivity. }
  cbn [executeWithRetry].
  repeat (rewrite Ha by reflexivity;
          cbn [is_429 Error response service reads requests events emit];
          rewrite Hs; cbn [Nat.leb negb]).
  change (delay 0) with 1000%N. change (delay 1) with 2000%N.
  change (delay 2) with 4000%N.
  rewrite <- !app_assoc. cbn [app].
  repeat f_equal; lia.
Qed.

(** X30. A response with a status from 400 to 499 is never retried: one
    request leaves and the call fails with that response.  A 401 removes
    the token and the user and sends the page to the login form unless it
    shows it already; a 429 sets the rate limit to [retryAfter] seconds
    (60 when the body gives none) after the instant the handler reads;
    every other status leaves the service as it was.  (Two bodies are set
    apart, a 429 whose body is [null] and a 400 validation error with a
    [null] among its details: the handler throws on them an error without
    a response, which the loop does retry.) *)
Theorem client_error_not_retried method fuel w r c m :
  supported method = true ->
  rateLimitedUntil (service w) = None ->
  network env (requests w) = Replied r c m ->
  400 <= status r < 500 ->
  (status r = 400 -> unreadable (data r) = false) ->
  (status r = 429 -> data r <> None) ->
  exists w',
    executeWithRetry env (S fuel) method 0 w
    = Some (Err (mkFailure (Some r) true c m), w')
    /\ requests w' = S (requests w)
    /\ events w'
       = events w ++ Sent (clock env (reads w))
                  :: (if (status r =? 401) && negb (on_auth_page env)
                      then [ToLogin] else [])
    /\ (status r = 401 ->
        token (service w') = None /\ user (service w') = None)
    /\ (forall d, status r = 429 -> data r = Some d ->
          rateLimitedUntil (service w')
          = Some (clock env (S (reads w)) + retryAfter d * 1000))
    /\ (status r <> 401 -> status r <> 429 -> service w' = service w).
Proof.
  intros Hs Hu Hn Hr Hv Hd.
  assert (Hf : fulfilled r = false).
  { unfold fulfilled. apply andb_false_iff. right. apply Nat.ltb_ge. lia. }
  assert (H4 : ((400 <=? status r) && (status r <? 500)) = true).
  { apply andb_true_iff. split; [apply Nat.leb_le|apply Nat.ltb_lt]; lia. }
  assert (H5 : existsb (Nat.eqb (status r)) [500; 502; 503; 504] = false).
  { cbn [existsb]. repeat (apply orb_false_iff; split);
      try reflexivity; apply Nat.eqb_neq; lia. }
  assert (Ea : attempt env method w = api_call env w).
  { unfold attempt, bind. rewrite (guard_open w Hu).
    destruct method; try reflexivity. discriminate Hs. }
  cbn [executeWithRetry]. rewrite Ea.
  unfold api_call, request_interceptor, bind.
  rewrite (guard_open w Hu).
  unfold Date_now, emit, dispatchRequest, exchange, bind.
  cbn [service reads requests events]. rewrite Hn, Hf.
  unfold throw, on_rejected, bind. cbn [response].
  unfold handleHttpError, throw. rewrite H5.
  destruct (status r =? 400) eqn:E0.
  { apply Nat.eqb_eq in E0. unfold handleBadRequest. rewrite (Hv E0).
    unfold ret, is_429, shouldRetryRequest. cbn [response service].
    rewrite H4.
    replace (status r =? 429) with false
      by (symmetry; apply Nat.eqb_neq; lia).
    replace (status r =? 401) with false
      by (symmetry; apply Nat.eqb_neq; lia).
    destruct (maxRetries (service w) <=? 0);
      (eexists; split; [reflexivity|]);
      cbn [service reads requests events andb];
      (split; [reflexivity|]); (split; [reflexivity|]);
      (split; [intros; lia|]); (split; [intros; lia|reflexivity]). }
  destruct (status r =? 401) eqn:E1.
  - apply Nat.eqb_eq in E1.
    unfold handleTokenExpiration, clearAuthToken, bind, modify, ret, emit.
    cbn [service reads requests events].
    destruct (on_auth_page env); cbn [negb andb];
      unfold is_429, shouldRetryRequest;
      cbn [response service maxRetries]; rewrite H4;
      (replace (status r =? 429) with false
        by (symmetry; apply Nat.eqb_neq; lia));
      destruct (maxRetries (service w) <=? 0);
      (eexists; split; [reflexivity|]);
      cbn [service reads requests events token user];
      rewrite <- ?app_assoc;
      (split; [reflexivity|]); (split; [reflexivity|]);
      (split; [auto|]); (split; [intros; lia|intros; lia]).
  - apply Nat.eqb_neq in E1. cbn [andb].
    destruct (status r =? 429) eqn:E2.
    + apply Nat.eqb_eq in E2. unfold handleRateLimitError.
      destruct (data r) as [d|] eqn:Ed; [|exfalso; apply (Hd E2); reflexivity].
      unfold bind, Date_now, modify.
      cbn [service reads requests events].
      unfold is_429. cbn [response]. rewrite (proj2 (Nat.eqb_eq _ _) E2).
      eexists; split; [reflexivity|].
      cbn [service reads requests events token user rateLimitedUntil].
      split; [reflexivity|]. split; [reflexivity|].
      split; [intros; lia|]. split; [|intros; lia].
      intros d' _ [= <-]. reflexivity.
    + apply Nat.eqb_neq in E2. unfold ret.
      unfold is_429, shouldRetryRequest. cbn [response service].
      rewrite (proj2 (Nat.eqb_neq _ _) E2), H4.
      destruct (maxRetries (service w) <=? 0);
        (eexists; split; [reflexivity|]);
        cbn [service reads requests events];
        (split; [reflexivity|]); (split; [reflexivity|]);
        (split; [intros; lia|]); (split; [intros; lia|reflexivity]).
Qed.

End AnyEnv.

Import ApiScenarios.

Lemma executeWithRetry_bounded_witness :
  maxRetries (service (start signed_in)) = 3
  /\ exists res w',
       executeWithRetry offline 4 POST 0 (start signed_in) = Some (res, w')
       /\ maxRetries (service w') = 3.
Proof.
  split; [reflexivity|].
  destruct (executeWithRetry_bounded offline POST (start signed_in) eq_refl)
    as (res & w' & added & E & _ & _ & _ & _ & _ & Hm).
  exists res, w'. split; [exact (E 4 (le_n 4))|exact Hm].
Defined.

Lemma response_resets_service_witness :
  executeWithRetry recovering 4 POST 0 (start signed_in)
  = Some (Ok (mkResponse 200 None),
          mkWorld signed_in 2 2 [Sent 0; Backoff 1000; Sent 1])
  /\ isOnline signed_in = true
  /\ connectionRetries signed_in = 0.
Proof.
  assert (H : executeWithRetry recovering 4 POST 0 (start signed_in)
              = Some (Ok (mkResponse 200 None),
                      mkWorld signed_in 2 2 [Sent 0; Backoff 1000; Sent 1]))
    by (vm_compute; reflexivity).
  split; [exact H|].
  pose proof (response_resets_service recovering 4 POST 0 (start signed_in)
                _ _ H) as (_ & _ & Ho & Hc & _).
  split; [exact Ho|exact Hc].
Defined.

Lemma no_request_while_rate_limited_witness :
  (forall k, clock standing k < 1 + 30 * 1000)
  /\ exists e w',
       executeWithRetry standing 4 POST 0 (start limited) = Some (Err e, w')
       /\ requests w' = 0
       /\ service w' = limited.
Proof.
  assert (H : forall k, clock standing k < 1 + 30 * 1000)
    by (intros k; cbn [clock standing]; lia).
  split; [exact H|].
  eexists. eexists.
  split; [exact (no_request_while_rate_limited standing POST (start limited)
                   (1 + 30 * 1000) 4 eq_refl eq_refl H (le_n 4))|].
  split; reflexivity.
Defined.

Lemma client_error_not_retried_witness :
  400 <= status too_many < 500
  /\ exists w',
       executeWithRetry throttling 1 POST 0 (start signed_in)
       = Some (Err (mkFailure (Some too_many) true (Some "ERR_BAD_REQUEST")
                      "Request failed with status code 429"), w')
       /\ rateLimitedUntil (service w') = Some (1 + 30 * 1000).
Proof.
  assert (H : 400 <= status too_many < 500) by (cbn [status too_many]; lia).
  split; [exact H|].
  assert (Hv : status too_many = 400 -> unreadable (data too_many) = false)
    by (intros _; reflexivity).
  assert (Hd : status too_many = 429 -> data too_many <> None)
    by (intros _; discriminate).
  destruct (client_error_not_retried throttling POST 0 (start signed_in)
              too_many (Some "ERR_BAD_REQUEST")
              "Request failed with status code 429"
              eq_refl eq_refl eq_refl H Hv Hd)
    as (w' & E & _ & _ & _ & Hl & _).
  exists w'. split; [exact E|].
  exact (Hl _ eq_refl eq_refl).
Defined.

End ApiServiceFacts.
